(** * A segregated free-list allocator (allocator.c), embedded in Rocq

    The C program is modelled for an LP64, little-endian target (x86-64
    Linux): [int] is 32 bits, [size_t], [intptr_t] and pointers are 64 bits,
    and [header_node_t] has [magic_number] at offset 0 and [block_size] at
    offset 8.

    Memory is byte addressed; a byte is either mapped and holds a value, or
    unmapped.  An access that touches an unmapped byte, an index outside
    [freelists], and [__builtin_ctzl(0)] are undefined behaviour and end the
    run in [Crash].  The operating system's answers ([mmap]'s and [write]'s
    return values) are inputs of each call; the calls the program makes to the
    outside ([mmap], [perror], [write]) are recorded in a trace. *)

From Stdlib Require Import ZArith List Lia String Ascii Bool.
From coqutil Require Import Byte Word.LittleEndianList.
Import ListNotations.
Local Open Scope string_scope.
Local Open Scope Z_scope.

(** * Part I: the model *)

(** ** Constants of the source *)

Definition MIN_MALLOC_SIZE : Z := 16.

Definition PAGE_SIZE : Z := 4096.          (* 0x1000 *)

Definition MAGIC_NUMBER : Z := 694558.     (* 0xA991E *)

Definition MAP_FAILED : Z := 2 ^ 64 - 1.   (* (void* ) -1 *)

Definition EXIT_FAILURE : Z := 1.

Definition STDERR_FILENO : Z := 2.

Definition NULL : Z := 0.

(** ** Machine integers *)

Definition wrap64 (z : Z) : Z := z mod 2 ^ 64.

Definition signed (w : Z) (z : Z) : Z :=
  let u := z mod 2 ^ w in
  if u <? 2 ^ (w - 1) then u else u - 2 ^ w.

(** Conversion to [int] and to [intptr_t]. *)
Definition to_int (z : Z) : Z := signed 32 z.

Definition to_intptr (z : Z) : Z := signed 64 z.

(** [ROUND_UP(x, y)] on [size_t] operands. *)
Definition ROUND_UP (x y : Z) : Z :=
  if x mod y =? 0 then x else wrap64 (x + wrap64 (y - x mod y)).

(** Pointer plus byte offset. *)
Definition ptr_add (p o : Z) : Z := wrap64 (p + o).

(** [__builtin_ctzl]: the number of trailing zero bits of an
    [unsigned long]; undefined at 0. *)
Fixpoint ctz_pos (p : positive) : Z :=
  match p with
  | xO q => 1 + ctz_pos q
  | _ => 0
  end.

Definition ctzl (x : Z) : option Z :=
  match x with
  | Zpos p => Some (ctz_pos p)
  | _ => None
  end.

(** ** Memory *)

Definition memory : Type := Z -> option byte.

Definition range_mapped (m : memory) (a : Z) (n : nat) : bool :=
  forallb (fun i => match m (a + Z.of_nat i) with Some _ => true | None => false end)
          (seq 0 n).

Definition read_bytes (m : memory) (a : Z) (n : nat) : list byte :=
  map (fun i => match m (a + Z.of_nat i) with Some b => b | None => Byte.x00 end)
      (seq 0 n).

Definition write_bytes (m : memory) (a : Z) (bs : list byte) : memory :=
  fun x =>
    if (a <=? x) && (x <? a + Z.of_nat (List.length bs))
    then Some (nth (Z.to_nat (x - a)) bs Byte.x00)
    else m x.

(** Load and store of an [n]-byte little-endian unsigned value. *)
Definition load (n : nat) (m : memory) (a : Z) : option Z :=
  if range_mapped m a n then Some (le_combine (read_bytes m a n)) else None.

Definition store (n : nat) (m : memory) (a : Z) (v : Z) : option memory :=
  if range_mapped m a n then Some (write_bytes m a (le_split n v)) else None.

(** A fresh anonymous mapping is zero filled. *)
Definition map_zero (m : memory) (a len : Z) : memory :=
  fun x => if (a <=? x) && (x <? a + len) then Some Byte.x00 else m x.

Definition empty_memory : memory := fun _ => None.

(** ** Process state, events and outcomes *)

Inductive mmap_flags : Type :=
| MAP_ANONYMOUS_SHARED
| MAP_ANONYMOUS_PRIVATE.

Inductive event : Type :=
| EvMmap (len : Z) (flags : mmap_flags) (ret : Z)
| EvPerror (msg : string)
| EvWrite (fd : Z) (buf : string) (count : Z).

Record state : Type := mkState {
  freelists : list Z;       (* freelist_t* freelists[8] *)
  mem : memory;
  trace : list event
}.

(** What the operating system answers during one call. *)
Record os_reply : Type := mkReply {
  mmap_ret : Z;
  write_ret : Z
}.

Inductive outcome (A : Type) : Type :=
| Ret (a : A) (st : state)     (* the function returns *)
| Exit (code : Z) (st : state) (* exit() was called *)
| Crash                        (* undefined behaviour *)
| Diverge.                     (* the loop did not end within its fuel *)
Arguments Ret {A} a st.
Arguments Exit {A} code st.
Arguments Crash {A}.
Arguments Diverge {A}.

Definition bind {A B : Type} (c : state -> outcome A) (k : A -> state -> outcome B)
  : state -> outcome B :=
  fun st =>
    match c st with
    | Ret a st' => k a st'
    | Exit code st' => Exit code st'
    | Crash => Crash
    | Diverge => Diverge
    end.

Definition ret {A : Type} (a : A) : state -> outcome A := fun st => Ret a st.

Notation "x <- c ;; k" := (bind c (fun x => k))
  (at level 61, c at next level, right associativity).

Notation "c ;;; k" := (bind c (fun _ => k))
  (at level 61, right associativity).

Definition emit (e : event) : state -> outcome unit :=
  fun st => Ret tt (mkState (freelists st) (mem st) (trace st ++ [e])).

Definition exit_ {A : Type} (code : Z) : state -> outcome A :=
  fun st => Exit code st.

Definition load_st (n : nat) (a : Z) : state -> outcome Z :=
  fun st =>
    match load n (mem st) a with
    | Some v => Ret v st
    | None => Crash
    end.

Definition store_st (n : nat) (a v : Z) : state -> outcome unit :=
  fun st =>
    match store n (mem st) a v with
    | Some m' => Ret tt (mkState (freelists st) m' (trace st))
    | None => Crash
    end.

(** [freelists[index]] as an rvalue and as an lvalue. *)
Definition in_bounds (index : Z) : bool := (0 <=? index) && (index <? 8).

Fixpoint list_set (l : list Z) (i : nat) (v : Z) : list Z :=
  match l, i with
  | [], _ => []
  | _ :: t, O => v :: t
  | h :: t, S j => h :: list_set t j v
  end.

Definition fl_get (index : Z) : state -> outcome Z :=
  fun st =>
    if in_bounds index then Ret (nth (Z.to_nat index) (freelists st) NULL) st
    else Crash.

Definition fl_set (index : Z) (v : Z) : state -> outcome unit :=
  fun st =>
    if in_bounds index
    then Ret tt (mkState (list_set (freelists st) (Z.to_nat index) v) (mem st) (trace st))
    else Crash.

(** [mmap(NULL, len, PROT_READ | PROT_WRITE, flags, -1, 0)] answering [r]. *)
Definition mmap (len : Z) (flags : mmap_flags) (r : Z) : state -> outcome Z :=
  fun st =>
    Ret r (mkState (freelists st)
                   (if r =? MAP_FAILED then mem st else map_zero (mem st) r len)
                   (trace st ++ [EvMmap len flags r])).

Definition perror (msg : string) : state -> outcome unit := emit (EvPerror msg).

(** ** The functions of allocator.c *)

Definition roundPowers (size : Z) : Z :=
  if size <=? 16 then 16
  else if size <=? 32 then 32
  else if size <=? 64 then 64
  else if size <=? 128 then 128
  else if size <=? 256 then 256
  else if size <=? 512 then 512
  else if size <=? 1024 then 1024
  else if size <=? 2048 then 2048
  else -1.

(** The [int] argument is converted to [unsigned long] for [__builtin_ctzl]. *)
Definition roundPowersList (size : Z) : option Z :=
  match ctzl (wrap64 size) with
  | Some c => Some (c - 4)
  | None => None
  end.

Definition roundPowersList_st (size : Z) : state -> outcome Z :=
  fun st =>
    match roundPowersList size with
    | Some i => Ret i st
    | None => Crash
    end.

Fixpoint carve_loop (fuel : nat) (blocked_page size offset : Z)
  : state -> outcome Z :=
  if offset <? PAGE_SIZE then
    match fuel with
    | O => fun _ => Diverge
    | S fuel' =>
        let node := ptr_add blocked_page offset in
        let offset' := wrap64 (offset + size) in
        store_st 8 node (ptr_add blocked_page offset') ;;;
        carve_loop fuel' blocked_page size offset'
    end
  else ret offset.

Definition carve_fuel : nat := Z.to_nat PAGE_SIZE.

Definition allocate_blocks (size : Z) (os : os_reply) : state -> outcome Z :=
  blocked_page <- mmap PAGE_SIZE MAP_ANONYMOUS_SHARED (mmap_ret os) ;;
  if blocked_page =? MAP_FAILED then
    perror "failed to allocate space" ;;;
    exit_ EXIT_FAILURE
  else
    store_st 4 blocked_page MAGIC_NUMBER ;;;
    store_st 8 (ptr_add blocked_page 8) size ;;;
    offset <- carve_loop carve_fuel blocked_page size size ;;
    store_st 8 (ptr_add (ptr_add blocked_page offset) (- size)) NULL ;;;
    ret (ptr_add blocked_page size).

Definition removeFirst (lst : Z) : state -> outcome Z :=
  load_st 8 lst.

Definition string_length (s : string) : Z := Z.of_nat (String.length s).

(** The one-character string "\n". *)
Definition newline : string := String (ascii_of_nat 10) EmptyString.

Definition log_message (message : string) (os : os_reply) : state -> outcome unit :=
  let len := string_length message in
  emit (EvWrite STDERR_FILENO message len) ;;;
  if negb (write_ret os =? len) then
    (* sizeof(fail_msg) counts the terminating zero byte *)
    emit (EvWrite STDERR_FILENO ("logging failed" ++ newline) 16) ;;;
    exit_ 2
  else ret tt.

Definition xxmalloc (size : Z) (os : os_reply) : state -> outcome Z :=
  if size >? 2048 then
    let size := ROUND_UP size PAGE_SIZE in
    p <- mmap size MAP_ANONYMOUS_PRIVATE (mmap_ret os) ;;
    if p =? MAP_FAILED then
      log_message ("mmap failed! Giving up." ++ newline) os ;;;
      exit_ 2
    else ret p
  else
    let size := wrap64 (roundPowers (to_int size)) in
    index <- roundPowersList_st (to_int size) ;;
    head <- fl_get index ;;
    (if head =? NULL
     then (l <- allocate_blocks size os ;; fl_set index l)
     else ret tt) ;;;
    first <- fl_get index ;;
    rest <- removeFirst first ;;
    fl_set index rest ;;;
    ret first.

Definition addFirst (lst freeNode : Z) : state -> outcome Z :=
  store_st 8 freeNode lst ;;;
  ret freeNode.

Definition page_start (ptr : Z) : Z :=
  let free_address := to_intptr ptr in
  wrap64 (free_address - Z.rem free_address PAGE_SIZE).

Definition xxmalloc_usable_size (ptr : Z) : state -> outcome Z :=
  if ptr =? NULL then ret 0
  else
    let header := page_start ptr in
    magic_number <- load_st 4 header ;;
    if negb (to_int magic_number =? MAGIC_NUMBER) then ret (wrap64 (-1))
    else load_st 8 (ptr_add header 8).

Definition xxfree (ptr : Z) : state -> outcome unit :=
  if ptr =? NULL then ret tt
  else
    size <- xxmalloc_usable_size ptr ;;
    if size =? wrap64 (-1) then
      perror "pointer not allocated using custom malloc" ;;;
      ret tt
    else
      index <- roundPowersList_st (to_int size) ;;
      head <- fl_get index ;;
      l <- addFirst head ptr ;;
      fl_set index l.

(** The state of a process that has not called the allocator yet:
    [freelists] is all [NULL]; [m] is whatever the process has mapped. *)
Definition init_state (m : memory) : state :=
  mkState [NULL; NULL; NULL; NULL; NULL; NULL; NULL; NULL] m [].

(** ** Outcomes of concrete runs *)

(** The state in which an outcome leaves the process. *)
Definition after {A : Type} (o : outcome A) : state :=
  match o with
  | Ret _ st => st
  | Exit _ st => st
  | _ => init_state empty_memory
  end.

(** What an outcome returns, if it returns. *)
Definition returned {A : Type} (o : outcome A) : option A :=
  match o with
  | Ret a _ => Some a
  | _ => None
  end.

(** ** Size classes *)

Definition size_classes : list Z := [16; 32; 64; 128; 256; 512; 1024; 2048].

Definition is_class (s : Z) : Prop := In s size_classes.

(** The slot of a class in [freelists]: log2(size) - 4. *)
Definition class_index (s : Z) : Z := Z.log2 s - 4.

(** The number of blocks one page yields for class [s]: the first [s] bytes
    of the page hold the header. *)
Definition blocksPerPage (s : Z) : Z := PAGE_SIZE / s - 1.

(** [s] is the smallest member of the class set that is at least [n]. *)
Definition smallest_class_ge (n s : Z) : Prop :=
  is_class s /\ n <= s /\ forall t, is_class t -> n <= t -> s <= t.

Ltac each_class H :=
  unfold is_class, size_classes in H; simpl in H;
  repeat (destruct H as [H | H]; [symmetry in H; subst|]); [..|contradiction].

(** ** The operating system's contract for [mmap] *)

Definition range_free (m : memory) (a : Z) (n : nat) : bool :=
  forallb (fun i => match m (a + Z.of_nat i) with None => true | Some _ => false end)
          (seq 0 n).

(** [mmap] either fails, or answers a page-aligned, non-null region in the
    lower half of the address space none of whose bytes was mapped. *)
Definition mmap_ok (m : memory) (len r : Z) : bool :=
  (r =? MAP_FAILED) ||
  ((0 <? len) && (0 <? r) && (r mod PAGE_SIZE =? 0) && (r + len <=? 2 ^ 63)
   && range_free m r (Z.to_nat len)).

(** ** Carved pages and free lists in memory *)

Definition mapped (m : memory) (x : Z) : Prop := m x <> None.

(** What [allocate_blocks] leaves in memory when it carves the page at [r]
    for class [s], starting from memory [m]. *)
Definition carved (m m' : memory) (r s : Z) : Prop :=
  (forall x, x < r \/ r + PAGE_SIZE <= x -> m' x = m x) /\
  (forall x, r <= x < r + PAGE_SIZE -> mapped m' x) /\
  load 4 m' r = Some MAGIC_NUMBER /\
  load 8 m' (r + 8) = Some s /\
  (forall j, 1 <= j -> (j + 1) * s < PAGE_SIZE ->
             load 8 m' (r + j * s) = Some (r + (j + 1) * s)) /\
  load 8 m' (r + PAGE_SIZE - s) = Some NULL.

Inductive chain (m : memory) : Z -> list Z -> Prop :=
| chain_nil : chain m NULL []
| chain_cons b nxt l :
    b <> NULL -> load 8 m b = Some nxt -> chain m nxt l -> chain m b (b :: l).

(** [n] consecutive blocks of width [s], the first at [b]. *)
Fixpoint blocks_from (b s : Z) (n : nat) : list Z :=
  match n with
  | O => []
  | S n' => b :: blocks_from (b + s) s n'
  end.

(** The blocks of the page at [r] carved for class [s]:
    [r + s], [r + 2s], ..., [r + PAGE_SIZE - s]. *)
Definition page_blocks (r s : Z) : list Z :=
  blocks_from (r + s) s (Z.to_nat (blocksPerPage s)).

(** ** The allocator's invariant *)

Definition page_of (b : Z) : Z := b - b mod PAGE_SIZE.

Definition page_mapped (m : memory) (pg : Z) : Prop :=
  forall x, pg <= x < pg + PAGE_SIZE -> mapped m x.

(** The page at [pg] carries the header (sentinel, [s]). *)
Definition header_ok (m : memory) (pg s : Z) : Prop :=
  load 4 m pg = Some MAGIC_NUMBER /\ load 8 m (pg + 8) = Some s.

(** [b] is the start of a block of class [s]: it lies in a mapped page whose
    header records [s], at an offset that is a positive multiple of [s]. *)
Definition is_block (m : memory) (s b : Z) : Prop :=
  0 < b < 2 ^ 63 /\
  page_mapped m (page_of b) /\
  header_ok m (page_of b) s /\
  s <= b mod PAGE_SIZE /\
  (b mod PAGE_SIZE) mod s = 0.

(** A pointer in the lower half of the address space whose page carries
    the header (sentinel, [s]). *)
Definition in_page_of_class (m : memory) (s p : Z) : Prop :=
  0 < p < 2 ^ 63 /\ header_ok m (page_of p) s.

Definition head_of (st : state) (s : Z) : Z :=
  nth (Z.to_nat (class_index s)) (freelists st) NULL.

(** The list headed by [head] is a null-terminated chain of distinct blocks
    of class [s]. *)
Definition wf_list (m : memory) (s head : Z) : Prop :=
  exists l, chain m head l /\ NoDup l /\ Forall (is_block m s) l.

Definition wf (st : state) : Prop :=
  List.length (freelists st) = 8%nat /\
  forall s, is_class s -> wf_list (mem st) s (head_of st s).

(** The eight bytes of the link at [p] are mapped. *)
Definition link_mapped (m : memory) (p : Z) : Prop :=
  forall i, 0 <= i < 8 -> mapped m (p + i).

(** The head of the list of class [s] is null, or a pointer whose link can
    be read and whose page carries the header (sentinel, [s]). *)
Definition head_sound (st : state) (s : Z) : Prop :=
  List.length (freelists st) = 8%nat /\
  (head_of st s = NULL \/
   (in_page_of_class (mem st) s (head_of st s) /\ link_mapped (mem st) (head_of st s))).

(** [m'] keeps every byte that is mapped in [m]. *)
Definition extends (m m' : memory) : Prop :=
  forall x, mapped m x -> m' x = m x.

(** ** Runs of the three public operations *)

Inductive op : Type :=
| OpMalloc (n : Z) (os : os_reply)
| OpFree (p : Z)
| OpUsable (p : Z).

Definition run_op (o : op) : state -> outcome unit :=
  match o with
  | OpMalloc n os => _ <- xxmalloc n os ;; ret tt
  | OpFree p => xxfree p
  | OpUsable p => _ <- xxmalloc_usable_size p ;; ret tt
  end.

(** A run in which every operation returns, and meets [P] in the state in
    which it is called. *)
Inductive steps (P : op -> state -> Prop) : state -> list op -> state -> Prop :=
| steps_nil st : steps P st [] st
| steps_cons st o st1 ops st2 :
    P o st -> run_op o st = Ret tt st1 -> steps P st1 ops st2 ->
    steps P st (o :: ops) st2.

(** The operating system keeps its contract in the call [o]. *)
Definition os_ok (o : op) (st : state) : Prop :=
  match o with
  | OpMalloc n os =>
      0 <= n < 2 ^ 64 /\
      mmap_ok (mem st)
              (if n >? 2048 then ROUND_UP n PAGE_SIZE else PAGE_SIZE)
              (mmap_ret os) = true
  | _ => True
  end.

(** The eight bytes of the link that [xxfree q] may write lie inside one
    page and past its header.  Every block start is such a pointer. *)
Definition link_clear_of_headers (q : Z) : Prop :=
  16 <= q mod PAGE_SIZE <= PAGE_SIZE - 8.


(** The slot of [freelists] that [xxfree q] pushes on, if it pushes. *)
Definition free_index (st : state) (q : Z) : option Z :=
  if q =? NULL then None
  else
    match xxmalloc_usable_size q st with
    | Ret size _ => if size =? wrap64 (-1) then None else roundPowersList (to_int size)
    | _ => None
    end.



(** The use of the allocator that the invariant [wf] supports: the operating
    system keeps its contract, and [xxfree] is given the null pointer or the
    start of a block that is not on its list. *)
Definition valid_op (o : op) (st : state) : Prop :=
  os_ok o st /\
  match o with
  | OpFree p =>
      p = NULL \/
      exists s, is_class s /\ is_block (mem st) s p /\
                forall l, chain (mem st) (head_of st s) l -> ~ In p l
  | _ => True
  end.

(** ** Runs of allocations of one class *)

(** [k] consecutive calls [xxmalloc n], the i-th served by the i-th reply of
    the operating system; the pointers are returned in the order of the
    calls. *)
Fixpoint xxmalloc_many (n : Z) (oss : list os_reply) : state -> outcome (list Z) :=
  match oss with
  | [] => ret []
  | os :: rest =>
      p <- xxmalloc n os ;;
      ps <- xxmalloc_many n rest ;;
      ret (p :: ps)
  end.

(** A page-carve event is the [mmap] call of [allocate_blocks], the only
    one that asks for a shared mapping. *)
Definition is_carve (e : event) : bool :=
  match e with
  | EvMmap _ MAP_ANONYMOUS_SHARED _ => true
  | _ => false
  end.

Definition carve_events (tr : list event) : Z :=
  Z.of_nat (List.length (filter is_carve tr)).

(** The operating system keeps its contract, and finds memory, in every
    call of the run. *)
Fixpoint os_serves (n : Z) (oss : list os_reply) (st : state) : Prop :=
  match oss with
  | [] => True
  | os :: rest =>
      mmap_ok (mem st) PAGE_SIZE (mmap_ret os) = true /\
      mmap_ret os <> MAP_FAILED /\
      match xxmalloc n os st with
      | Ret _ st' => os_serves n rest st'
      | _ => True
      end
  end.

Definition ceil_div (a b : Z) : Z := (a + b - 1) / b.

(** No two of the blocks of width [s] at the addresses [ps] overlap. *)
Definition pairwise_disjoint (s : Z) (ps : list Z) : Prop :=
  NoDup ps /\
  forall p q, In p ps -> In q ps -> p <> q -> p + s <= q \/ q + s <= p.

(** ** Page headers along a run *)



(** ** Concrete states for the examples *)

(** Two adjacent page addresses for the examples; [mmap] hands out
    addresses from the top down. *)
Definition page_A : Z := 139637976731648.   (* 0x7f0000001000 *)

Definition page_B : Z := 139637976727552.   (* 0x7f0000000000 *)

Definition page_C : Z := 139637976723456.   (* 0x7efffffff000 *)

Definition reply (r : Z) : os_reply := mkReply r 0.

(** One page carved for class 2048; its only block, at [page_A + 2048], is
    in use. *)
Definition one_page : state :=
  after (xxmalloc 2048 (reply page_A) (init_state empty_memory)).

(** The state after [xxfree] was given a pointer into the header of the
    carved page. *)
Definition tag_overwritten : state := after (xxfree (page_A + 1) one_page).

(** A page for class 2048 at [page_A] with its block in use, and below it a
    page for class 1024 at [page_B] with its three blocks in use. *)
Definition two_pages_run : outcome (list Z) :=
  (p <- xxmalloc 2048 (reply page_A) ;;
   q1 <- xxmalloc 1024 (reply page_B) ;;
   q2 <- xxmalloc 1024 (reply page_C) ;;
   q3 <- xxmalloc 1024 (reply page_C) ;;
   ret [p; q1; q2; q3]) (init_state empty_memory).

Definition two_pages : state := after two_pages_run.

(** The last byte of the block at [page_B + 3072]: a pointer inside an
    allocated object, seven bytes before the header of the page at
    [page_A]. *)
Definition interior_pointer : Z := page_B + 3072 + 1023.


(** [two_pages] after the block at [page_A + 2048] was freed and then
    [xxfree] was given [interior_pointer]. *)
Definition neighbour_overwritten_after_free : state :=
  after (xxfree interior_pointer (after (xxfree (page_A + 2048) two_pages))).

(** A page of the process that [allocate_blocks] never touched and whose
    first word happens to hold the sentinel value. *)
Definition foreign_memory : memory :=
  write_bytes (map_zero empty_memory page_A PAGE_SIZE) page_A (le_split 4 MAGIC_NUMBER).

(** ** Free lists as stacks *)

(** The free list of class [s] holds the blocks [l], head first. *)
Definition list_of (st : state) (s : Z) (l : list Z) : Prop :=
  chain (mem st) (head_of st s) l.

(** The calls [xxfree p] for the pointers of [ps], in this order. *)
Fixpoint xxfree_many (ps : list Z) : state -> outcome unit :=
  match ps with
  | [] => ret tt
  | p :: rest => xxfree p ;;; xxfree_many rest
  end.

(** The number of bytes that [xxmalloc n] hands out. *)
Definition extent (n : Z) : Z :=
  if n >? 2048 then ROUND_UP n PAGE_SIZE else roundPowers n.

(** ** Blocks in use *)

(** The block at [p] of class [s] is in use: it is a block, and it is not
    on the free list of its class. *)
Definition live (st : state) (s p : Z) : Prop :=
  is_block (mem st) s p /\ forall l, list_of st s l -> ~ In p l.

(** A valid operation other than the free of [p]. *)
Definition keeps_live (p : Z) (o : op) (st : state) : Prop :=
  valid_op o st /\ o <> OpFree p.

(** ** The trace of a failed oversized request *)

(** What [xxmalloc] adds to the trace when the mapping of an oversized
    region fails and [write] answers [w]. *)
Definition oversized_failure_events (len w : Z) : list event :=
  EvMmap len MAP_ANONYMOUS_PRIVATE MAP_FAILED
  :: EvWrite STDERR_FILENO ("mmap failed! Giving up." ++ newline) 24
  :: (if w =? 24 then []
      else [EvWrite STDERR_FILENO ("logging failed" ++ newline) 16]).

(** ** Blocks and chains, decided by computation *)

(** [is_block], decided by computation. *)
Definition is_block_b (m : memory) (s b : Z) : bool :=
  (0 <? b) && (b <? 2 ^ 63) &&
  range_mapped m (page_of b) (Z.to_nat PAGE_SIZE) &&
  match load 4 m (page_of b) with Some v => v =? MAGIC_NUMBER | None => false end &&
  match load 8 m (page_of b + 8) with Some v => v =? s | None => false end &&
  (s <=? b mod PAGE_SIZE) && ((b mod PAGE_SIZE) mod s =? 0).

(** [chain], decided by computation. *)
Fixpoint chain_b (m : memory) (h : Z) (l : list Z) : bool :=
  match l with
  | [] => h =? NULL
  | b :: l' =>
      (h =? b) && negb (b =? NULL) &&
      match load 8 m b with
      | Some nxt => chain_b m nxt l'
      | None => false
      end
  end.

(** ** A further concrete state *)

(** Three allocations of class 1024 from the start of the process: the
    page at [page_A] is carved and its three blocks are in use. *)
Definition three_blocks : state :=
  after (xxmalloc_many 1024 [reply page_A; reply page_B; reply page_B]
                       (init_state empty_memory)).

(** ** The program's own stores *)

(** What the program does with the allocator and with its memory: a call
    of one of the three operations, or a store of the bytes [bs] at the
    address [a]. *)
Inductive action : Type :=
| Call (o : op)
| Store (a : Z) (bs : list byte).

Definition run_action (act : action) : state -> outcome unit :=
  match act with
  | Call o => run_op o
  | Store a bs =>
      fun st =>
        if range_mapped (mem st) a (List.length bs)
        then Ret tt (mkState (freelists st) (write_bytes (mem st) a bs) (trace st))
        else Crash
  end.

(** A run of actions in which every action returns, and meets [P] in the
    state in which it is made. *)
Inductive run (P : action -> state -> Prop) : state -> list action -> state -> Prop :=
| run_nil st : run P st [] st
| run_cons st act st1 acts st2 :
    P act st -> run_action act st = Ret tt st1 -> run P st1 acts st2 ->
    run P st (act :: acts) st2.

(** The stores of a run, applied in order to the memory [m]. *)
Fixpoint program_stores (acts : list action) (m : memory) : memory :=
  match acts with
  | [] => m
  | Call _ :: rest => program_stores rest m
  | Store a bs :: rest => program_stores rest (write_bytes m a bs)
  end.

(** The store of [n] bytes at [a] touches neither the link of a block on a
    free list nor the header of the page of such a block. *)
Definition clear_of_free_lists (a n : Z) (st : state) : Prop :=
  forall s l b,
    is_class s -> list_of st s l -> In b l ->
    (a + n <= page_of b \/ page_of b + 16 <= a) /\ (a + n <= b \/ b + 8 <= a).

(** The use of the allocator by a program that holds the oversized region
    of [len] bytes at [r]: valid operations, none of them the free of a
    pointer into the region; stores into the region; stores into a block in
    use; and other stores that leave the free lists alone. *)
Definition region_use (r len : Z) (act : action) (st : state) : Prop :=
  match act with
  | Call o => valid_op o st /\ forall q, o = OpFree q -> q < r \/ r + len <= q
  | Store a bs =>
      let n := Z.of_nat (List.length bs) in
      (r <= a /\ a + n <= r + len) \/
      (exists s p, is_class s /\ live st s p /\ p <= a /\ a + n <= p + s) \/
      clear_of_free_lists a n st
  end.

(** What such a use keeps: the invariant, the region is mapped, and no
    block on a free list starts inside it. *)
Definition region_kept (r len : Z) (st : state) : Prop :=
  wf st /\
  (forall x, r <= x < r + len -> mapped (mem st) x) /\
  (forall s l b, is_class s -> list_of st s l -> In b l -> b < r \/ r + len <= b).

(** ** An oversized region that holds the program's data *)

(** The oversized region of two pages at [page_B], as [xxmalloc 5000] maps
    it at the start of the process. *)
Definition region_mapped : state :=
  after (xxmalloc 5000 (reply page_B) (init_state empty_memory)).

(** What the program stores at the start of the region: a word whose value
    is that of the sentinel, and the number 64 eight bytes further. *)
Definition sentinel_stores : list action :=
  [Store page_B (le_split 4 MAGIC_NUMBER); Store (page_B + 8) (le_split 8 64)].

(** [region_mapped] after the program has made these stores. *)
Definition region_with_sentinel : state :=
  after ((run_action (Store page_B (le_split 4 MAGIC_NUMBER)) ;;;
          run_action (Store (page_B + 8) (le_split 8 64))) region_mapped).

(** ** The defined behaviour of [xxfree] *)

(** [xxfree ptr] finds no sentinel, or finds the sentinel and a recorded
    size of [(size_t) -1]: it reports the pointer and returns. *)
Definition xxfree_reports (ptr : Z) (st : state) : Prop :=
  ptr <> NULL /\
  exists tag,
    load 4 (mem st) (page_start ptr) = Some tag /\
    (to_int tag <> MAGIC_NUMBER \/
     load 8 (mem st) (ptr_add (page_start ptr) 8) = Some (wrap64 (-1))).

(** [xxfree ptr] finds the sentinel and a recorded size for which
    [roundPowersList] answers [index], a slot of [freelists], and the eight
    bytes of the link at [ptr] are mapped. *)
Definition xxfree_links (ptr : Z) (st : state) (index : Z) : Prop :=
  ptr <> NULL /\
  exists tag size,
    load 4 (mem st) (page_start ptr) = Some tag /\
    to_int tag = MAGIC_NUMBER /\
    load 8 (mem st) (ptr_add (page_start ptr) 8) = Some size /\
    size <> wrap64 (-1) /\
    roundPowersList (to_int size) = Some index /\
    in_bounds index = true /\
    link_mapped (mem st) ptr.

(** The cases in which the behaviour of [xxfree ptr] is defined: every
    byte it reads or writes is mapped, [__builtin_ctzl] is not called on 0,
    and the index it computes is inside [freelists]. *)
Definition xxfree_defined (ptr : Z) (st : state) : Prop :=
  ptr = NULL \/ xxfree_reports ptr st \/ exists index, xxfree_links ptr st index.

(** * Part II: lemmas *)

(** ** Machine arithmetic *)

Lemma wrap64_small z : 0 <= z < 2 ^ 64 -> wrap64 z = z.
Proof. intros H. unfold wrap64. apply Z.mod_small. exact H. Qed.

Lemma ptr_add_small p o : 0 <= p + o < 2 ^ 64 -> ptr_add p o = p + o.
Proof. intros H. unfold ptr_add. apply wrap64_small. exact H. Qed.

Lemma to_int_small z : 0 <= z < 2 ^ 31 -> to_int z = z.
Proof.
  intros H. unfold to_int, signed.
  rewrite Z.mod_small by lia.
  change (2 ^ (32 - 1)) with (2 ^ 31).
  destruct (Z.ltb_spec z (2 ^ 31)); lia.
Qed.

Lemma to_intptr_small z : 0 <= z < 2 ^ 63 -> to_intptr z = z.
Proof.
  intros H. unfold to_intptr, signed.
  rewrite Z.mod_small by lia.
  change (2 ^ (64 - 1)) with (2 ^ 63).
  destruct (Z.ltb_spec z (2 ^ 63)); lia.
Qed.

(** For an address in the lower half of the address space, [page_start]
    is the base of the enclosing page. *)
Lemma page_start_low p :
  0 <= p < 2 ^ 63 -> page_start p = p - p mod PAGE_SIZE.
Proof.
  intros H. unfold page_start.
  rewrite to_intptr_small by exact H.
  rewrite Z.rem_mod_nonneg by (unfold PAGE_SIZE; lia).
  apply wrap64_small.
  unfold PAGE_SIZE.
  pose proof (Z.mod_pos_bound p 4096 ltac:(lia)).
  pose proof (Z.mod_le p 4096 ltac:(lia) ltac:(lia)).
  lia.
Qed.

(** ** Memory: loads, stores and their frame properties *)

Lemma range_mapped_true m a n :
  range_mapped m a n = true <->
  (forall i, 0 <= i < Z.of_nat n -> mapped m (a + i)).
Proof.
  unfold range_mapped, mapped. rewrite forallb_forall. split.
  - intros H i Hi.
    specialize (H (Z.to_nat i)).
    rewrite Z2Nat.id in H by lia.
    destruct (m (a + i)); [discriminate|].
    assert (false = true); [|discriminate].
    apply H. apply in_seq. lia.
  - intros H k Hk. apply in_seq in Hk.
    specialize (H (Z.of_nat k) ltac:(lia)).
    destruct (m (a + Z.of_nat k)); [reflexivity|congruence].
Qed.

Lemma range_mapped_ext m m' a n :
  (forall i, 0 <= i < Z.of_nat n -> m' (a + i) = m (a + i)) ->
  range_mapped m' a n = range_mapped m a n.
Proof.
  intros H.
  destruct (range_mapped m a n) eqn:E.
  - apply range_mapped_true. intros i Hi. unfold mapped. rewrite H by exact Hi.
    apply range_mapped_true with (i := i) in E; assumption.
  - destruct (range_mapped m' a n) eqn:E'; [|reflexivity].
    rewrite <- E. symmetry. apply range_mapped_true. intros i Hi.
    unfold mapped. rewrite <- H by exact Hi.
    apply range_mapped_true with (i := i) in E'; assumption.
Qed.

Lemma read_bytes_ext m m' a n :
  (forall i, 0 <= i < Z.of_nat n -> m' (a + i) = m (a + i)) ->
  read_bytes m' a n = read_bytes m a n.
Proof.
  intros H. unfold read_bytes. apply map_ext_in.
  intros k Hk. apply in_seq in Hk. rewrite H by lia. reflexivity.
Qed.

Lemma load_ext n m m' a :
  (forall i, 0 <= i < Z.of_nat n -> m' (a + i) = m (a + i)) ->
  load n m' a = load n m a.
Proof.
  intros H. unfold load.
  rewrite (range_mapped_ext m m') by exact H.
  rewrite (read_bytes_ext m m') by exact H.
  reflexivity.
Qed.

Lemma load_mapped n m a v i :
  load n m a = Some v -> 0 <= i < Z.of_nat n -> mapped m (a + i).
Proof.
  unfold load. destruct (range_mapped m a n) eqn:E; [|discriminate].
  intros _ Hi. apply range_mapped_true with (i := i) in E; assumption.
Qed.

Lemma nth_map_seq {A : Type} (f : nat -> A) (n k : nat) (d : A) :
  (k < n)%nat -> nth k (map f (seq 0 n)) d = f k.
Proof.
  intros Hk.
  rewrite (nth_indep _ d (f 0%nat)) by (rewrite length_map, length_seq; exact Hk).
  rewrite map_nth. rewrite seq_nth by exact Hk. reflexivity.
Qed.

Lemma read_write_same m a bs :
  read_bytes (write_bytes m a bs) a (List.length bs) = bs.
Proof.
  unfold read_bytes.
  apply nth_ext with (d := Byte.x00) (d' := Byte.x00).
  - rewrite length_map, length_seq. reflexivity.
  - intros k Hk. rewrite length_map, length_seq in Hk.
    rewrite nth_map_seq by exact Hk.
    unfold write_bytes.
    destruct (Z.leb_spec a (a + Z.of_nat k)); [|lia].
    destruct (Z.ltb_spec (a + Z.of_nat k) (a + Z.of_nat (List.length bs))); [|lia].
    simpl. f_equal. lia.
Qed.

Lemma write_bytes_outside m a bs x :
  x < a \/ a + Z.of_nat (List.length bs) <= x ->
  write_bytes m a bs x = m x.
Proof.
  intros H. unfold write_bytes.
  destruct (Z.leb_spec a x); destruct (Z.ltb_spec x (a + Z.of_nat (List.length bs)));
    simpl; try reflexivity; lia.
Qed.

Lemma write_bytes_mapped m a bs x :
  (forall i, 0 <= i < Z.of_nat (List.length bs) -> mapped m (a + i)) ->
  (mapped (write_bytes m a bs) x <-> mapped m x).
Proof.
  intros H. unfold mapped, write_bytes.
  destruct (Z.leb_spec a x); destruct (Z.ltb_spec x (a + Z.of_nat (List.length bs)));
    simpl; try tauto.
  split; intros _; [|discriminate].
  specialize (H (x - a) ltac:(lia)). unfold mapped in H.
  replace (a + (x - a)) with x in H by lia. exact H.
Qed.

Lemma store_inv n m a v m' :
  store n m a v = Some m' ->
  range_mapped m a n = true /\ m' = write_bytes m a (le_split n v).
Proof.
  unfold store. destruct (range_mapped m a n); [|discriminate].
  intros H. injection H as <-. split; reflexivity.
Qed.

Lemma store_outside n m a v m' x :
  store n m a v = Some m' ->
  x < a \/ a + Z.of_nat n <= x ->
  m' x = m x.
Proof.
  intros H Hx. apply store_inv in H. destruct H as [_ ->].
  apply write_bytes_outside. rewrite length_le_split. exact Hx.
Qed.

Lemma store_mapped n m a v m' x :
  store n m a v = Some m' -> (mapped m' x <-> mapped m x).
Proof.
  intros H. apply store_inv in H. destruct H as [R ->].
  apply write_bytes_mapped. rewrite length_le_split.
  apply range_mapped_true. exact R.
Qed.

Lemma store_load_same n m a v m' :
  store n m a v = Some m' ->
  load n m' a = Some (v mod 2 ^ (Z.of_nat n * 8)).
Proof.
  intros H. apply store_inv in H. destruct H as [R ->].
  unfold load.
  assert (range_mapped (write_bytes m a (le_split n v)) a n = true) as ->.
  { apply range_mapped_true. intros i Hi.
    apply write_bytes_mapped.
    - rewrite length_le_split. apply range_mapped_true. exact R.
    - apply range_mapped_true with (i := i) in R; assumption. }
  f_equal.
  rewrite <- (length_le_split n v) at 2.
  rewrite read_write_same. apply le_combine_split.
Qed.

Lemma store_load_other n m a v m' k b :
  store n m a v = Some m' ->
  b + Z.of_nat k <= a \/ a + Z.of_nat n <= b ->
  load k m' b = load k m b.
Proof.
  intros H Hd. apply load_ext. intros i Hi.
  eapply store_outside; [exact H|lia].
Qed.

Lemma store_succeeds n m a v :
  (forall i, 0 <= i < Z.of_nat n -> mapped m (a + i)) ->
  store n m a v = Some (write_bytes m a (le_split n v)).
Proof.
  intros H. unfold store.
  apply range_mapped_true in H. rewrite H. reflexivity.
Qed.

Lemma map_zero_inside m a len x :
  a <= x < a + len -> map_zero m a len x = Some Byte.x00.
Proof.
  intros H. unfold map_zero.
  destruct (Z.leb_spec a x); destruct (Z.ltb_spec x (a + len)); simpl;
    try reflexivity; lia.
Qed.

Lemma map_zero_outside m a len x :
  x < a \/ a + len <= x -> map_zero m a len x = m x.
Proof.
  intros H. unfold map_zero.
  destruct (Z.leb_spec a x); destruct (Z.ltb_spec x (a + len)); simpl;
    try reflexivity; lia.
Qed.

Lemma load_map_zero n m a len b :
  a <= b -> b + Z.of_nat n <= a + len ->
  load n (map_zero m a len) b = Some 0.
Proof.
  intros H1 H2. unfold load.
  assert (range_mapped (map_zero m a len) b n = true) as ->.
  { apply range_mapped_true. intros i Hi. unfold mapped.
    rewrite map_zero_inside by lia. discriminate. }
  f_equal.
  assert (read_bytes (map_zero m a len) b n = repeat Byte.x00 n) as ->.
  { unfold read_bytes.
    transitivity (map (fun _ : nat => Byte.x00) (seq 0 n)).
    - apply map_ext_in. intros k Hk. apply in_seq in Hk.
      rewrite map_zero_inside by lia. reflexivity.
    - rewrite map_const, length_seq. reflexivity. }
  apply le_combine_0.
Qed.

(** ** Size classes *)

Lemma class_facts s :
  is_class s ->
  16 <= s <= 2048 /\ 1 <= blocksPerPage s <= 255 /\
  s + blocksPerPage s * s = PAGE_SIZE /\ wrap64 s = s.
Proof. intros H. each_class H; vm_compute; intuition congruence. Qed.

Lemma class_index_bounds s : is_class s -> in_bounds (class_index s) = true.
Proof. intros H. each_class H; reflexivity. Qed.

Lemma roundPowersList_class s :
  is_class s -> roundPowersList (to_int s) = Some (class_index s).
Proof. intros H. each_class H; reflexivity. Qed.

Lemma roundPowers_class n : n <= 2048 -> is_class (roundPowers n).
Proof.
  intros H. unfold roundPowers, is_class, size_classes.
  repeat match goal with
         | |- context [?a <=? ?b] => destruct (Z.leb_spec a b)
         end; simpl; try tauto; lia.
Qed.

Lemma roundPowers_smallest n : n <= 2048 -> smallest_class_ge n (roundPowers n).
Proof.
  intros Hn. split; [apply roundPowers_class; exact Hn|].
  unfold roundPowers.
  repeat match goal with
         | |- context [?a <=? ?b] => destruct (Z.leb_spec a b)
         end; (split; [lia|]); intros t Ht Hle; each_class Ht; lia.
Qed.

(** ** The operating system's contract *)

Lemma range_free_true m a n :
  range_free m a n = true <->
  (forall i, 0 <= i < Z.of_nat n -> m (a + i) = None).
Proof.
  unfold range_free. rewrite forallb_forall. split.
  - intros H i Hi.
    specialize (H (Z.to_nat i)).
    rewrite Z2Nat.id in H by lia.
    destruct (m (a + i)); [|reflexivity].
    assert (false = true); [|discriminate].
    apply H. apply in_seq. lia.
  - intros H k Hk. apply in_seq in Hk.
    rewrite (H (Z.of_nat k)) by lia. reflexivity.
Qed.

Lemma mmap_ok_fresh m len r :
  mmap_ok m len r = true -> r <> MAP_FAILED ->
  0 < len /\ 0 < r /\ r mod PAGE_SIZE = 0 /\ r + len <= 2 ^ 63 /\
  (forall x, r <= x < r + len -> m x = None).
Proof.
  unfold mmap_ok. intros H Hr.
  apply orb_true_iff in H. destruct H as [H | H].
  - apply Z.eqb_eq in H. contradiction.
  - repeat (apply andb_true_iff in H; destruct H as [H ?]).
    apply Z.ltb_lt in H. 
    repeat match goal with
           | X : (_ <? _) = true |- _ => apply Z.ltb_lt in X
           | X : (_ <=? _) = true |- _ => apply Z.leb_le in X
           | X : (_ =? _) = true |- _ => apply Z.eqb_eq in X
           end.
    repeat split; try assumption.
    intros x Hx.
    match goal with X : range_free _ _ _ = true |- _ => rename X into F end.
    rewrite range_free_true in F.
    specialize (F (x - r)). rewrite Z2Nat.id in F by lia.
    replace (r + (x - r)) with x in F by lia. apply F. lia.
Qed.

(** ** Stepping through the state monad *)

Lemma bind_Ret {A B : Type} (c : state -> outcome A) (k : A -> state -> outcome B)
      st a st' :
  c st = Ret a st' -> bind c k st = k a st'.
Proof. intros H. unfold bind. rewrite H. reflexivity. Qed.

Lemma store_st_Ret n a v st m' :
  store n (mem st) a v = Some m' ->
  store_st n a v st = Ret tt (mkState (freelists st) m' (trace st)).
Proof. intros H. unfold store_st. rewrite H. reflexivity. Qed.

Lemma load_st_Ret n a v st :
  load n (mem st) a = Some v -> load_st n a st = Ret v st.
Proof. intros H. unfold load_st. rewrite H. reflexivity. Qed.

(** ** The page carver *)

Lemma carve_loop_done fuel r s off st :
  PAGE_SIZE <= off -> carve_loop fuel r s off st = Ret off st.
Proof.
  intros H. destruct fuel; simpl;
    destruct (Z.ltb_spec off PAGE_SIZE); try lia; reflexivity.
Qed.

Lemma carve_loop_step fuel r s off st :
  off < PAGE_SIZE ->
  carve_loop (S fuel) r s off st =
  (store_st 8 (ptr_add r off) (ptr_add r (wrap64 (off + s))) ;;;
   carve_loop fuel r s (wrap64 (off + s))) st.
Proof.
  intros H. simpl.
  destruct (Z.ltb_spec off PAGE_SIZE); [reflexivity|lia].
Qed.

Arguments carve_loop : simpl never.

Lemma carve_fuel_enough s : is_class s -> (Z.to_nat (blocksPerPage s) <= carve_fuel)%nat.
Proof.
  intros H. apply Nat2Z.inj_le. unfold carve_fuel.
  rewrite !Z2Nat.id by (each_class H; vm_compute; congruence).
  each_class H; vm_compute; congruence.
Qed.

Opaque carve_fuel.

Lemma carve_loop_spec r s :
  8 <= s -> 0 < r -> r + PAGE_SIZE < 2 ^ 64 ->
  forall (n fuel : nat) off st,
    (n <= fuel)%nat -> 0 <= off ->
    off + Z.of_nat n * s = PAGE_SIZE ->
    (forall x, r + off <= x < r + PAGE_SIZE -> mapped (mem st) x) ->
    exists m',
      carve_loop fuel r s off st
      = Ret PAGE_SIZE (mkState (freelists st) m' (trace st)) /\
      (forall x, x < r + off \/ r + PAGE_SIZE <= x -> m' x = mem st x) /\
      (forall x, mapped m' x <-> mapped (mem st) x) /\
      (forall j, 0 <= j < Z.of_nat n ->
                 load 8 m' (r + off + j * s) = Some (r + off + (j + 1) * s)).
Proof.
  intros Hs Hr Hr'. unfold PAGE_SIZE in *.
  induction n as [|n IH]; intros fuel off st Hfuel Hoff Hsum Hmap.
  - exists (mem st). assert (off = 4096) as -> by lia.
    rewrite carve_loop_done by (unfold PAGE_SIZE; lia).
    destruct st; simpl. repeat split; try tauto. intros j Hj; lia.
  - destruct fuel as [|fuel]; [lia|].
    assert (off + s <= 4096) by nia.
    rewrite carve_loop_step by (unfold PAGE_SIZE; lia).
    rewrite (wrap64_small (off + s)) by lia.
    rewrite !ptr_add_small by lia.
    pose proof (store_succeeds 8 (mem st) (r + off) (r + (off + s))) as St.
    specialize (St ltac:(intros i Hi; apply Hmap; lia)).
    erewrite bind_Ret by (apply store_st_Ret; exact St).
    set (m1 := write_bytes (mem st) (r + off) (le_split 8 (r + (off + s)))) in *.
    destruct (IH fuel (off + s) (mkState (freelists st) m1 (trace st)))
      as (m' & Hrun & Hout & Hmapd & Hlinks); try lia.
    { simpl. intros x Hx. apply (store_mapped _ _ _ _ _ x St). apply Hmap. lia. }
    simpl in *. exists m'. split; [exact Hrun|]. split; [|split].
    + intros x Hx. rewrite Hout by lia.
      eapply store_outside; [exact St|]. simpl. lia.
    + intros x. rewrite Hmapd. apply (store_mapped _ _ _ _ _ x St).
    + intros j Hj. destruct (Z.eq_dec j 0) as [-> | Hj0].
      * replace (r + off + 0 * s) with (r + off) by lia.
        replace (r + off + (0 + 1) * s) with (r + (off + s)) by lia.
        rewrite (load_ext 8 m1 m').
        -- rewrite (store_load_same _ _ _ _ _ St).
           f_equal. apply Z.mod_small. simpl. lia.
        -- intros i Hi. apply Hout. simpl in Hi. lia.
      * specialize (Hlinks (j - 1) ltac:(lia)).
        replace (r + (off + s) + (j - 1) * s) with (r + off + j * s) in Hlinks by lia.
        replace (r + (off + s) + (j - 1 + 1) * s) with (r + off + (j + 1) * s) in Hlinks by lia.
        exact Hlinks.
Qed.

Lemma allocate_blocks_spec s os st :
  is_class s ->
  mmap_ok (mem st) PAGE_SIZE (mmap_ret os) = true ->
  mmap_ret os <> MAP_FAILED ->
  exists m',
    allocate_blocks s os st
    = Ret (mmap_ret os + s)
          (mkState (freelists st) m'
                   (trace st ++ [EvMmap PAGE_SIZE MAP_ANONYMOUS_SHARED (mmap_ret os)])) /\
    carved (mem st) m' (mmap_ret os) s.
Proof.
  intros Hc Hok Hne.
  destruct (mmap_ok_fresh _ _ _ Hok Hne) as (_ & Hr & _ & Hhi & _).
  destruct (class_facts s Hc) as (Hs & Hb & Hsum & _).
  set (r := mmap_ret os) in *. unfold PAGE_SIZE in *.
  assert (2 ^ 63 < 2 ^ 64) as Hpow by reflexivity.
  unfold allocate_blocks.
  unfold bind at 1. unfold mmap. fold r.
  assert ((r =? MAP_FAILED) = false) as Efail by (apply Z.eqb_neq; exact Hne).
  rewrite !Efail.
  set (m1 := map_zero (mem st) r PAGE_SIZE).
  set (tr := (trace st ++ [EvMmap PAGE_SIZE MAP_ANONYMOUS_SHARED r])%list).
  assert (forall x, r <= x < r + 4096 -> mapped m1 x) as Hm1.
  { intros x Hx. unfold mapped, m1. rewrite map_zero_inside by (unfold PAGE_SIZE; lia).
    discriminate. }
  (* the header *)
  pose proof (store_succeeds 4 m1 r MAGIC_NUMBER) as St2.
  specialize (St2 ltac:(intros i Hi; apply Hm1; simpl in Hi; lia)).
  set (m2 := write_bytes m1 r (le_split 4 MAGIC_NUMBER)) in *.
  erewrite bind_Ret by (apply store_st_Ret; exact St2).
  rewrite (ptr_add_small r 8) by lia.
  pose proof (store_succeeds 8 m2 (r + 8) s) as St3.
  specialize (St3 ltac:(intros i Hi; apply (store_mapped _ _ _ _ _ _ St2);
                        apply Hm1; simpl in Hi; lia)).
  set (m3 := write_bytes m2 (r + 8) (le_split 8 s)) in *.
  erewrite bind_Ret by (apply store_st_Ret; exact St3).
  (* the loop *)
  destruct (carve_loop_spec r s ltac:(lia) Hr ltac:(unfold PAGE_SIZE; lia)
              (Z.to_nat (blocksPerPage s)) carve_fuel s
              (mkState (freelists st) m3 tr))
    as (m4 & Hrun & Hout4 & Hmap4 & Hlinks).
  { apply carve_fuel_enough. exact Hc. }
  { lia. }
  { rewrite Z2Nat.id by lia. unfold PAGE_SIZE. lia. }
  { simpl. intros x Hx. apply (store_mapped _ _ _ _ _ _ St3).
    apply (store_mapped _ _ _ _ _ _ St2). apply Hm1. unfold PAGE_SIZE in Hx. lia. }
  simpl in Hrun, Hout4, Hmap4. rewrite Z2Nat.id in Hlinks by lia.
  erewrite bind_Ret by exact Hrun.
  unfold PAGE_SIZE in *.
  rewrite (ptr_add_small r 4096) by lia.
  rewrite (ptr_add_small (r + 4096) (- s)) by lia.
  rewrite (ptr_add_small r s) by lia.
  pose proof (store_succeeds 8 m4 (r + 4096 + - s) NULL) as St5.
  specialize (St5 ltac:(intros i Hi; apply Hmap4; apply (store_mapped _ _ _ _ _ _ St3);
                        apply (store_mapped _ _ _ _ _ _ St2); apply Hm1;
                        simpl in Hi; lia)).
  set (m5 := write_bytes m4 (r + 4096 + - s) (le_split 8 NULL)) in *.
  erewrite bind_Ret by (apply store_st_Ret; exact St5).
  simpl. exists m5. split; [reflexivity|].
  (* how the final memory relates to the earlier ones *)
  assert (forall x, x < r + 4096 - s \/ r + 4096 <= x -> m5 x = m4 x) as E54.
  { intros x Hx. apply (store_outside _ _ _ _ _ x St5). simpl. lia. }
  assert (forall x, x < r + s \/ r + 4096 <= x -> m5 x = m3 x) as E53.
  { intros x Hx. rewrite E54 by lia. apply Hout4. lia. }
  assert (forall x, x < r + 8 \/ r + 4096 <= x -> m5 x = m2 x) as E52.
  { intros x Hx. rewrite E53 by lia. apply (store_outside _ _ _ _ _ x St3). simpl. lia. }
  unfold carved, PAGE_SIZE. repeat split.
  - intros x Hx. rewrite E52 by lia.
    rewrite (store_outside _ _ _ _ _ x St2) by (simpl; lia).
    unfold m1. apply map_zero_outside. unfold PAGE_SIZE. lia.
  - intros x Hx. apply (store_mapped _ _ _ _ _ _ St5). apply Hmap4.
    apply (store_mapped _ _ _ _ _ _ St3). apply (store_mapped _ _ _ _ _ _ St2).
    apply Hm1. lia.
  - rewrite (load_ext 4 m2 m5) by (intros i Hi; apply E52; simpl in Hi; lia).
    rewrite (store_load_same _ _ _ _ _ St2). reflexivity.
  - rewrite (load_ext 8 m3 m5) by (intros i Hi; apply E53; simpl in Hi; lia).
    rewrite (store_load_same _ _ _ _ _ St3). f_equal.
    apply Z.mod_small. simpl. lia.
  - intros j Hj1 Hj2.
    assert (j < blocksPerPage s) by nia.
    assert ((j + 1) * s <= blocksPerPage s * s) by nia.
    rewrite (load_ext 8 m4 m5).
    + specialize (Hlinks (j - 1) ltac:(lia)).
      replace (r + s + (j - 1) * s) with (r + j * s) in Hlinks by lia.
      replace (r + s + (j - 1 + 1) * s) with (r + (j + 1) * s) in Hlinks by lia.
      exact Hlinks.
    + intros i Hi. apply E54. simpl in Hi. lia.
  - replace (r + 4096 - s) with (r + 4096 + - s) by lia.
    rewrite (store_load_same _ _ _ _ _ St5). reflexivity.
Qed.

(** ** Free lists as chains of links in memory *)

Lemma blocks_from_In b s n x :
  In x (blocks_from b s n) <-> exists j, 0 <= j < Z.of_nat n /\ x = b + j * s.
Proof.
  revert b. induction n as [|n IH]; intros b; simpl.
  - split; [tauto|]. intros (j & Hj & _). lia.
  - rewrite IH. split.
    + intros [<- | (j & Hj & ->)].
      * exists 0. split; lia.
      * exists (j + 1). split; lia.
    + intros (j & Hj & ->). destruct (Z.eq_dec j 0) as [-> | Hne].
      * left. lia.
      * right. exists (j - 1). split; lia.
Qed.

Lemma blocks_from_length b s n : List.length (blocks_from b s n) = n.
Proof. revert b. induction n; intros b; simpl; congruence. Qed.

Lemma blocks_from_nth b s n k d :
  (k < n)%nat -> nth k (blocks_from b s n) d = b + Z.of_nat k * s.
Proof.
  revert b k. induction n as [|n IH]; intros b k Hk; [lia|].
  destruct k as [|k]; simpl blocks_from; cbn [nth].
  - lia.
  - rewrite IH by lia. lia.
Qed.

Lemma blocks_from_NoDup b s n : 0 < s -> NoDup (blocks_from b s n).
Proof.
  intros Hs. revert b. induction n as [|n IH]; intros b; simpl; constructor.
  - rewrite blocks_from_In. intros (j & Hj & E). nia.
  - apply IH.
Qed.

Lemma chain_blocks m s :
  0 < s ->
  forall (n : nat) b,
    0 < b ->
    (forall j, 0 <= j < Z.of_nat n ->
               load 8 m (b + j * s) = Some (b + (j + 1) * s)) ->
    load 8 m (b + Z.of_nat n * s) = Some NULL ->
    chain m b (blocks_from b s (S n)).
Proof.
  intros Hs. induction n as [|n IH]; intros b Hb Hlinks Hlast.
  - simpl. apply chain_cons with (nxt := NULL).
    + unfold NULL. lia.
    + replace (b + Z.of_nat 0 * s) with b in Hlast by lia. exact Hlast.
    + constructor.
  - change (blocks_from b s (S (S n))) with (b :: blocks_from (b + s) s (S n)).
    apply chain_cons with (nxt := b + s).
    + unfold NULL. lia.
    + specialize (Hlinks 0 ltac:(lia)).
      replace (b + 0 * s) with b in Hlinks by lia.
      replace (b + (0 + 1) * s) with (b + s) in Hlinks by lia. exact Hlinks.
    + apply IH.
      * lia.
      * intros j Hj. specialize (Hlinks (j + 1) ltac:(lia)).
        replace (b + s + j * s) with (b + (j + 1) * s) by lia.
        replace (b + s + (j + 1) * s) with (b + (j + 1 + 1) * s) by lia.
        exact Hlinks.
      * replace (b + s + Z.of_nat n * s) with (b + Z.of_nat (S n) * s) by lia.
        exact Hlast.
Qed.

Lemma carved_chain m m' r s :
  is_class s -> 0 < r -> carved m m' r s ->
  chain m' (r + s) (page_blocks r s).
Proof.
  intros Hc Hr (_ & _ & _ & _ & Hlinks & Hlast).
  destruct (class_facts s Hc) as (Hs & Hb & Hsum & _).
  unfold page_blocks.
  replace (Z.to_nat (blocksPerPage s)) with (S (Z.to_nat (blocksPerPage s - 1))) by lia.
  apply chain_blocks; try lia.
  - intros j Hj.
    replace (r + s + j * s) with (r + (j + 1) * s) by lia.
    replace (r + s + (j + 1) * s) with (r + (j + 1 + 1) * s) by lia.
    apply Hlinks; [lia|]. rewrite <- Hsum. nia.
  - rewrite Z2Nat.id by lia.
    replace (r + s + (blocksPerPage s - 1) * s) with (r + PAGE_SIZE - s) by lia.
    exact Hlast.
Qed.

(** ** Memory that only grows *)

Lemma extends_refl m : extends m m.
Proof. intros x _. reflexivity. Qed.

Lemma extends_trans m1 m2 m3 : extends m1 m2 -> extends m2 m3 -> extends m1 m3.
Proof.
  intros H12 H23 x Hx. rewrite H23.
  - apply H12. exact Hx.
  - unfold mapped. rewrite H12 by assumption. exact Hx.
Qed.

Lemma extends_mapped m m' x : extends m m' -> mapped m x -> mapped m' x.
Proof. intros H Hx. unfold mapped. rewrite H by assumption. exact Hx. Qed.

Lemma load_extends n m m' a v :
  extends m m' -> load n m a = Some v -> load n m' a = Some v.
Proof.
  intros He Hl. rewrite <- Hl. apply load_ext.
  intros i Hi. apply He. eapply load_mapped; eassumption.
Qed.

Lemma chain_extends m m' h l : extends m m' -> chain m h l -> chain m' h l.
Proof.
  intros He Hc. induction Hc as [|b nxt l Hb Hl Hc IH].
  - constructor.
  - econstructor; [exact Hb| |exact IH]. eapply load_extends; eassumption.
Qed.

Lemma is_block_extends m m' s b : extends m m' -> is_block m s b -> is_block m' s b.
Proof.
  intros He (Hb & Hpm & (Hmg & Hsz) & Ho & Hal).
  repeat split; try assumption; try lia.
  - intros x Hx. eapply extends_mapped; [exact He|]. apply Hpm. exact Hx.
  - eapply load_extends; eassumption.
  - eapply load_extends; eassumption.
Qed.

Lemma wf_list_extends m m' s h : extends m m' -> wf_list m s h -> wf_list m' s h.
Proof.
  intros He (l & Hc & Hn & Hf). exists l. repeat split.
  - eapply chain_extends; eassumption.
  - exact Hn.
  - eapply Forall_impl; [|exact Hf]. intros b. apply is_block_extends. exact He.
Qed.

Lemma carved_extends m m' r s :
  (forall x, r <= x < r + PAGE_SIZE -> m x = None) ->
  carved m m' r s -> extends m m'.
Proof.
  intros Hfree (Hout & _) x Hx. apply Hout.
  destruct (Z_lt_dec x r); [lia|].
  destruct (Z_le_dec (r + PAGE_SIZE) x); [lia|].
  exfalso. apply Hx. apply Hfree. lia.
Qed.

Lemma map_zero_extends m r len :
  (forall x, r <= x < r + len -> m x = None) ->
  extends m (map_zero m r len).
Proof.
  intros Hfree x Hx. apply map_zero_outside.
  destruct (Z_lt_dec x r); [lia|].
  destruct (Z_le_dec (r + len) x); [lia|].
  exfalso. apply Hx. apply Hfree. lia.
Qed.

(** ** Blocks *)

(** Arithmetic of block offsets inside a page. *)
Lemma block_offset_bounds s b :
  is_class s -> s <= b mod PAGE_SIZE -> (b mod PAGE_SIZE) mod s = 0 ->
  b mod PAGE_SIZE + s <= PAGE_SIZE.
Proof.
  intros Hc H1 H2. unfold PAGE_SIZE in *.
  each_class Hc; Z.div_mod_to_equations; lia.
Qed.

Lemma page_of_aligned b : page_of b mod PAGE_SIZE = 0.
Proof. unfold page_of, PAGE_SIZE. Z.div_mod_to_equations. lia. Qed.

Lemma is_block_readable m s b :
  is_class s -> is_block m s b -> forall i, 0 <= i < s -> mapped m (b + i).
Proof.
  intros Hc (Hb & Hpm & _ & Ho & Hal) i Hi.
  pose proof (block_offset_bounds s b Hc Ho Hal).
  apply Hpm. unfold page_of, PAGE_SIZE in *. lia.
Qed.

Lemma carved_blocks m m' r s :
  is_class s -> 0 < r -> r mod PAGE_SIZE = 0 -> r + PAGE_SIZE <= 2 ^ 63 ->
  carved m m' r s ->
  Forall (is_block m' s) (page_blocks r s).
Proof.
  intros Hc Hr Hal Hhi (_ & Hmp & Hmg & Hsz & _).
  destruct (class_facts s Hc) as (Hs & Hb & Hsum & _).
  apply Forall_forall. intros b Hin.
  unfold page_blocks in Hin. apply blocks_from_In in Hin.
  destruct Hin as (j & Hj & ->). rewrite Z2Nat.id in Hj by lia.
  assert ((r + s + j * s) mod PAGE_SIZE = (j + 1) * s /\ (j + 1) * s < PAGE_SIZE) as [Emod Hlt].
  { assert (0 <= (j + 1) * s < PAGE_SIZE) by nia.
    split; [|lia].
    replace (r + s + j * s) with ((j + 1) * s + r) by lia.
    rewrite <- Z.add_mod_idemp_r by (unfold PAGE_SIZE; lia).
    rewrite Hal, Z.add_0_r. apply Z.mod_small. lia. }
  unfold is_block, page_of. rewrite Emod.
  replace (r + s + j * s - (j + 1) * s) with r by lia.
  unfold PAGE_SIZE in *. repeat split; try assumption; try nia.
  rewrite Z.mod_mul by lia. reflexivity.
Qed.

(** ** The [freelists] array *)

Lemma list_set_length l i v : List.length (list_set l i v) = List.length l.
Proof.
  revert i. induction l as [|h t IH]; intros i; [reflexivity|].
  destruct i; simpl; [reflexivity|]. rewrite IH. reflexivity.
Qed.

Lemma nth_list_set_same l i v d :
  (i < List.length l)%nat -> nth i (list_set l i v) d = v.
Proof.
  revert i. induction l as [|h t IH]; intros i Hi; simpl in Hi; [lia|].
  destruct i; simpl; [reflexivity|]. apply IH. lia.
Qed.

Lemma nth_list_set_other l i j v d :
  i <> j -> nth j (list_set l i v) d = nth j l d.
Proof.
  revert i j. induction l as [|h t IH]; intros i j Hij; [reflexivity|].
  destruct i, j; simpl; try reflexivity; try congruence.
  apply IH. congruence.
Qed.

Lemma class_index_nat s : is_class s -> (Z.to_nat (class_index s) < 8)%nat.
Proof. intros H. each_class H; vm_compute; lia. Qed.

Lemma class_index_nat_inj s t :
  is_class s -> is_class t ->
  Z.to_nat (class_index s) = Z.to_nat (class_index t) -> s = t.
Proof.
  intros Hs Ht. each_class Hs; each_class Ht; intros E; try reflexivity;
    vm_compute in E; discriminate.
Qed.

(** ** [xxmalloc_usable_size] *)

Lemma usable_size_mismatch st ptr tag :
  ptr <> NULL ->
  load 4 (mem st) (page_start ptr) = Some tag ->
  to_int tag <> MAGIC_NUMBER ->
  xxmalloc_usable_size ptr st = Ret (wrap64 (-1)) st.
Proof.
  intros Hp Hl Ht. unfold xxmalloc_usable_size.
  apply Z.eqb_neq in Hp. rewrite Hp.
  erewrite bind_Ret by (apply load_st_Ret; exact Hl).
  apply Z.eqb_neq in Ht. rewrite Ht. reflexivity.
Qed.

Lemma usable_size_match st ptr tag bs :
  ptr <> NULL ->
  load 4 (mem st) (page_start ptr) = Some tag ->
  to_int tag = MAGIC_NUMBER ->
  load 8 (mem st) (ptr_add (page_start ptr) 8) = Some bs ->
  xxmalloc_usable_size ptr st = Ret bs st.
Proof.
  intros Hp Hl Ht Hb. unfold xxmalloc_usable_size.
  apply Z.eqb_neq in Hp. rewrite Hp.
  erewrite bind_Ret by (apply load_st_Ret; exact Hl).
  apply Z.eqb_eq in Ht. rewrite Ht. simpl.
  apply load_st_Ret. exact Hb.
Qed.

Lemma is_block_in_page m s b : is_block m s b -> in_page_of_class m s b.
Proof. intros (Hb & _ & Hh & _). split; assumption. Qed.

Lemma usable_size_in_page st s p :
  in_page_of_class (mem st) s p ->
  xxmalloc_usable_size p st = Ret s st.
Proof.
  intros (Hp & Hmg & Hsz).
  assert (page_start p = page_of p) as E by (apply page_start_low; lia).
  assert (0 <= page_of p <= p).
  { unfold page_of, PAGE_SIZE.
    pose proof (Z.mod_pos_bound p 4096 ltac:(lia)).
    pose proof (Z.mod_le p 4096 ltac:(lia) ltac:(lia)). lia. }
  apply usable_size_match with (tag := MAGIC_NUMBER).
  - unfold NULL. lia.
  - rewrite E. exact Hmg.
  - reflexivity.
  - rewrite E. rewrite ptr_add_small by lia. exact Hsz.
Qed.

(** ** [xxmalloc] *)

Lemma xxmalloc_small n os st :
  0 <= n <= 2048 ->
  xxmalloc n os st =
  (let s := roundPowers n in
   let index := class_index s in
   head <- fl_get index ;;
   (if head =? NULL
    then (l <- allocate_blocks s os ;; fl_set index l)
    else ret tt) ;;;
   first <- fl_get index ;;
   rest <- removeFirst first ;;
   fl_set index rest ;;;
   ret first) st.
Proof.
  intros Hn. unfold xxmalloc.
  destruct (Z.gtb_spec n 2048); [lia|].
  rewrite (to_int_small n) by lia.
  pose proof (roundPowers_class n ltac:(lia)) as Hc.
  destruct (class_facts _ Hc) as (_ & _ & _ & ->).
  cbv zeta. unfold bind at 1. unfold roundPowersList_st.
  rewrite roundPowersList_class by exact Hc. reflexivity.
Qed.

(** Popping the head of a non-empty list. *)
Lemma xxmalloc_pop n os st nxt :
  0 <= n <= 2048 ->
  head_of st (roundPowers n) <> NULL ->
  load 8 (mem st) (head_of st (roundPowers n)) = Some nxt ->
  xxmalloc n os st =
  Ret (head_of st (roundPowers n))
      (mkState (list_set (freelists st) (Z.to_nat (class_index (roundPowers n))) nxt)
               (mem st) (trace st)).
Proof.
  intros Hn Hh Hl. rewrite xxmalloc_small by exact Hn. cbv zeta.
  pose proof (roundPowers_class n ltac:(lia)) as Hc.
  pose proof (class_index_bounds _ Hc) as Hb.
  unfold head_of in *.
  set (i := class_index (roundPowers n)) in *.
  unfold bind, fl_get, fl_set, ret, removeFirst, load_st. rewrite Hb.
  apply Z.eqb_neq in Hh. rewrite Hh. cbn [mem freelists trace].
  rewrite Hl. reflexivity.
Qed.

(** Carving a page when the list is empty, then popping its first block. *)
Lemma xxmalloc_carve n os st :
  0 <= n <= 2048 ->
  List.length (freelists st) = 8%nat ->
  head_of st (roundPowers n) = NULL ->
  mmap_ok (mem st) PAGE_SIZE (mmap_ret os) = true ->
  mmap_ret os <> MAP_FAILED ->
  exists m' nxt,
    xxmalloc n os st =
    Ret (mmap_ret os + roundPowers n)
        (mkState (list_set (freelists st) (Z.to_nat (class_index (roundPowers n))) nxt)
                 m'
                 (trace st ++ [EvMmap PAGE_SIZE MAP_ANONYMOUS_SHARED (mmap_ret os)])) /\
    carved (mem st) m' (mmap_ret os) (roundPowers n) /\
    load 8 m' (mmap_ret os + roundPowers n) = Some nxt.
Proof.
  intros Hn Hlen Hh Hok Hne. rewrite xxmalloc_small by exact Hn. cbv zeta.
  pose proof (roundPowers_class n ltac:(lia)) as Hc.
  pose proof (class_index_bounds _ Hc) as Hb.
  pose proof (class_index_nat _ Hc) as Hi.
  destruct (allocate_blocks_spec _ os st Hc Hok Hne) as (m' & Hrun & Hcarved).
  destruct (mmap_ok_fresh _ _ _ Hok Hne) as (_ & Hr & _ & _ & _).
  pose proof (carved_chain _ _ _ _ Hc Hr Hcarved) as Hch.
  assert (exists nxt, load 8 m' (mmap_ret os + roundPowers n) = Some nxt) as [nxt Hl].
  { destruct (class_facts _ Hc) as (Hs & _).
    inversion Hch as [E|b nxt l Hb0 Hl Hrest]; [unfold NULL in E; lia|].
    exists nxt. exact Hl. }
  exists m', nxt. split; [|split; [exact Hcarved|exact Hl]].
  unfold head_of in *.
  set (s := roundPowers n) in *. set (i := class_index s) in *.
  set (r := mmap_ret os) in *.
  unfold bind at 1. unfold fl_get at 1. rewrite Hb. rewrite Hh.
  change (NULL =? NULL) with true. cbv iota.
  unfold bind at 1. unfold bind at 1. rewrite Hrun.
  unfold fl_set at 1. rewrite Hb. cbn [freelists mem trace].
  unfold bind at 1. unfold fl_get at 1. rewrite Hb. cbn [freelists mem trace].
  rewrite nth_list_set_same by lia.
  unfold bind at 1. unfold removeFirst, load_st. cbn [freelists mem trace].
  rewrite Hl.
  unfold bind, fl_set, ret. rewrite Hb. cbn [freelists mem trace].
  f_equal. f_equal.
  clear. generalize (Z.to_nat i). generalize (freelists st).
  induction l as [|h t IH]; intros k; [reflexivity|].
  destruct k; simpl; [reflexivity|]. rewrite IH. reflexivity.
Qed.

(** A failed page mapping ends the process. *)
Lemma xxmalloc_carve_fails n os st :
  0 <= n <= 2048 ->
  head_of st (roundPowers n) = NULL ->
  mmap_ret os = MAP_FAILED ->
  xxmalloc n os st =
  Exit EXIT_FAILURE
       (mkState (freelists st) (mem st)
                ((trace st ++ [EvMmap PAGE_SIZE MAP_ANONYMOUS_SHARED MAP_FAILED])
                   ++ [EvPerror "failed to allocate space"])).
Proof.
  intros Hn Hh Hf. rewrite xxmalloc_small by exact Hn. cbv zeta.
  pose proof (roundPowers_class n ltac:(lia)) as Hc.
  pose proof (class_index_bounds _ Hc) as Hb.
  unfold head_of in *.
  unfold bind at 1. unfold fl_get at 1. rewrite Hb. rewrite Hh.
  change (NULL =? NULL) with true. cbv iota.
  unfold bind at 1. unfold bind at 1. unfold allocate_blocks.
  unfold bind at 1. unfold mmap. rewrite Hf.
  change (MAP_FAILED =? MAP_FAILED) with true. cbv iota.
  reflexivity.
Qed.

(** ** [xxfree] *)

Lemma class_not_sentinel s : is_class s -> (s =? wrap64 (-1)) = false.
Proof. intros H. each_class H; reflexivity. Qed.

(** A pointer whose page header does not carry the sentinel is rejected. *)
Lemma xxfree_mismatch st ptr tag :
  ptr <> NULL ->
  load 4 (mem st) (page_start ptr) = Some tag ->
  to_int tag <> MAGIC_NUMBER ->
  xxfree ptr st =
  Ret tt (mkState (freelists st) (mem st)
                  (trace st ++ [EvPerror "pointer not allocated using custom malloc"])).
Proof.
  intros Hp Hl Ht. unfold xxfree.
  pose proof Hp as Hp'. apply Z.eqb_neq in Hp'. rewrite Hp'.
  erewrite bind_Ret by (eapply usable_size_mismatch; eassumption).
  rewrite Z.eqb_refl. reflexivity.
Qed.

(** A pointer whose page header records class [s] is pushed, as it is, on
    the list of [s]. *)
Lemma xxfree_push st p s m' :
  is_class s ->
  in_page_of_class (mem st) s p ->
  store 8 (mem st) p (head_of st s) = Some m' ->
  xxfree p st =
  Ret tt (mkState (list_set (freelists st) (Z.to_nat (class_index s)) p)
                  m' (trace st)).
Proof.
  intros Hc Hin Hst. unfold xxfree.
  assert (p <> NULL) as Hp by (destruct Hin as [? _]; unfold NULL; lia).
  apply Z.eqb_neq in Hp. rewrite Hp.
  erewrite bind_Ret by (apply usable_size_in_page; exact Hin).
  rewrite class_not_sentinel by exact Hc.
  unfold bind at 1. unfold roundPowersList_st.
  rewrite roundPowersList_class by exact Hc.
  pose proof (class_index_bounds _ Hc) as Hb.
  unfold bind at 1. unfold fl_get. rewrite Hb.
  unfold bind at 1. unfold addFirst.
  unfold head_of in Hst.
  erewrite bind_Ret by (apply store_st_Ret; exact Hst).
  unfold ret, fl_set. rewrite Hb. reflexivity.
Qed.

Lemma usable_size_state ptr st v st' :
  xxmalloc_usable_size ptr st = Ret v st' -> st' = st.
Proof.
  unfold xxmalloc_usable_size.
  destruct (ptr =? NULL); [unfold ret; congruence|].
  unfold bind, load_st, ret.
  destruct (load 4 (mem st) (page_start ptr)); [|discriminate].
  destruct (negb _); [congruence|].
  destruct (load 8 (mem st) _); [congruence|discriminate].
Qed.

(** What a returning [xxfree] did. *)
Lemma xxfree_inv ptr st st' :
  xxfree ptr st = Ret tt st' ->
  (st' = st /\ ptr = NULL) \/
  (st' = mkState (freelists st) (mem st)
                 (trace st ++ [EvPerror "pointer not allocated using custom malloc"]) /\
   free_index st ptr = None) \/
  (exists i m',
      free_index st ptr = Some i /\ in_bounds i = true /\
      store 8 (mem st) ptr (nth (Z.to_nat i) (freelists st) NULL) = Some m' /\
      st' = mkState (list_set (freelists st) (Z.to_nat i) ptr) m' (trace st)).
Proof.
  unfold xxfree, free_index.
  destruct (ptr =? NULL) eqn:Ep.
  { unfold ret. intros H. injection H as <-. left. split; [reflexivity|].
    apply Z.eqb_eq. exact Ep. }
  unfold bind at 1.
  destruct (xxmalloc_usable_size ptr st) as [size st1| | |] eqn:Eu; try discriminate.
  apply usable_size_state in Eu. subst st1.
  destruct (size =? wrap64 (-1)).
  { unfold bind, perror, emit, ret. intros H. injection H as <-.
    right. left. split; reflexivity. }
  unfold bind at 1. unfold roundPowersList_st.
  destruct (roundPowersList (to_int size)) as [i|]; [|discriminate].
  unfold bind at 1. unfold fl_get.
  destruct (in_bounds i) eqn:Eb; [|discriminate].
  unfold bind at 1. unfold addFirst. unfold bind at 1. unfold store_st.
  destruct (store 8 (mem st) ptr _) as [m'|] eqn:Es; [|discriminate].
  unfold ret, fl_set. cbn [freelists mem trace]. rewrite Eb.
  intros H. injection H as <-.
  right. right. exists i, m'. repeat split; assumption.
Qed.

(** ** What a returning [xxmalloc] did *)

Lemma load_succeeds n m a :
  (forall i, 0 <= i < Z.of_nat n -> mapped m (a + i)) ->
  exists v, load n m a = Some v.
Proof.
  intros H. apply range_mapped_true in H. unfold load. rewrite H. eauto.
Qed.

Lemma log_message_then_exit msg os st (p : Z) st' :
  (log_message msg os ;;; exit_ 2) st <> Ret p st'.
Proof.
  unfold log_message, bind, emit, exit_, ret.
  destruct (negb _); discriminate.
Qed.

Lemma xxmalloc_oversized n os st :
  2048 < n -> mmap_ret os <> MAP_FAILED ->
  xxmalloc n os st =
  Ret (mmap_ret os)
      (mkState (freelists st)
               (map_zero (mem st) (mmap_ret os) (ROUND_UP n PAGE_SIZE))
               (trace st ++ [EvMmap (ROUND_UP n PAGE_SIZE) MAP_ANONYMOUS_PRIVATE (mmap_ret os)])).
Proof.
  intros Hn Hne. unfold xxmalloc. destruct (Z.gtb_spec n 2048); [|lia].
  unfold bind, mmap, ret. apply Z.eqb_neq in Hne. rewrite !Hne. reflexivity.
Qed.

Lemma xxmalloc_oversized_fails n os st p st' :
  2048 < n -> mmap_ret os = MAP_FAILED -> xxmalloc n os st <> Ret p st'.
Proof.
  intros Hn Hf. unfold xxmalloc. destruct (Z.gtb_spec n 2048); [|lia].
  unfold bind at 1. unfold mmap. rewrite Hf.
  change (MAP_FAILED =? MAP_FAILED) with true. cbv iota.
  apply log_message_then_exit.
Qed.

(** A failed mapping, for a page carve or for an oversized region, ends
    the process: [xxmalloc] does not return. *)
Lemma mapping_failure_exits n os st :
  0 <= n ->
  mmap_ret os = MAP_FAILED ->
  2048 < n \/ head_of st (roundPowers n) = NULL ->
  exists code st', xxmalloc n os st = Exit code st'.
Proof.
  intros Hn Hf Hcase.
  destruct (Z_lt_dec 2048 n) as [Hbig | Hsmall].
  - unfold xxmalloc. destruct (Z.gtb_spec n 2048); [|lia].
    unfold bind at 1. unfold mmap. rewrite Hf.
    change (MAP_FAILED =? MAP_FAILED) with true. cbv iota.
    unfold log_message, bind, emit, exit_, ret.
    destruct (negb _); do 2 eexists; reflexivity.
  - destruct Hcase as [? | Hh]; [lia|].
    do 2 eexists. apply xxmalloc_carve_fails; [lia|exact Hh|exact Hf].
Qed.

(** The small path of [xxmalloc] on a non-empty list whose head cannot be
    read. *)
Lemma xxmalloc_pop_crash n os st :
  0 <= n <= 2048 ->
  head_of st (roundPowers n) <> NULL ->
  load 8 (mem st) (head_of st (roundPowers n)) = None ->
  xxmalloc n os st = Crash.
Proof.
  intros Hn Hh Hl. rewrite xxmalloc_small by exact Hn. cbv zeta.
  pose proof (roundPowers_class n ltac:(lia)) as Hc.
  pose proof (class_index_bounds _ Hc) as Hb.
  unfold head_of in *.
  unfold bind, fl_get, fl_set, ret, removeFirst, load_st. rewrite Hb.
  apply Z.eqb_neq in Hh. rewrite Hh. cbn [mem freelists trace].
  rewrite Hl. reflexivity.
Qed.

(** What a returning [xxmalloc] did: it served an oversized request, or
    popped the head of a non-empty list, or carved a page and popped its
    first block. *)
Lemma xxmalloc_cases n os st p st' :
  os_ok (OpMalloc n os) st ->
  List.length (freelists st) = 8%nat ->
  xxmalloc n os st = Ret p st' ->
  (2048 < n /\ mmap_ret os <> MAP_FAILED /\ p = mmap_ret os /\
   st' = mkState (freelists st)
                 (map_zero (mem st) (mmap_ret os) (ROUND_UP n PAGE_SIZE))
                 (trace st ++ [EvMmap (ROUND_UP n PAGE_SIZE) MAP_ANONYMOUS_PRIVATE
                                      (mmap_ret os)])) \/
  (n <= 2048 /\ head_of st (roundPowers n) <> NULL /\ p = head_of st (roundPowers n) /\
   exists nxt,
     load 8 (mem st) p = Some nxt /\
     st' = mkState (list_set (freelists st) (Z.to_nat (class_index (roundPowers n))) nxt)
                   (mem st) (trace st)) \/
  (n <= 2048 /\ head_of st (roundPowers n) = NULL /\ mmap_ret os <> MAP_FAILED /\
   p = mmap_ret os + roundPowers n /\
   exists m' nxt,
     carved (mem st) m' (mmap_ret os) (roundPowers n) /\
     load 8 m' (mmap_ret os + roundPowers n) = Some nxt /\
     st' = mkState (list_set (freelists st) (Z.to_nat (class_index (roundPowers n))) nxt)
                   m'
                   (trace st ++ [EvMmap PAGE_SIZE MAP_ANONYMOUS_SHARED (mmap_ret os)])).
Proof.
  intros [Hn Hok] Hlen Hrun.
  destruct (Z.gtb_spec n 2048) as [Hbig | Hsmall].
  - left.
    destruct (Z.eq_dec (mmap_ret os) MAP_FAILED) as [Ef | Ef].
    { exfalso. eapply xxmalloc_oversized_fails; [| exact Ef | exact Hrun]. lia. }
    rewrite xxmalloc_oversized in Hrun by (lia || exact Ef).
    injection Hrun as <- <-. repeat split; try assumption; lia.
  - right.
    assert (0 <= n <= 2048) as Hn' by lia.
    destruct (Z.eq_dec (head_of st (roundPowers n)) NULL) as [Hh | Hh].
    + right.
      destruct (Z.eq_dec (mmap_ret os) MAP_FAILED) as [Ef | Ef].
      { rewrite xxmalloc_carve_fails in Hrun by assumption. discriminate. }
      destruct (xxmalloc_carve n os st Hn' Hlen Hh Hok Ef)
        as (m' & nxt & Hrun' & Hcarved & Hnxt).
      rewrite Hrun' in Hrun. injection Hrun as <- <-.
      split; [lia|]. split; [exact Hh|]. split; [exact Ef|]. split; [reflexivity|].
      exists m', nxt. split; [exact Hcarved|]. split; [exact Hnxt|reflexivity].
    + left.
      destruct (load 8 (mem st) (head_of st (roundPowers n))) as [nxt|] eqn:El.
      * rewrite (xxmalloc_pop n os st nxt Hn' Hh El) in Hrun.
        injection Hrun as <- <-.
        split; [lia|]. split; [exact Hh|]. split; [reflexivity|].
        exists nxt. split; [exact El|reflexivity].
      * rewrite xxmalloc_pop_crash in Hrun by assumption. discriminate.
Qed.

Lemma xxmalloc_inv n os st p st' :
  os_ok (OpMalloc n os) st ->
  List.length (freelists st) = 8%nat ->
  xxmalloc n os st = Ret p st' ->
  extends (mem st) (mem st') /\
  List.length (freelists st') = 8%nat /\
  (2048 < n -> freelists st' = freelists st) /\
  (n <= 2048 ->
   forall j, j <> Z.to_nat (class_index (roundPowers n)) ->
             nth j (freelists st') NULL = nth j (freelists st) NULL).
Proof.
  intros Hos Hlen Hrun. pose proof Hos as [Hn Hok].
  destruct (xxmalloc_cases _ _ _ _ _ Hos Hlen Hrun)
    as [(Hbig & Ef & _ & ->)
       | [(Hsmall & _ & _ & nxt & _ & ->)
         | (Hsmall & _ & Ef & _ & m' & nxt & Hcarved & _ & ->)]];
    cbn [freelists mem trace].
  - destruct (Z.gtb_spec n 2048); [|lia].
    destruct (mmap_ok_fresh _ _ _ Hok Ef) as (_ & _ & _ & _ & Hfree).
    split; [apply map_zero_extends; exact Hfree|].
    split; [exact Hlen|]. split; [reflexivity|lia].
  - split; [apply extends_refl|].
    split; [rewrite list_set_length; exact Hlen|]. split; [lia|].
    intros _ j Hj. apply nth_list_set_other. congruence.
  - destruct (Z.gtb_spec n 2048); [lia|].
    destruct (mmap_ok_fresh _ _ _ Hok Ef) as (_ & _ & _ & _ & Hfree).
    split; [eapply carved_extends; eassumption|].
    split; [rewrite list_set_length; exact Hlen|]. split; [lia|].
    intros _ j Hj. apply nth_list_set_other. congruence.
Qed.

(** ** What a run keeps *)


Lemma header_ok_store m m' q v pg s :
  store 8 m q v = Some m' ->
  link_clear_of_headers q -> pg mod PAGE_SIZE = 0 ->
  header_ok m pg s -> header_ok m' pg s.
Proof.
  intros Hst Hq Hpg [H1 H2].
  assert (q + 8 <= pg \/ pg + 16 <= q) as Hd.
  { unfold link_clear_of_headers, PAGE_SIZE in *. Z.div_mod_to_equations. lia. }
  split.
  - rewrite <- H1. eapply store_load_other; [exact Hst|]. simpl. lia.
  - rewrite <- H2. eapply store_load_other; [exact Hst|]. simpl. lia.
Qed.




(** ** Oversized regions *)

Lemma ROUND_UP_multiple n :
  0 <= n -> ROUND_UP n PAGE_SIZE mod PAGE_SIZE = 0.
Proof.
  intros Hn. unfold ROUND_UP, wrap64, PAGE_SIZE.
  destruct (Z.eqb_spec (n mod 4096) 0) as [E | E]; [exact E|].
  change (2 ^ 64) with 18446744073709551616.
  Z.div_mod_to_equations. lia.
Qed.

(** Every page of a fresh oversized region starts with zero bytes: no
    pointer into the region finds the sentinel. *)
Lemma oversized_region_tag m r len q :
  0 < r -> r mod PAGE_SIZE = 0 -> len mod PAGE_SIZE = 0 -> r + len <= 2 ^ 63 ->
  r <= q < r + len ->
  q <> NULL /\ load 4 (map_zero m r len) (page_start q) = Some 0.
Proof.
  intros Hr Hal Hlen Hhi Hq. split; [unfold NULL; lia|].
  rewrite page_start_low by lia.
  apply load_map_zero; unfold PAGE_SIZE in *; simpl;
    Z.div_mod_to_equations; lia.
Qed.

(** ** The invariant and the head of a list *)

Lemma is_block_link_mapped m s b :
  is_class s -> is_block m s b -> link_mapped m b.
Proof.
  intros Hc Hblk i Hi. apply (is_block_readable _ _ _ Hc Hblk).
  destruct (class_facts _ Hc) as (Hs & _). lia.
Qed.

Lemma wf_head_sound st s : wf st -> is_class s -> head_sound st s.
Proof.
  intros [Hlen Hwf] Hc. split; [exact Hlen|].
  destruct (Hwf s Hc) as (l & Hch & _ & Hf).
  inversion Hch as [E | b nxt l' Hb Hl Hrest E1 E2]; [left; reflexivity|].
  right. subst l. inversion Hf as [|? ? Hblk ?]; subst.
  split; [apply is_block_in_page; exact Hblk|].
  eapply is_block_link_mapped; eassumption.
Qed.

Lemma wf_init m : wf (init_state m).
Proof.
  split; [reflexivity|]. intros s Hc. exists []. split; [|split].
  - each_class Hc; constructor.
  - constructor.
  - constructor.
Qed.

(** The pointer that the small path of [xxmalloc] returns has a readable
    link and lies in a page of the class of the request. *)
Lemma xxmalloc_returns_in_page n os st :
  0 <= n <= 2048 ->
  head_sound st (roundPowers n) ->
  mmap_ok (mem st) PAGE_SIZE (mmap_ret os) = true ->
  (head_of st (roundPowers n) = NULL /\ mmap_ret os = MAP_FAILED /\
   exists st', xxmalloc n os st = Exit EXIT_FAILURE st') \/
  (exists p st', xxmalloc n os st = Ret p st' /\
                 in_page_of_class (mem st') (roundPowers n) p /\
                 link_mapped (mem st') p /\
                 List.length (freelists st') = 8%nat).
Proof.
  intros Hn [Hlen Hhead] Hok.
  pose proof (roundPowers_class n ltac:(lia)) as Hc.
  destruct Hhead as [Hh | [Hin Hlink]].
  - destruct (Z.eq_dec (mmap_ret os) MAP_FAILED) as [Ef | Ef].
    + left. split; [exact Hh|]. split; [exact Ef|].
      eexists. apply xxmalloc_carve_fails; assumption.
    + right.
      destruct (xxmalloc_carve n os st Hn Hlen Hh Hok Ef)
        as (m' & nxt & Hrun & Hcarved & _).
      destruct (mmap_ok_fresh _ _ _ Hok Ef) as (_ & Hr & Hal & Hhi & _).
      pose proof (carved_blocks _ _ _ _ Hc Hr Hal Hhi Hcarved) as Hf.
      assert (is_block m' (roundPowers n) (mmap_ret os + roundPowers n)) as Hblk.
      { rewrite Forall_forall in Hf. apply Hf.
        unfold page_blocks. apply blocks_from_In. exists 0.
        destruct (class_facts _ Hc) as (_ & Hb & _). lia. }
      do 2 eexists. split; [exact Hrun|]. cbn [freelists mem trace].
      split; [apply is_block_in_page; exact Hblk|].
      split; [eapply is_block_link_mapped; eassumption|].
      rewrite list_set_length. exact Hlen.
  - right.
    assert (head_of st (roundPowers n) <> NULL) as Hh
        by (destruct Hin as [? _]; unfold NULL; lia).
    destruct (load_succeeds 8 (mem st) (head_of st (roundPowers n))) as [nxt Hl].
    { exact Hlink. }
    do 2 eexists. split; [apply (xxmalloc_pop n os st nxt Hn Hh Hl)|].
    cbn [freelists mem trace]. split; [exact Hin|]. split; [exact Hlink|].
    rewrite list_set_length. exact Hlen.
Qed.

(** A non-null head whose link can be read is what the next allocation of
    the class returns. *)
Lemma head_is_reused st s p :
  head_of st s = p -> p <> NULL ->
  (forall i, 0 <= i < 8 -> mapped (mem st) (p + i)) ->
  forall n os, 0 <= n <= 2048 -> roundPowers n = s ->
               exists st', xxmalloc n os st = Ret p st'.
Proof.
  intros Hh Hp Hm n os Hn Hs. subst s.
  destruct (load_succeeds 8 (mem st) p) as [nxt Hl]; [exact Hm|].
  eexists. rewrite <- Hh. apply (xxmalloc_pop n os st nxt Hn).
  - rewrite Hh. exact Hp.
  - rewrite Hh. exact Hl.
Qed.

Lemma xxfree_pushes st s p :
  is_class s ->
  List.length (freelists st) = 8%nat ->
  in_page_of_class (mem st) s p ->
  (forall i, 0 <= i < 8 -> mapped (mem st) (p + i)) ->
  exists st',
    xxfree p st = Ret tt st' /\
    head_of st' s = p /\
    List.length (freelists st') = 8%nat /\
    (forall x, mapped (mem st) x -> mapped (mem st') x) /\
    load 8 (mem st') p = Some (wrap64 (head_of st s)).
Proof.
  intros Hc Hlen Hin Hm.
  pose proof (store_succeeds 8 (mem st) p (head_of st s) Hm) as Hst.
  eexists. split; [apply (xxfree_push st p s _ Hc Hin Hst)|].
  cbn [freelists mem trace]. split; [|split; [|split]].
  - unfold head_of. cbn [freelists]. apply nth_list_set_same.
    rewrite Hlen. apply class_index_nat. exact Hc.
  - rewrite list_set_length. exact Hlen.
  - intros x. apply (store_mapped _ _ _ _ _ x Hst).
  - apply (store_load_same _ _ _ _ _ Hst).
Qed.


(** ** Runs of allocations of one class *)

Lemma carve_events_app tr e :
  carve_events (tr ++ [e]) = carve_events tr + (if is_carve e then 1 else 0).
Proof.
  unfold carve_events. rewrite filter_app, length_app. simpl.
  destruct (is_carve e); simpl; lia.
Qed.

Lemma ceil_div_carve bpp k :
  1 <= bpp -> 1 <= k ->
  1 + ceil_div (Z.max (k - 1 - (bpp - 1)) 0) bpp = ceil_div (Z.max (k - 0) 0) bpp.
Proof.
  intros Hb Hk. unfold ceil_div.
  rewrite (Z.max_l (k - 0) 0) by lia.
  destruct (Z_le_dec bpp k) as [H | H].
  - rewrite Z.max_l by lia.
    replace (k - 0 + bpp - 1) with (k - 1 - (bpp - 1) + bpp - 1 + 1 * bpp) by lia.
    rewrite Z.div_add by lia. lia.
  - rewrite Z.max_r by lia.
    rewrite (Z.div_small (0 + bpp - 1) bpp) by lia.
    replace (k - 0 + bpp - 1) with (k - 1 + 1 * bpp) by lia.
    rewrite Z.div_add by lia. rewrite Z.div_small by lia. lia.
Qed.

Lemma is_block_aligned m s b : is_class s -> is_block m s b -> b mod s = 0.
Proof.
  intros Hc (_ & _ & _ & _ & Hal). unfold PAGE_SIZE in Hal.
  each_class Hc; Z.div_mod_to_equations; lia.
Qed.

Lemma aligned_disjoint s p q :
  0 < s -> p mod s = 0 -> q mod s = 0 -> p <> q ->
  p + s <= q \/ q + s <= p.
Proof.
  intros Hs Hp Hq Hne.
  apply Z.mod_divide in Hp; [|lia]. apply Z.mod_divide in Hq; [|lia].
  destruct Hp as [a ->], Hq as [b ->].
  destruct (Z.lt_trichotomy a b) as [H | [H | H]].
  - left. nia.
  - subst b. contradiction.
  - right. nia.
Qed.

Lemma blocks_pairwise_disjoint m s ps :
  is_class s -> NoDup ps -> Forall (is_block m s) ps -> pairwise_disjoint s ps.
Proof.
  intros Hc Hnd Hf. split; [exact Hnd|].
  intros p q Hp Hq Hne. rewrite Forall_forall in Hf.
  destruct (class_facts s Hc) as (Hs & _).
  apply aligned_disjoint; try assumption; try lia.
  - eapply is_block_aligned; [exact Hc|]. apply Hf. exact Hp.
  - eapply is_block_aligned; [exact Hc|]. apply Hf. exact Hq.
Qed.

Lemma page_blocks_fresh m r s q :
  is_class s -> (forall x, r <= x < r + PAGE_SIZE -> m x = None) ->
  In q (page_blocks r s) -> ~ mapped m q.
Proof.
  intros Hc Hfree Hin Hm. apply Hm. apply Hfree.
  unfold page_blocks in Hin. apply blocks_from_In in Hin.
  destruct Hin as (j & Hj & ->).
  destruct (class_facts s Hc) as (Hs & Hb & Hsum & _).
  rewrite Z2Nat.id in Hj by lia. nia.
Qed.

(** The run of allocations from a state in which the list of the class is
    the chain [l] of distinct blocks. *)
Lemma xxmalloc_many_spec n :
  0 <= n <= 2048 ->
  forall oss st l,
    List.length (freelists st) = 8%nat ->
    chain (mem st) (head_of st (roundPowers n)) l ->
    NoDup l ->
    Forall (is_block (mem st) (roundPowers n)) l ->
    os_serves n oss st ->
    exists ps st',
      xxmalloc_many n oss st = Ret ps st' /\
      List.length ps = List.length oss /\
      carve_events (trace st')
      = carve_events (trace st)
        + ceil_div (Z.max (Z.of_nat (List.length oss) - Z.of_nat (List.length l)) 0)
                   (blocksPerPage (roundPowers n)) /\
      NoDup ps /\
      Forall (is_block (mem st') (roundPowers n)) ps /\
      (forall q, In q ps -> In q l \/ ~ mapped (mem st) q) /\
      extends (mem st) (mem st').
Proof.
  intros Hn.
  pose proof (roundPowers_class n ltac:(lia)) as Hc.
  destruct (class_facts _ Hc) as (Hs & Hbpp & Hsum & _).
  set (s := roundPowers n) in *.
  induction oss as [|os oss IH]; intros st l Hlen Hch Hnd Hf Hos.
  - exists [], st. simpl. unfold ret.
    split; [reflexivity|]. split; [reflexivity|]. split.
    + unfold ceil_div. rewrite Z.max_r by lia.
      rewrite Z.div_small by lia. lia.
    + split; [constructor|]. split; [constructor|].
      split; [intros q []|apply extends_refl].
  - destruct Hos as (Hok & Hne & Hrest).
    (* the first call *)
    assert (exists p st1 l1,
               xxmalloc n os st = Ret p st1 /\
               List.length (freelists st1) = 8%nat /\
               chain (mem st1) (head_of st1 s) l1 /\
               NoDup (p :: l1) /\
               Forall (is_block (mem st1) s) (p :: l1) /\
               extends (mem st) (mem st1) /\
               (forall q, In q (p :: l1) -> In q l \/ ~ mapped (mem st) q) /\
               carve_events (trace st1)
               + ceil_div (Z.max (Z.of_nat (List.length oss) - Z.of_nat (List.length l1)) 0)
                          (blocksPerPage s)
               = carve_events (trace st)
                 + ceil_div (Z.max (Z.of_nat (List.length (os :: oss))
                                    - Z.of_nat (List.length l)) 0)
                            (blocksPerPage s))
      as (p & st1 & l1 & Hrun & Hlen1 & Hch1 & Hnd1 & Hf1 & Hext1 & Hsrc1 & Hcount).
    { inversion Hch as [E0 E1 | b nxt l' Hb Hl Hrest' E0 E1].
      - (* empty list: carve *)
        symmetry in E0.
        destruct (xxmalloc_carve n os st Hn Hlen E0 Hok Hne)
          as (m' & nxt & Hrun & Hcarved & Hnxt).
        fold s in Hrun, Hcarved, Hnxt.
        destruct (mmap_ok_fresh _ _ _ Hok Hne) as (_ & Hr & Hal & Hhi & Hfree).
        pose proof (carved_chain _ _ _ _ Hc Hr Hcarved) as Hchain.
        pose proof (carved_blocks _ _ _ _ Hc Hr Hal Hhi Hcarved) as Hblocks.
        pose proof (blocks_from_NoDup (mmap_ret os + s) s
                      (Z.to_nat (blocksPerPage s)) ltac:(lia)) as Hnodup.
        pose proof (blocks_from_length (mmap_ret os + s) s
                      (Z.to_nat (blocksPerPage s))) as Hblen.
        fold (page_blocks (mmap_ret os) s) in Hnodup, Hblen.
        inversion Hchain as [E2 E3 | b nxt' l1 Hb Hl Hrest' E2 E3];
          [unfold NULL in E2; lia|].
        assert (nxt' = nxt) by congruence. subst nxt'.
        rewrite <- E3 in Hnodup, Hblocks, Hblen.
        exists (mmap_ret os + s). eexists. exists l1.
        split; [exact Hrun|]. cbn [freelists mem trace].
        split; [rewrite list_set_length; exact Hlen|].
        split.
        { unfold head_of. cbn [freelists]. rewrite nth_list_set_same; [exact Hrest'|].
          rewrite Hlen. apply class_index_nat. exact Hc. }
        split; [exact Hnodup|]. split; [exact Hblocks|].
        split; [eapply carved_extends; eassumption|].
        split.
        { intros q Hq. right. apply (page_blocks_fresh _ (mmap_ret os) s); try assumption.
          rewrite <- E3. exact Hq. }
        rewrite carve_events_app. cbn [is_carve].
        simpl List.length in Hblen. simpl List.length.
        replace (Z.of_nat (List.length l1)) with (blocksPerPage s - 1) by lia.
        pose proof (ceil_div_carve (blocksPerPage s) (Z.of_nat (S (List.length oss)))
                      ltac:(lia) ltac:(lia)) as Hcd.
        replace (Z.of_nat (S (List.length oss)) - 1) with (Z.of_nat (List.length oss)) in Hcd by lia.
        change (Z.of_nat 0) with 0. lia.
      - (* non-empty list: pop *)
        subst l. subst b.
        assert (head_of st s <> NULL) as Hh by exact Hb.
        exists (head_of st s). eexists. exists l'.
        split; [apply (xxmalloc_pop n os st nxt Hn Hh Hl)|].
        cbn [freelists mem trace].
        split; [rewrite list_set_length; exact Hlen|].
        split.
        { unfold head_of at 1. cbn [freelists]. rewrite nth_list_set_same; [exact Hrest'|].
          rewrite Hlen. apply class_index_nat. exact Hc. }
        split; [exact Hnd|]. split; [exact Hf|].
        split; [apply extends_refl|]. split; [intros q Hq; left; exact Hq|].
        simpl List.length.
        replace (Z.of_nat (S (List.length oss)) - Z.of_nat (S (List.length l')))
          with (Z.of_nat (List.length oss) - Z.of_nat (List.length l')) by lia.
        reflexivity. }
    (* the remaining calls *)
    rewrite Hrun in Hrest.
    inversion Hnd1 as [|? ? Hnotin Hnd1']; subst.
    inversion Hf1 as [|? ? Hblk Hf1']; subst.
    destruct (IH st1 l1 Hlen1 Hch1 Hnd1' Hf1' Hrest)
      as (ps & st' & Hrun' & Hlen' & Hcount' & Hnd' & Hf' & Hsrc' & Hext').
    exists (p :: ps), st'.
    split.
    { cbn [xxmalloc_many]. unfold bind at 1. rewrite Hrun.
      unfold bind. rewrite Hrun'. reflexivity. }
    split; [simpl; congruence|].
    split; [lia|].
    split.
    { constructor; [|exact Hnd'].
      intros Hin. destruct (Hsrc' p Hin) as [H | H]; [contradiction|].
      apply H. replace p with (p + 0) by lia.
      apply (is_block_readable _ s p Hc Hblk 0). lia. }
    split.
    { constructor; [|exact Hf']. eapply is_block_extends; eassumption. }
    split; [|eapply extends_trans; eassumption].
    intros q [<- | Hq].
    + apply Hsrc1. left. reflexivity.
    + destruct (Hsrc' q Hq) as [H | H].
      * apply Hsrc1. right. exact H.
      * right. intros Hm. apply H. eapply extends_mapped; eassumption.
Qed.

(** ** Page headers along a run *)





(** ** The invariant is kept by allocation and by the free of a block in use *)

Lemma head_of_set_same st s v m tr :
  is_class s -> List.length (freelists st) = 8%nat ->
  head_of (mkState (list_set (freelists st) (Z.to_nat (class_index s)) v) m tr) s = v.
Proof.
  intros Hc Hlen. unfold head_of. cbn [freelists].
  apply nth_list_set_same. rewrite Hlen. apply class_index_nat. exact Hc.
Qed.

Lemma head_of_set_other st s t v m tr :
  is_class s -> is_class t -> s <> t ->
  head_of (mkState (list_set (freelists st) (Z.to_nat (class_index s)) v) m tr) t
  = head_of st t.
Proof.
  intros Hs Ht Hne. unfold head_of. cbn [freelists].
  apply nth_list_set_other. intros E. apply Hne.
  apply class_index_nat_inj; assumption.
Qed.

Lemma wf_xxmalloc n os st p st' :
  wf st -> os_ok (OpMalloc n os) st ->
  xxmalloc n os st = Ret p st' ->
  wf st'.
Proof.
  intros [Hlen Hwf] Hos Hrun. pose proof Hos as [Hn Hok].
  destruct (xxmalloc_cases _ _ _ _ _ Hos Hlen Hrun)
    as [(Hbig & Ef & _ & ->)
       | [(Hsmall & Hh & -> & nxt & Hl & ->)
         | (Hsmall & Hh & Ef & _ & m' & nxt & Hcarved & Hl & ->)]].
  - destruct (Z.gtb_spec n 2048); [|lia].
    destruct (mmap_ok_fresh _ _ _ Hok Ef) as (_ & _ & _ & _ & Hfree).
    split; [exact Hlen|]. intros s Hc. unfold head_of. cbn [freelists mem].
    eapply wf_list_extends; [apply map_zero_extends; exact Hfree|].
    apply Hwf. exact Hc.
  - pose proof (roundPowers_class n ltac:(lia)) as Hcn.
    split; [cbn [freelists]; rewrite list_set_length; exact Hlen|].
    intros s Hc. cbn [mem].
    destruct (Z.eq_dec (roundPowers n) s) as [<- | Hne].
    + rewrite head_of_set_same by assumption.
      destruct (Hwf _ Hcn) as (l & Hch & Hnd & Hf).
      inversion Hch as [E | b nxt' l' Hb Hl' Hrest E1 E2]; [congruence|].
      subst l. assert (nxt' = nxt) by congruence. subst nxt'.
      exists l'. split; [exact Hrest|].
      inversion Hnd; inversion Hf; subst. split; assumption.
    + rewrite head_of_set_other by assumption. apply Hwf. exact Hc.
  - pose proof (roundPowers_class n ltac:(lia)) as Hcn.
    destruct (Z.gtb_spec n 2048); [lia|].
    destruct (mmap_ok_fresh _ _ _ Hok Ef) as (_ & Hr & Hal & Hhi & Hfree).
    split; [cbn [freelists]; rewrite list_set_length; exact Hlen|].
    intros s Hc. cbn [mem].
    destruct (Z.eq_dec (roundPowers n) s) as [<- | Hne].
    + rewrite head_of_set_same by assumption.
      pose proof (carved_chain _ _ _ _ Hcn Hr Hcarved) as Hch.
      pose proof (carved_blocks _ _ _ _ Hcn Hr Hal Hhi Hcarved) as Hf.
      destruct (class_facts _ Hcn) as (Hs & _).
      pose proof (blocks_from_NoDup (mmap_ret os + roundPowers n) (roundPowers n)
                    (Z.to_nat (blocksPerPage (roundPowers n))) ltac:(lia)) as Hnd.
      fold (page_blocks (mmap_ret os) (roundPowers n)) in Hnd.
      inversion Hch as [E | b nxt' l' Hb Hl' Hrest E1 E2]; [unfold NULL in E; lia|].
      assert (nxt' = nxt) by congruence. subst nxt'.
      rewrite <- E2 in Hnd, Hf.
      exists l'. split; [exact Hrest|].
      inversion Hnd; inversion Hf; subst. split; assumption.
    + rewrite head_of_set_other by assumption.
      eapply wf_list_extends; [eapply carved_extends; eassumption|].
      apply Hwf. exact Hc.
Qed.

Lemma is_block_link_clear s b m :
  is_class s -> is_block m s b -> link_clear_of_headers b.
Proof.
  intros Hc (_ & _ & _ & Ho & Hal).
  pose proof (block_offset_bounds s b Hc Ho Hal).
  destruct (class_facts s Hc) as (Hs & _).
  unfold link_clear_of_headers, PAGE_SIZE in *. lia.
Qed.

Lemma is_block_class_unique m s t b :
  is_block m s b -> is_block m t b -> s = t.
Proof.
  intros (_ & _ & (_ & H1) & _) (_ & _ & (_ & H2) & _). congruence.
Qed.

(** The links of two distinct blocks do not overlap. *)
Lemma block_links_disjoint m s t b p :
  is_class s -> is_class t ->
  is_block m s p -> is_block m t b -> b <> p ->
  b + 8 <= p \/ p + 8 <= b.
Proof.
  intros Hs Ht Hp Hb Hne.
  destruct (class_facts s Hs) as (Hs16 & _).
  destruct (class_facts t Ht) as (Ht16 & _).
  destruct (Z.eq_dec (page_of b) (page_of p)) as [E | E].
  - assert (s = t).
    { destruct Hp as (_ & _ & (_ & H1) & _), Hb as (_ & _ & (_ & H2) & _).
      rewrite E in H2. congruence. }
    subst t.
    destruct (aligned_disjoint s b p ltac:(lia)
                (is_block_aligned _ _ _ Hs Hb) (is_block_aligned _ _ _ Hs Hp) Hne); lia.
  - pose proof (is_block_link_clear _ _ _ Hs Hp) as Lp.
    pose proof (is_block_link_clear _ _ _ Ht Hb) as Lb.
    unfold link_clear_of_headers, page_of, PAGE_SIZE in *.
    Z.div_mod_to_equations. lia.
Qed.

Lemma store_keeps_block m m' p v s t b :
  is_class s -> is_class t ->
  is_block m s p -> store 8 m p v = Some m' ->
  is_block m t b -> is_block m' t b.
Proof.
  intros Hs Ht Hp Hst (Hb & Hpm & Hh & Ho & Hal).
  split; [exact Hb|]. split; [|split; [|split; assumption]].
  - intros x Hx. apply (store_mapped _ _ _ _ _ x Hst). apply Hpm. exact Hx.
  - eapply header_ok_store; try eassumption.
    + apply (is_block_link_clear s p m Hs Hp).
    + apply page_of_aligned.
Qed.

Lemma store_keeps_chain m m' p v s t h l :
  is_class s -> is_class t ->
  is_block m s p -> store 8 m p v = Some m' ->
  chain m h l -> Forall (is_block m t) l -> ~ In p l ->
  chain m' h l.
Proof.
  intros Hs Ht Hp Hst Hch. induction Hch as [|b nxt l Hb Hl Hch IH]; intros Hf Hnin.
  - constructor.
  - inversion Hf as [|? ? Hblk Hf']; subst.
    apply chain_cons with (nxt := nxt); [exact Hb| |].
    + rewrite <- Hl. eapply store_load_other; [exact Hst|].
      assert (b <> p) as Hne by (intros ->; apply Hnin; left; reflexivity).
      destruct (block_links_disjoint _ _ _ _ _ Hs Ht Hp Hblk Hne); simpl; lia.
    + apply IH; [exact Hf'|]. intros Hin. apply Hnin. right. exact Hin.
Qed.

(** Freeing the start of a block that is not on its list keeps the
    invariant. *)
Lemma wf_xxfree st s p :
  wf st -> is_class s -> is_block (mem st) s p ->
  (forall l, chain (mem st) (head_of st s) l -> ~ In p l) ->
  exists st', xxfree p st = Ret tt st' /\ wf st'.
Proof.
  intros [Hlen Hwf] Hc Hp Hfresh.
  destruct (class_facts s Hc) as (Hs & _).
  pose proof (store_succeeds 8 (mem st) p (head_of st s)) as Hst.
  specialize (Hst ltac:(intros i Hi; apply (is_block_readable _ _ _ Hc Hp);
                        simpl in Hi; lia)).
  eexists. split; [apply (xxfree_push st p s _ Hc (is_block_in_page _ _ _ Hp) Hst)|].
  set (m' := write_bytes (mem st) p (le_split 8 (head_of st s))) in *.
  split; [cbn [freelists]; rewrite list_set_length; exact Hlen|].
  intros t Ht. cbn [mem].
  destruct (Hwf t Ht) as (l & Hch & Hnd & Hf).
  destruct (Z.eq_dec s t) as [<- | Hne].
  - rewrite head_of_set_same by assumption.
    pose proof (Hfresh l Hch) as Hnin.
    exists (p :: l). split; [|split].
    + apply chain_cons with (nxt := head_of st s).
      * destruct Hp as [? _]. unfold NULL. lia.
      * rewrite (store_load_same _ _ _ _ _ Hst). f_equal.
        apply Z.mod_small.
        inversion Hch as [E | b nxt l' Hb Hl Hrest E1 E2].
        -- unfold NULL. simpl. lia.
        -- subst l. inversion Hf as [|? ? (Hb1 & _) _]; subst. simpl. lia.
      * eapply store_keeps_chain; try eassumption.
    + constructor; assumption.
    + constructor.
      * eapply store_keeps_block; try eassumption.
      * eapply Forall_impl; [|exact Hf]. intros b.
        eapply store_keeps_block; eassumption.
  - rewrite head_of_set_other by assumption.
    exists l. split; [|split; [exact Hnd|]].
    + eapply (store_keeps_chain _ _ _ _ s t); try eassumption.
      intros Hin. apply Hne. rewrite Forall_forall in Hf.
      eapply is_block_class_unique; [exact Hp|]. apply Hf. exact Hin.
    + eapply Forall_impl; [|exact Hf]. intros b.
      apply (store_keeps_block _ _ p _ s t b Hc Ht Hp Hst).
Qed.

Lemma wf_step o st st' :
  valid_op o st -> wf st -> run_op o st = Ret tt st' -> wf st'.
Proof.
  intros [Hos Hval] Hwf Hrun. destruct o as [n os | q | q].
  - unfold run_op, bind in Hrun.
    destruct (xxmalloc n os st) as [p st1| | |] eqn:E; try discriminate.
    unfold ret in Hrun. injection Hrun as <-.
    eapply wf_xxmalloc; eassumption.
  - unfold run_op in Hrun. destruct Hval as [-> | (s & Hc & Hblk & Hfresh)].
    + unfold xxfree in Hrun. rewrite Z.eqb_refl in Hrun.
      unfold ret in Hrun. injection Hrun as <-. exact Hwf.
    + destruct (wf_xxfree st s q Hwf Hc Hblk Hfresh) as (st1 & Hrun1 & Hwf1).
      rewrite Hrun1 in Hrun. injection Hrun as <-. exact Hwf1.
  - unfold run_op, bind in Hrun.
    destruct (xxmalloc_usable_size q st) as [v st1| | |] eqn:E; try discriminate.
    apply usable_size_state in E. subst st1.
    unfold ret in Hrun. injection Hrun as <-. exact Hwf.
Qed.

(** Every state that such a use reaches from the start of the process
    satisfies the invariant. *)
Lemma wf_steps m0 ops st :
  steps valid_op (init_state m0) ops st -> wf st.
Proof.
  intros H. pose proof (wf_init m0) as Hwf. revert Hwf.
  induction H as [st | st o st1 ops st2 HP Hrun Hsteps IH]; intros Hwf.
  - exact Hwf.
  - apply IH. eapply wf_step; eassumption.
Qed.

(** ** Concrete runs *)

Lemma Ret_after {A : Type} (o : outcome A) (a : A) :
  returned o = Some a -> o = Ret a (after o).
Proof. destruct o; simpl; intros H; try discriminate. congruence. Qed.

Lemma one_page_run :
  xxmalloc 2048 (reply page_A) (init_state empty_memory)
  = Ret (page_A + 2048) one_page.
Proof. apply Ret_after. vm_compute. reflexivity. Qed.



Lemma mapped_by_computation m a n :
  range_mapped m a n = true ->
  forall i, 0 <= i < Z.of_nat n -> mapped m (a + i).
Proof. apply range_mapped_true. Qed.

(** ** Rounding to pages *)

Lemma ROUND_UP_exact x y :
  0 < y -> 0 <= x -> x + y <= 2 ^ 64 ->
  ROUND_UP x y = y * ((x + y - 1) / y).
Proof.
  intros Hy Hx Hsum. unfold ROUND_UP, wrap64.
  destruct (Z.eqb_spec (x mod y) 0) as [E | E].
  - apply Z.mod_divide in E; [|lia]. destruct E as [k ->].
    replace (k * y + y - 1) with (y - 1 + k * y) by lia.
    rewrite Z.div_add by lia. rewrite Z.div_small by lia. lia.
  - pose proof (Z.mod_pos_bound x y Hy) as Hm.
    pose proof (Z.div_mod x y ltac:(lia)) as Hd.
    rewrite (Z.mod_small (y - x mod y)) by lia.
    rewrite Z.mod_small by lia.
    replace (x + y - 1) with (x mod y - 1 + (x / y + 1) * y) by lia.
    rewrite Z.div_add by lia. rewrite Z.div_small by lia. lia.
Qed.

Lemma ROUND_UP_bounds x y :
  0 < y -> 0 <= x -> x + y <= 2 ^ 64 ->
  ROUND_UP x y mod y = 0 /\ x <= ROUND_UP x y < x + y /\
  forall m, m mod y = 0 -> x <= m -> ROUND_UP x y <= m.
Proof.
  intros Hy Hx Hsum. rewrite ROUND_UP_exact by assumption.
  pose proof (Z.div_mod (x + y - 1) y ltac:(lia)) as Hd.
  pose proof (Z.mod_pos_bound (x + y - 1) y Hy) as Hm.
  split; [|split].
  - rewrite Z.mul_comm. apply Z.mod_mul. lia.
  - lia.
  - intros m Hmul Hle. apply Z.mod_divide in Hmul; [|lia].
    destruct Hmul as [k ->].
    assert ((x + y - 1) / y < k + 1); [|nia].
    apply Z.div_lt_upper_bound; [lia|]. nia.
Qed.

Lemma ROUND_UP_wraps x :
  2 ^ 64 - PAGE_SIZE < x < 2 ^ 64 -> ROUND_UP x PAGE_SIZE = 0.
Proof.
  intros Hx. unfold ROUND_UP, wrap64, PAGE_SIZE in *.
  change (2 ^ 64) with 18446744073709551616 in *.
  destruct (Z.eqb_spec (x mod 4096) 0) as [E | E].
  - exfalso. Z.div_mod_to_equations. lia.
  - Z.div_mod_to_equations. lia.
Qed.

(** ** Trailing zeros and the slot of a size *)

Lemma ctz_pos_nonneg p : 0 <= ctz_pos p.
Proof. induction p; cbn [ctz_pos]; lia. Qed.

(** [ctz_pos p] is the exponent of the largest power of two that divides
    [p]. *)
Lemma ctz_pos_spec p :
  exists q, Z.pos p = 2 ^ ctz_pos p * (2 * q + 1) /\ 0 <= q.
Proof.
  induction p as [p IH | p IH |].
  - exists (Z.pos p). cbn [ctz_pos]. rewrite Z.pow_0_r. lia.
  - destruct IH as (q & E & Hq). exists q. split; [|exact Hq].
    cbn [ctz_pos]. rewrite Z.pow_add_r by (pose proof (ctz_pos_nonneg p); lia).
    change (2 ^ 1) with 2. rewrite Pos2Z.inj_xO. rewrite E at 1. ring.
  - exists 0. simpl. split; lia.
Qed.

Lemma pow2_divides c d x :
  0 <= c <= d -> x mod 2 ^ d = 0 -> x mod 2 ^ c = 0.
Proof.
  intros Hcd H.
  assert (0 < 2 ^ c) by (apply Z.pow_pos_nonneg; lia).
  assert (0 < 2 ^ d) by (apply Z.pow_pos_nonneg; lia).
  apply Z.mod_divide in H; [|lia]. apply Z.mod_divide; [lia|].
  eapply Z.divide_trans; [|exact H].
  exists (2 ^ (d - c)). rewrite <- Z.pow_add_r by lia. f_equal. lia.
Qed.

Lemma ctzl_spec x c :
  ctzl x = Some c ->
  0 < x /\ 0 <= c /\ x mod 2 ^ c = 0 /\ x mod 2 ^ (c + 1) <> 0.
Proof.
  destruct x as [|p|p]; simpl; try discriminate.
  intros H. injection H as <-.
  destruct (ctz_pos_spec p) as (q & E & Hq).
  pose proof (ctz_pos_nonneg p) as Hc.
  assert (0 < 2 ^ ctz_pos p) as Hpow by (apply Z.pow_pos_nonneg; lia).
  split; [lia|]. split; [exact Hc|]. split.
  - rewrite E. rewrite Z.mul_comm. apply Z.mod_mul. lia.
  - rewrite Z.pow_add_r by lia. change (2 ^ 1) with 2.
    rewrite E. intros H.
    apply Z.mod_divide in H; [|lia]. destruct H as [k Hk].
    assert (2 * q + 1 = 2 * k) by nia. lia.
Qed.

Lemma wrap64_int size :
  - 2 ^ 31 <= size < 2 ^ 31 -> size <> 0 ->
  0 < wrap64 size < 2 ^ 64 /\
  forall k, 0 <= k <= 64 -> wrap64 size mod 2 ^ k = size mod 2 ^ k.
Proof.
  intros Hs Hne. unfold wrap64. split.
  - pose proof (Z.mod_pos_bound size (2 ^ 64) ltac:(lia)).
    assert (size mod 2 ^ 64 <> 0); [|lia].
    intros E. apply Z.mod_divide in E; [|lia]. destruct E as [k E].
    change (2 ^ 31) with 2147483648 in Hs.
    change (2 ^ 64) with 18446744073709551616 in E. lia.
  - intros k Hk.
    assert (0 < 2 ^ k) by (apply Z.pow_pos_nonneg; lia).
    replace (2 ^ 64) with (2 ^ k * 2 ^ (64 - k))
      by (rewrite <- Z.pow_add_r by lia; f_equal; lia).
    rewrite Z.rem_mul_r by (try lia; apply Z.pow_nonzero; lia).
    rewrite Z.mul_comm, Z.mod_add by lia. apply Z.mod_mod. lia.
Qed.

Lemma roundPowersList_spec size :
  - 2 ^ 31 <= size < 2 ^ 31 -> size <> 0 ->
  exists i, roundPowersList size = Some i /\ -4 <= i < 60 /\
            size mod 2 ^ (i + 4) = 0 /\ size mod 2 ^ (i + 5) <> 0 /\
            (in_bounds i = true <-> size mod 16 = 0 /\ size mod PAGE_SIZE <> 0).
Proof.
  intros Hs Hne.
  destruct (wrap64_int size Hs Hne) as [Hw Hmod].
  unfold roundPowersList.
  destruct (ctzl (wrap64 size)) as [c|] eqn:E.
  2:{ destruct (wrap64 size); simpl in E; try discriminate; lia. }
  destruct (ctzl_spec _ _ E) as (_ & Hc & Hdiv & Hndiv).
  assert (c < 64) as Hc64.
  { destruct (Z_lt_dec c 64) as [|Hge]; [assumption|exfalso].
    apply (pow2_divides 64 c) in Hdiv; [|lia].
    rewrite Z.mod_small in Hdiv by lia. lia. }
  rewrite Hmod in Hdiv by lia. rewrite Hmod in Hndiv by lia.
  exists (c - 4). split; [reflexivity|]. split; [lia|].
  replace (c - 4 + 4) with c by lia. replace (c - 4 + 5) with (c + 1) by lia.
  split; [exact Hdiv|]. split; [exact Hndiv|].
  unfold in_bounds, PAGE_SIZE. rewrite andb_true_iff, Z.leb_le, Z.ltb_lt.
  change 16 with (2 ^ 4). change 4096 with (2 ^ 12). split.
  - intros [H1 H2]. split.
    + apply (pow2_divides 4 c); [lia|exact Hdiv].
    + intros H. apply Hndiv. apply (pow2_divides (c + 1) 12); [lia|exact H].
  - intros [H1 H2]. split.
    + destruct (Z_le_dec 4 c) as [|Hlt]; [lia|exfalso].
      apply Hndiv. apply (pow2_divides (c + 1) 4); [lia|exact H1].
    + destruct (Z_lt_dec c 12) as [|Hge]; [lia|exfalso].
      apply H2. apply (pow2_divides 12 c); [lia|exact Hdiv].
Qed.

Lemma to_int_range z : - 2 ^ 31 <= to_int z < 2 ^ 31.
Proof.
  unfold to_int, signed.
  change (2 ^ (32 - 1)) with 2147483648. change (2 ^ 32) with 4294967296.
  change (2 ^ 31) with 2147483648.
  pose proof (Z.mod_pos_bound z 4294967296 ltac:(lia)).
  destruct (Z.ltb_spec (z mod 4294967296) 2147483648); lia.
Qed.

Lemma roundPowers_idempotent n :
  n <= 2048 -> roundPowers (roundPowers n) = roundPowers n.
Proof.
  intros Hn. unfold roundPowers.
  repeat match goal with
         | |- context [?a <=? ?b] => destruct (Z.leb_spec a b)
         end; try reflexivity; lia.
Qed.

(** ** Storing what is there; missing bytes *)

Lemma load_inv n m a v :
  load n m a = Some v ->
  range_mapped m a n = true /\ v = le_combine (read_bytes m a n).
Proof.
  unfold load. destruct (range_mapped m a n); [|discriminate].
  intros H. injection H as <-. split; reflexivity.
Qed.

Lemma read_bytes_length m a n : List.length (read_bytes m a n) = n.
Proof. unfold read_bytes. rewrite length_map, length_seq. reflexivity. Qed.

(** Storing the value that a location holds leaves every byte as it was. *)
Lemma store_back n m a v :
  load n m a = Some v ->
  exists m', store n m a v = Some m' /\ forall x, m' x = m x.
Proof.
  intros Hl. apply load_inv in Hl. destruct Hl as [R ->].
  unfold store. rewrite R. eexists. split; [reflexivity|].
  rewrite (split_le_combine' _ n) by apply read_bytes_length.
  intros x. unfold write_bytes. rewrite read_bytes_length.
  destruct (Z.leb_spec a x); destruct (Z.ltb_spec x (a + Z.of_nat n)); simpl;
    try reflexivity.
  unfold read_bytes. rewrite nth_map_seq by lia.
  rewrite Z2Nat.id by lia. replace (a + (x - a)) with x by lia.
  apply range_mapped_true with (i := x - a) in R; [|lia].
  unfold mapped in R. replace (a + (x - a)) with x in R by lia.
  destruct (m x); [reflexivity|contradiction].
Qed.

(** A store needs its bytes mapped. *)
Lemma store_unmapped n m a v i :
  0 <= i < Z.of_nat n -> m (a + i) = None -> store n m a v = None.
Proof.
  intros Hi Hm. unfold store.
  destruct (range_mapped m a n) eqn:E; [|reflexivity].
  apply range_mapped_true with (i := i) in E; [|exact Hi]. contradiction.
Qed.

Lemma load_unmapped n m a i :
  0 <= i < Z.of_nat n -> m (a + i) = None -> load n m a = None.
Proof.
  intros Hi Hm. unfold load.
  destruct (range_mapped m a n) eqn:E; [|reflexivity].
  apply range_mapped_true with (i := i) in E; [|exact Hi]. contradiction.
Qed.

Lemma list_set_twice l i v w : list_set (list_set l i v) i w = list_set l i w.
Proof.
  revert i. induction l as [|h t IH]; intros i; [reflexivity|].
  destruct i; simpl; [reflexivity|]. rewrite IH. reflexivity.
Qed.

Lemma list_set_same l i d : list_set l i (nth i l d) = l.
Proof.
  revert i. induction l as [|h t IH]; intros i; [reflexivity|].
  destruct i; simpl; [reflexivity|]. rewrite IH. reflexivity.
Qed.

(** ** The list of a class *)

Lemma chain_functional m h l1 :
  chain m h l1 -> forall l2, chain m h l2 -> l1 = l2.
Proof.
  intros H. induction H as [|b nxt l Hb Hl Hch IH]; intros l2 H2.
  - inversion H2 as [|b nxt l Hb Hl Hch]; [reflexivity|]. congruence.
  - inversion H2 as [E|b' nxt' l' Hb' Hl' Hch' E1 E2]; [congruence|].
    subst. f_equal. apply IH. congruence.
Qed.

Lemma list_of_cons_inv st s b l :
  list_of st s (b :: l) ->
  head_of st s = b /\ b <> NULL /\
  exists nxt, load 8 (mem st) b = Some nxt /\ chain (mem st) nxt l.
Proof.
  unfold list_of. intros Hch.
  inversion Hch as [|b' nxt l' Hb Hl Hrest E1 E2]. subst.
  split; [reflexivity|]. split; [exact Hb|]. exists nxt. split; assumption.
Qed.

Lemma chain_b_true m l : forall h, chain_b m h l = true -> chain m h l.
Proof.
  induction l as [|b l IH]; intros h; simpl.
  - intros H. apply Z.eqb_eq in H. subst h. constructor.
  - rewrite !andb_true_iff. intros [[H1 H2] H3].
    apply Z.eqb_eq in H1. subst h.
    destruct (load 8 m b) as [nxt|] eqn:E; [|discriminate].
    apply chain_cons with (nxt := nxt); [|exact E|apply IH; exact H3].
    intros Hb. rewrite Hb in H2. discriminate.
Qed.

Lemma wf_list_of st s :
  wf st -> is_class s ->
  exists l, list_of st s l /\ NoDup l /\ Forall (is_block (mem st) s) l.
Proof. intros [_ H] Hc. exact (H s Hc). Qed.

Lemma wf_list_blocks st s l :
  wf st -> is_class s -> list_of st s l ->
  NoDup l /\ Forall (is_block (mem st) s) l.
Proof.
  intros Hwf Hc Hl. destruct (wf_list_of st s Hwf Hc) as (l0 & Hl0 & Hnd & Hf).
  rewrite (chain_functional _ _ _ Hl _ Hl0). split; assumption.
Qed.

(** ** Blocks and pages *)

Lemma page_of_low p :
  0 <= p -> 0 <= page_of p <= p /\ p < page_of p + PAGE_SIZE.
Proof.
  intros Hp. unfold page_of, PAGE_SIZE.
  pose proof (Z.mod_pos_bound p 4096 ltac:(lia)).
  pose proof (Z.mod_le p 4096 ltac:(lia) ltac:(lia)). lia.
Qed.

Lemma page_of_within pg x :
  pg mod PAGE_SIZE = 0 -> pg <= x < pg + PAGE_SIZE -> page_of x = pg.
Proof.
  unfold page_of, PAGE_SIZE. intros Hpg Hx.
  Z.div_mod_to_equations. lia.
Qed.

Lemma class_multiple_of_16 s p : is_class s -> p mod s = 0 -> p mod 16 = 0.
Proof.
  intros Hc Hp. each_class Hc; Z.div_mod_to_equations; lia.
Qed.

Lemma block_in_page m s b :
  is_class s -> is_block m s b ->
  page_of b + s <= b /\ b + s <= page_of b + PAGE_SIZE /\ b + s <= 2 ^ 63.
Proof.
  intros Hc (Hb & _ & _ & Ho & Hal).
  pose proof (block_offset_bounds s b Hc Ho Hal) as Hbound. clear Hal.
  unfold page_of, PAGE_SIZE in *.
  change (2 ^ 63) with 9223372036854775808 in *.
  Z.div_mod_to_equations. lia.
Qed.

Lemma pages_apart a b :
  a mod PAGE_SIZE = 0 -> b mod PAGE_SIZE = 0 -> a <> b ->
  a + PAGE_SIZE <= b \/ b + PAGE_SIZE <= a.
Proof.
  unfold PAGE_SIZE. intros Ha Hb Hne.
  apply Z.mod_divide in Ha; [|lia]. apply Z.mod_divide in Hb; [|lia].
  destruct Ha as [x ->], Hb as [y ->]. lia.
Qed.

(** Two distinct blocks do not overlap. *)
Lemma blocks_disjoint m s t p q :
  is_class s -> is_class t ->
  is_block m s p -> is_block m t q -> p <> q ->
  p + s <= q \/ q + t <= p.
Proof.
  intros Hs Ht Hp Hq Hne.
  destruct (Z.eq_dec (page_of p) (page_of q)) as [E | E].
  - assert (s = t).
    { destruct Hp as (_ & _ & (_ & H1) & _), Hq as (_ & _ & (_ & H2) & _).
      rewrite E in H1. congruence. }
    subst t. destruct (class_facts s Hs) as (Hs16 & _).
    apply aligned_disjoint; try assumption; try lia.
    + eapply is_block_aligned; eassumption.
    + eapply is_block_aligned; eassumption.
  - pose proof (block_in_page _ _ _ Hs Hp).
    pose proof (block_in_page _ _ _ Ht Hq).
    destruct (class_facts s Hs) as (Hs16 & _).
    destruct (class_facts t Ht) as (Ht16 & _).
    destruct (pages_apart _ _ (page_of_aligned p) (page_of_aligned q) E); lia.
Qed.

Lemma is_block_b_true m s b : is_block_b m s b = true -> is_block m s b.
Proof.
  unfold is_block_b. rewrite !andb_true_iff.
  intros ((((((H1 & H2) & H3) & H4) & H5) & H6) & H7).
  apply Z.ltb_lt in H1, H2. apply Z.leb_le in H6. apply Z.eqb_eq in H7.
  split; [lia|]. split; [|split; [split|split; assumption]].
  - intros x Hx. replace x with (page_of b + (x - page_of b)) by lia.
    apply (proj1 (range_mapped_true _ _ _) H3).
    unfold PAGE_SIZE in *. simpl. lia.
  - destruct (load 4 m (page_of b)); [|discriminate].
    apply Z.eqb_eq in H4. congruence.
  - destruct (load 8 m (page_of b + 8)); [|discriminate].
    apply Z.eqb_eq in H5. congruence.
Qed.

(** A block that does not start in a page-aligned region lies, with its
    page, outside of it. *)
Lemma block_page_outside m s b r len :
  is_class s -> is_block m s b ->
  r mod PAGE_SIZE = 0 -> len mod PAGE_SIZE = 0 ->
  b < r \/ r + len <= b ->
  page_of b + PAGE_SIZE <= r \/ r + len <= page_of b.
Proof.
  intros Hc Hblk Hal Hlen Hout.
  destruct (block_in_page _ _ _ Hc Hblk) as (Hlo & Hin & _).
  destruct (class_facts s Hc) as (Hs & _).
  pose proof (page_of_aligned b) as Hpa.
  unfold page_of, PAGE_SIZE in *. Z.div_mod_to_equations. lia.
Qed.

(** ** [xxfree] and the recorded size; the failed oversized request *)

(** [xxfree] on a pointer whose page carries the sentinel: what the
    recorded size decides. *)
Lemma xxfree_header_size st ptr tag block_size :
  ptr <> NULL ->
  load 4 (mem st) (page_start ptr) = Some tag ->
  to_int tag = MAGIC_NUMBER ->
  load 8 (mem st) (ptr_add (page_start ptr) 8) = Some block_size ->
  block_size <> wrap64 (-1) ->
  xxfree ptr st =
  (index <- roundPowersList_st (to_int block_size) ;;
   head <- fl_get index ;;
   l <- addFirst head ptr ;;
   fl_set index l) st.
Proof.
  intros Hp Ht Hm Hb Hne. unfold xxfree.
  pose proof Hp as Hp'. apply Z.eqb_neq in Hp'. rewrite Hp'.
  erewrite bind_Ret by (eapply usable_size_match; eassumption).
  apply Z.eqb_neq in Hne. rewrite Hne. reflexivity.
Qed.

(** The failed mapping of an oversized region: the diagnostic is written,
    and a second one if the first write was short; the exit code is 2 both
    ways. *)
Lemma xxmalloc_oversized_failure n os st :
  2048 < n -> mmap_ret os = MAP_FAILED ->
  xxmalloc n os st
  = Exit 2 (mkState (freelists st) (mem st)
                    (trace st ++ oversized_failure_events (ROUND_UP n PAGE_SIZE)
                                                          (write_ret os))).
Proof.
  intros Hn Hf. unfold xxmalloc. destruct (Z.gtb_spec n 2048); [|lia].
  unfold bind at 1. unfold mmap. rewrite Hf.
  change (MAP_FAILED =? MAP_FAILED) with true. cbv iota.
  unfold log_message, oversized_failure_events.
  change (string_length ("mmap failed! Giving up." ++ newline)) with 24.
  unfold bind, emit, exit_, ret.
  destruct (write_ret os =? 24); cbn [negb freelists mem trace];
    rewrite <- !app_assoc; reflexivity.
Qed.

(** ** What [xxmalloc] and [xxfree] do to the lists *)

(** What a returning [xxmalloc] does to the free lists. *)
Lemma xxmalloc_lists st n os p st' :
  wf st -> os_ok (OpMalloc n os) st -> xxmalloc n os st = Ret p st' ->
  extends (mem st) (mem st') /\
  (forall t lt, is_class t -> 2048 < n \/ t <> roundPowers n ->
                list_of st t lt -> list_of st' t lt) /\
  (2048 < n ->
   mmap_ret os <> MAP_FAILED /\ p = mmap_ret os /\
   mem st' = map_zero (mem st) (mmap_ret os) (ROUND_UP n PAGE_SIZE)) /\
  (n <= 2048 ->
   is_block (mem st') (roundPowers n) p /\
   exists l',
     list_of st' (roundPowers n) l' /\
     ((list_of st (roundPowers n) (p :: l') /\ mem st' = mem st /\ trace st' = trace st) \/
      (list_of st (roundPowers n) [] /\ mmap_ret os <> MAP_FAILED /\
       p :: l' = page_blocks (mmap_ret os) (roundPowers n) /\
       forall x, mmap_ret os <= x < mmap_ret os + PAGE_SIZE -> mem st x = None))).
Proof.
  intros Hwf Hos Hrun. pose proof Hwf as [Hlen Hall]. pose proof Hos as [Hn Hok].
  unfold list_of.
  destruct (xxmalloc_cases _ _ _ _ _ Hos Hlen Hrun)
    as [(Hbig & Ef & -> & ->)
       | [(Hsmall & Hh & -> & nxt & Hl & ->)
         | (Hsmall & Hh & Ef & -> & m' & nxt & Hcarved & Hl & ->)]];
    cbn [freelists mem trace].
  - destruct (Z.gtb_spec n 2048); [|lia].
    destruct (mmap_ok_fresh _ _ _ Hok Ef) as (_ & _ & _ & _ & Hfree).
    pose proof (map_zero_extends _ _ _ Hfree) as Hext.
    split; [exact Hext|]. split; [|split; [|lia]].
    + intros t lt _ _ Hch. unfold head_of. cbn [freelists].
      eapply chain_extends; eassumption.
    + intros _. split; [exact Ef|]. split; reflexivity.
  - pose proof (roundPowers_class n ltac:(lia)) as Hcn.
    split; [apply extends_refl|]. split; [|split; [lia|]].
    + intros t lt Ht [Hbig | Hne] Hch; [lia|].
      rewrite head_of_set_other by (try assumption; congruence). exact Hch.
    + intros _.
      destruct (wf_list_of st _ Hwf Hcn) as (l & Hch & Hnd & Hf).
      unfold list_of in Hch.
      inversion Hch as [E | b nxt' l' Hb Hl' Hrest E1 E2]; [congruence|].
      subst l. assert (nxt' = nxt) by congruence. subst nxt'.
      split; [inversion Hf; assumption|].
      exists l'. split.
      * rewrite head_of_set_same by assumption. exact Hrest.
      * left. split; [exact Hch|]. split; reflexivity.
  - pose proof (roundPowers_class n ltac:(lia)) as Hcn.
    destruct (Z.gtb_spec n 2048); [lia|].
    destruct (mmap_ok_fresh _ _ _ Hok Ef) as (_ & Hr & Hal & Hhi & Hfree).
    pose proof (carved_extends _ _ _ _ Hfree Hcarved) as Hext.
    split; [exact Hext|]. split; [|split; [lia|]].
    + intros t lt Ht [Hbig | Hne] Hch; [lia|].
      rewrite head_of_set_other by (try assumption; congruence).
      eapply chain_extends; eassumption.
    + intros _.
      pose proof (carved_chain _ _ _ _ Hcn Hr Hcarved) as Hch.
      pose proof (carved_blocks _ _ _ _ Hcn Hr Hal Hhi Hcarved) as Hf.
      destruct (class_facts _ Hcn) as (Hs & _).
      inversion Hch as [E | b nxt' l' Hb Hl' Hrest E1 E2]; [unfold NULL in E; lia|].
      assert (nxt' = nxt) by congruence. subst nxt'.
      rewrite <- E2 in Hf.
      split; [inversion Hf; assumption|].
      exists l'. split.
      * rewrite head_of_set_same by assumption. exact Hrest.
      * right. split; [rewrite Hh; constructor|]. split; [exact Ef|].
        split; [reflexivity|exact Hfree].
Qed.

(** What the free of a block in use does to the free lists. *)
Lemma xxfree_lists st s p l :
  wf st -> is_class s -> is_block (mem st) s p ->
  list_of st s l -> ~ In p l ->
  exists st',
    xxfree p st = Ret tt st' /\ wf st' /\
    list_of st' s (p :: l) /\
    trace st' = trace st /\
    (forall x, x < p \/ p + 8 <= x -> mem st' x = mem st x) /\
    (forall t b, is_class t -> is_block (mem st) t b -> is_block (mem st') t b) /\
    (forall t lt, is_class t -> t <> s -> list_of st t lt -> list_of st' t lt).
Proof.
  intros Hwf Hc Hp Hl Hnin. pose proof Hwf as [Hlen _].
  destruct (wf_list_blocks st s l Hwf Hc Hl) as [Hnd Hf].
  destruct (wf_xxfree st s p Hwf Hc Hp) as (st' & Hrun & Hwf').
  { intros l0 Hl0. rewrite (chain_functional _ _ _ Hl0 _ Hl). exact Hnin. }
  pose proof (store_succeeds 8 (mem st) p (head_of st s)) as Hst.
  specialize (Hst (is_block_link_mapped _ _ _ Hc Hp)).
  rewrite (xxfree_push st p s _ Hc (is_block_in_page _ _ _ Hp) Hst) in Hrun.
  injection Hrun as <-.
  eexists. split; [apply (xxfree_push st p s _ Hc (is_block_in_page _ _ _ Hp) Hst)|].
  split; [exact Hwf'|]. unfold list_of in *. cbn [freelists mem trace].
  split; [|split; [reflexivity|split; [|split]]].
  - rewrite head_of_set_same by assumption.
    apply chain_cons with (nxt := head_of st s).
    + destruct Hp as [? _]. unfold NULL. lia.
    + rewrite (store_load_same _ _ _ _ _ Hst). f_equal.
      apply Z.mod_small.
      inversion Hl as [E | b nxt l' Hb Hl' Hrest E1 E2].
      * unfold NULL. simpl. lia.
      * subst l. inversion Hf as [|? ? (Hb1 & _) _]; subst. simpl. lia.
    + eapply store_keeps_chain; try eassumption.
  - intros x Hx. eapply store_outside; [exact Hst|]. simpl. lia.
  - intros t b Ht Hb. apply (store_keeps_block _ _ p _ s t b Hc Ht Hp Hst Hb).
  - intros t lt Ht Hne Hlt.
    destruct (wf_list_blocks st t lt Hwf Ht Hlt) as [_ Hft].
    rewrite head_of_set_other by (try assumption; congruence).
    eapply (store_keeps_chain _ _ _ _ s t); try eassumption.
    intros Hin. apply Hne. symmetry. rewrite Forall_forall in Hft.
    eapply is_block_class_unique; [exact Hp|]. apply Hft. exact Hin.
Qed.

(** Popping [ps] off a list that starts with [ps]. *)
Lemma xxmalloc_many_pops n :
  0 <= n <= 2048 ->
  forall ps oss st l,
    List.length (freelists st) = 8%nat ->
    list_of st (roundPowers n) (ps ++ l) ->
    List.length oss = List.length ps ->
    exists st',
      xxmalloc_many n oss st = Ret ps st' /\
      list_of st' (roundPowers n) l /\
      List.length (freelists st') = 8%nat /\
      mem st' = mem st /\ trace st' = trace st /\
      forall t, is_class t -> t <> roundPowers n -> head_of st' t = head_of st t.
Proof.
  intros Hn. pose proof (roundPowers_class n ltac:(lia)) as Hc.
  induction ps as [|b ps IH]; intros oss st l Hlen Hl Hk.
  - destruct oss; [|discriminate]. exists st. simpl. unfold ret.
    repeat split; try reflexivity; assumption.
  - destruct oss as [|os oss]; [discriminate|].
    simpl in Hl.
    destruct (list_of_cons_inv _ _ _ _ Hl) as (Hh & Hb & nxt & Hld & Hrest).
    subst b.
    pose proof (xxmalloc_pop n os st nxt Hn Hb Hld) as Hrun.
    set (st1 := mkState (list_set (freelists st)
                                  (Z.to_nat (class_index (roundPowers n))) nxt)
                        (mem st) (trace st)) in *.
    destruct (IH oss st1 l) as (st' & Hrun' & Hl' & Hlen' & Hm' & Ht' & Ho').
    + unfold st1. cbn [freelists]. rewrite list_set_length. exact Hlen.
    + unfold list_of, st1. cbn [mem]. rewrite head_of_set_same by assumption.
      exact Hrest.
    + simpl in Hk. lia.
    + exists st'. split.
      { cbn [xxmalloc_many]. unfold bind at 1. rewrite Hrun.
        unfold bind. rewrite Hrun'. reflexivity. }
      split; [exact Hl'|]. split; [exact Hlen'|].
      split; [exact Hm'|]. split; [exact Ht'|].
      intros t Ht Hne. rewrite Ho' by assumption.
      unfold st1. apply head_of_set_other; try assumption. congruence.
Qed.

(** The fresh page of a carve serves the next allocations of the class in
    the order of the addresses. *)
Lemma fresh_page_order n os oss st :
  0 <= n <= 2048 ->
  List.length (freelists st) = 8%nat ->
  head_of st (roundPowers n) = NULL ->
  mmap_ok (mem st) PAGE_SIZE (mmap_ret os) = true ->
  mmap_ret os <> MAP_FAILED ->
  Z.of_nat (List.length oss) < blocksPerPage (roundPowers n) ->
  exists st',
    xxmalloc_many n (os :: oss) st
    = Ret (firstn (S (List.length oss)) (page_blocks (mmap_ret os) (roundPowers n))) st' /\
    list_of st' (roundPowers n)
            (skipn (S (List.length oss)) (page_blocks (mmap_ret os) (roundPowers n))) /\
    trace st' = (trace st ++ [EvMmap PAGE_SIZE MAP_ANONYMOUS_SHARED (mmap_ret os)])%list.
Proof.
  intros Hn Hlen Hh Hok Hne Hk.
  pose proof (roundPowers_class n ltac:(lia)) as Hc.
  destruct (xxmalloc_carve n os st Hn Hlen Hh Hok Hne)
    as (m' & nxt & Hrun & Hcarved & Hnxt).
  destruct (mmap_ok_fresh _ _ _ Hok Hne) as (_ & Hr & _ & _ & _).
  pose proof (carved_chain _ _ _ _ Hc Hr Hcarved) as Hch.
  pose proof (blocks_from_length (mmap_ret os + roundPowers n) (roundPowers n)
                (Z.to_nat (blocksPerPage (roundPowers n)))) as Hblen.
  fold (page_blocks (mmap_ret os) (roundPowers n)) in Hblen.
  destruct (class_facts _ Hc) as (Hs & _).
  inversion Hch as [E | b nxt' l1 Hb Hl Hrest E1 E2]; [unfold NULL in E; lia|].
  assert (nxt' = nxt) by congruence. subst nxt'.
  rewrite <- E2 in Hblen. simpl List.length in Hblen.
  set (st1 := mkState (list_set (freelists st)
                                (Z.to_nat (class_index (roundPowers n))) nxt)
                      m'
                      (trace st ++ [EvMmap PAGE_SIZE MAP_ANONYMOUS_SHARED (mmap_ret os)]))
    in *.
  set (k := List.length oss) in *.
  destruct (xxmalloc_many_pops n Hn (firstn k l1) oss st1 (skipn k l1))
    as (st' & Hrun' & Hl' & _ & _ & Htr & _).
  - unfold st1. cbn [freelists]. rewrite list_set_length. exact Hlen.
  - rewrite firstn_skipn. unfold list_of, st1. cbn [mem].
    rewrite head_of_set_same by assumption. exact Hrest.
  - rewrite firstn_length_le by lia. reflexivity.
  - exists st'. split; [|split; [exact Hl'|exact Htr]].
    cbn [xxmalloc_many]. unfold bind at 1. rewrite Hrun.
    unfold bind. rewrite Hrun'. reflexivity.
Qed.

(** ** Blocks in use along a run *)

(** A live block stays live, and keeps its bytes, over a valid operation
    that is not its free. *)
Lemma live_step s p o st st' :
  is_class s -> wf st -> live st s p -> keeps_live p o st ->
  run_op o st = Ret tt st' ->
  live st' s p /\ forall x, p <= x < p + s -> mem st' x = mem st x.
Proof.
  intros Hc Hwf [Hblk Hfree] [[Hos Hval] Hne] Hrun.
  destruct (class_facts s Hc) as (Hs & _).
  destruct (wf_list_of st s Hwf Hc) as (l0 & Hl0 & Hnd0 & Hf0).
  pose proof (Hfree l0 Hl0) as Hnin0.
  destruct o as [n os | q | q].
  - unfold run_op, bind in Hrun.
    destruct (xxmalloc n os st) as [r st1| | |] eqn:E; try discriminate.
    unfold ret in Hrun. injection Hrun as <-.
    destruct (xxmalloc_lists _ _ _ _ _ Hwf Hos E) as (Hext & Hoth & _ & Hsmall).
    split; [split|].
    + eapply is_block_extends; eassumption.
    + intros l Hl.
      destruct (Z_lt_dec 2048 n) as [Hbig | Hle].
      { pose proof (Hoth s l0 Hc (or_introl Hbig) Hl0) as Hl0'.
        rewrite (chain_functional _ _ _ Hl _ Hl0'). exact Hnin0. }
      destruct (Z.eq_dec s (roundPowers n)) as [-> | Hd].
      * destruct (Hsmall ltac:(lia)) as (_ & l' & Hl' & Hcase).
        rewrite (chain_functional _ _ _ Hl _ Hl').
        destruct Hcase as [(Hold & _) | (_ & _ & Hpb & Hfresh)].
        -- rewrite (chain_functional _ _ _ Hl0 _ Hold) in Hnin0.
           intros Hin. apply Hnin0. right. exact Hin.
        -- intros Hin.
           apply (page_blocks_fresh (mem st) (mmap_ret os) (roundPowers n) p Hc Hfresh).
           ++ rewrite <- Hpb. right. exact Hin.
           ++ replace p with (p + 0) by lia.
              apply (is_block_readable _ _ _ Hc Hblk). lia.
      * pose proof (Hoth s l0 Hc (or_intror Hd) Hl0) as Hl0'.
        rewrite (chain_functional _ _ _ Hl _ Hl0'). exact Hnin0.
    + intros x Hx. apply Hext.
      replace x with (p + (x - p)) by lia.
      apply (is_block_readable _ _ _ Hc Hblk). lia.
  - unfold run_op in Hrun.
    destruct Hval as [-> | (t & Ht & Hq & Hqfree)].
    { unfold xxfree in Hrun. rewrite Z.eqb_refl in Hrun.
      unfold ret in Hrun. injection Hrun as <-.
      split; [split; assumption|reflexivity]. }
    assert (q <> p) as Hqp by congruence.
    destruct (wf_list_of st t Hwf Ht) as (lq & Hlq & _ & _).
    destruct (xxfree_lists st t q lq Hwf Ht Hq Hlq (Hqfree lq Hlq))
      as (st1 & Hrun1 & _ & Hpush & _ & Hout & Hkeep & Hoth).
    rewrite Hrun1 in Hrun. injection Hrun as <-.
    destruct (class_facts t Ht) as (Ht16 & _).
    split; [split|].
    + apply Hkeep; assumption.
    + intros l Hl.
      destruct (Z.eq_dec t s) as [-> | Hd].
      * rewrite (chain_functional _ _ _ Hl _ Hpush).
        rewrite (chain_functional _ _ _ Hl0 _ Hlq) in Hnin0.
        intros [Hin | Hin]; [contradiction|]. apply Hnin0. exact Hin.
      * pose proof (Hoth s l0 Hc ltac:(congruence) Hl0) as Hl0'.
        rewrite (chain_functional _ _ _ Hl _ Hl0'). exact Hnin0.
    + intros x Hx. apply Hout.
      destruct (blocks_disjoint _ _ _ _ _ Hc Ht Hblk Hq ltac:(congruence)); lia.
  - unfold run_op, bind in Hrun.
    destruct (xxmalloc_usable_size q st) as [v st1| | |] eqn:E; try discriminate.
    apply usable_size_state in E. subst st1.
    unfold ret in Hrun. injection Hrun as <-.
    split; [split; assumption|reflexivity].
Qed.

Lemma live_steps s p st ops st' :
  is_class s -> steps (keeps_live p) st ops st' -> wf st -> live st s p ->
  wf st' /\ live st' s p /\ forall x, p <= x < p + s -> mem st' x = mem st x.
Proof.
  intros Hc H. induction H as [st | st o st1 ops st2 HP Hrun Hsteps IH];
    intros Hwf Hlive.
  - split; [exact Hwf|]. split; [exact Hlive|reflexivity].
  - destruct (live_step s p o st st1 Hc Hwf Hlive HP Hrun) as [Hlive1 Hb1].
    destruct HP as [Hval _].
    pose proof (wf_step _ _ _ Hval Hwf Hrun) as Hwf1.
    destruct (IH Hwf1 Hlive1) as (Hwf2 & Hlive2 & Hb2).
    split; [exact Hwf2|]. split; [exact Hlive2|].
    intros x Hx. rewrite Hb2 by exact Hx. apply Hb1. exact Hx.
Qed.

(** The block that [xxmalloc] returns is live. *)
Lemma xxmalloc_live st n os p st' :
  wf st -> os_ok (OpMalloc n os) st -> n <= 2048 ->
  xxmalloc n os st = Ret p st' ->
  wf st' /\ live st' (roundPowers n) p.
Proof.
  intros Hwf Hos Hn Hrun. pose proof Hos as [Hn0 _].
  pose proof (roundPowers_class n Hn) as Hc.
  pose proof (wf_xxmalloc _ _ _ _ _ Hwf Hos Hrun) as Hwf'.
  split; [exact Hwf'|].
  destruct (xxmalloc_lists _ _ _ _ _ Hwf Hos Hrun) as (_ & _ & _ & Hsmall).
  destruct (Hsmall Hn) as (Hblk & l' & Hl' & Hcase).
  split; [exact Hblk|].
  intros l Hl. rewrite (chain_functional _ _ _ Hl _ Hl').
  destruct Hcase as [(Hold & _) | (_ & _ & Hpb & _)].
  - destruct (wf_list_blocks st _ _ Hwf Hc Hold) as [Hnd _].
    inversion Hnd. assumption.
  - destruct (class_facts _ Hc) as (Hs & _).
    pose proof (blocks_from_NoDup (mmap_ret os + roundPowers n) (roundPowers n)
                  (Z.to_nat (blocksPerPage (roundPowers n))) ltac:(lia)) as Hnd.
    fold (page_blocks (mmap_ret os) (roundPowers n)) in Hnd.
    rewrite <- Hpb in Hnd. inversion Hnd. assumption.
Qed.

(** ** Oversized regions along a run *)

(** What the stores of a run leave at an address depends on that address
    only. *)
Lemma program_stores_local acts : forall m m' x,
  m x = m' x -> program_stores acts m x = program_stores acts m' x.
Proof.
  induction acts as [|[o | a bs] acts IH]; intros m m' x E; simpl.
  - exact E.
  - apply IH. exact E.
  - apply IH. unfold write_bytes.
    destruct ((a <=? x) && (x <? a + Z.of_nat (List.length bs))); [reflexivity|exact E].
Qed.

(** A store that leaves a page header alone keeps the blocks of the page. *)
Lemma write_keeps_block m a bs s b :
  (forall i, 0 <= i < Z.of_nat (List.length bs) -> mapped m (a + i)) ->
  is_block m s b ->
  a + Z.of_nat (List.length bs) <= page_of b \/ page_of b + 16 <= a ->
  is_block (write_bytes m a bs) s b.
Proof.
  intros Hm (Hb & Hpm & (Hmg & Hsz) & Ho & Hal) Hout.
  split; [exact Hb|]. split; [|split; [split|split; assumption]].
  - intros x Hx. apply write_bytes_mapped; [exact Hm|]. apply Hpm. exact Hx.
  - rewrite <- Hmg. apply load_ext. intros i Hi. simpl in Hi.
    apply write_bytes_outside. lia.
  - rewrite <- Hsz. apply load_ext. intros i Hi. simpl in Hi.
    apply write_bytes_outside. lia.
Qed.

(** A store that leaves the links of a list alone keeps the list. *)
Lemma write_keeps_chain m a bs h l :
  chain m h l ->
  (forall b, In b l -> a + Z.of_nat (List.length bs) <= b \/ b + 8 <= a) ->
  chain (write_bytes m a bs) h l.
Proof.
  intros Hch. induction Hch as [|b nxt l Hb Hl Hch IH]; intros Hout.
  - constructor.
  - apply chain_cons with (nxt := nxt); [exact Hb| |].
    + rewrite <- Hl. apply load_ext. intros i Hi. simpl in Hi.
      apply write_bytes_outside.
      destruct (Hout b (or_introl eq_refl)); lia.
    + apply IH. intros b' Hin. apply Hout. right. exact Hin.
Qed.

(** A store that leaves the free lists alone keeps the invariant and every
    list. *)
Lemma store_keeps_lists st a bs :
  wf st ->
  (forall i, 0 <= i < Z.of_nat (List.length bs) -> mapped (mem st) (a + i)) ->
  clear_of_free_lists a (Z.of_nat (List.length bs)) st ->
  let st' := mkState (freelists st) (write_bytes (mem st) a bs) (trace st) in
  wf st' /\ forall s l, is_class s -> list_of st s l -> list_of st' s l.
Proof.
  intros Hwf Hm Hclear st'.
  assert (forall s l, is_class s -> list_of st s l -> list_of st' s l) as Hlists.
  { intros s l Hc Hl. unfold list_of, st', head_of in *. cbn [freelists mem].
    apply write_keeps_chain; [exact Hl|].
    intros b Hin. apply (Hclear s l b Hc Hl Hin). }
  split; [|exact Hlists].
  destruct Hwf as [Hlen Hall]. split; [exact Hlen|].
  intros s Hc. destruct (Hall s Hc) as (l & Hch & Hnd & Hf).
  exists l. split; [apply (Hlists s l Hc Hch)|]. split; [exact Hnd|].
  apply Forall_forall. intros b Hin. rewrite Forall_forall in Hf.
  unfold st'. cbn [mem]. apply write_keeps_block; [exact Hm|apply Hf; exact Hin|].
  apply (Hclear s l b Hc Hch Hin).
Qed.

(** A store into a block in use leaves the free lists alone. *)
Lemma live_store_clear st s p a n :
  wf st -> is_class s -> live st s p ->
  p <= a -> a + n <= p + s ->
  clear_of_free_lists a n st.
Proof.
  intros Hwf Hc [Hblk Hfree] Ha Hn t l b Ht Hl Hin.
  destruct (wf_list_blocks st t l Hwf Ht Hl) as [_ Hf].
  rewrite Forall_forall in Hf. specialize (Hf b Hin).
  assert (p <> b) as Hne.
  { intros <-.
    assert (s = t) by (eapply is_block_class_unique; eassumption).
    subst t. exact (Hfree l Hl Hin). }
  destruct (block_in_page _ _ _ Hc Hblk) as (Hplo & Hphi & _).
  destruct (block_in_page _ _ _ Ht Hf) as (Hblo & Hbhi & _).
  destruct (class_facts s Hc) as (Hs & _).
  destruct (class_facts t Ht) as (Ht16 & _).
  split.
  - destruct (Z.eq_dec (page_of p) (page_of b)) as [E | E].
    + right. lia.
    + destruct (pages_apart _ _ (page_of_aligned p) (page_of_aligned b) E);
        unfold PAGE_SIZE in *; lia.
  - destruct (blocks_disjoint _ _ _ _ _ Hc Ht Hblk Hf Hne); lia.
Qed.

(** A store into the region leaves the free lists alone. *)
Lemma region_store_clear r len st a n :
  r mod PAGE_SIZE = 0 -> len mod PAGE_SIZE = 0 ->
  region_kept r len st ->
  r <= a -> a + n <= r + len ->
  clear_of_free_lists a n st.
Proof.
  intros Hal Hlen (Hwf & _ & Hout) Ha Hn s l b Hc Hl Hin.
  destruct (wf_list_blocks st s l Hwf Hc Hl) as [_ Hf].
  rewrite Forall_forall in Hf. specialize (Hf b Hin).
  pose proof (block_page_outside _ _ _ _ _ Hc Hf Hal Hlen (Hout s l b Hc Hl Hin)) as Hpg.
  destruct (block_in_page _ _ _ Hc Hf) as (Hlo & Hhi & _).
  destruct (class_facts s Hc) as (Hs & _).
  unfold PAGE_SIZE in *. lia.
Qed.

(** One action of the program keeps [region_kept], and the allocator's
    part of it leaves the bytes of the region as they are. *)
Lemma region_use_step r len act st st' :
  r mod PAGE_SIZE = 0 -> len mod PAGE_SIZE = 0 ->
  region_kept r len st ->
  region_use r len act st ->
  run_action act st = Ret tt st' ->
  region_kept r len st' /\
  forall x, r <= x < r + len ->
            mem st' x = program_stores [act] (mem st) x.
Proof.
  intros Hal Hlen Hk Huse Hrun. pose proof Hk as (Hwf & Hmap & Hout).
  destruct act as [o | a bs]; cbn [run_action program_stores] in *.
  - destruct Huse as [Hval Hnot].
    pose proof (wf_step _ _ _ Hval Hwf Hrun) as Hwf'.
    destruct Hval as [Hos Hval]. destruct o as [n os | q | q].
    + unfold run_op, bind in Hrun.
      destruct (xxmalloc n os st) as [p st1| | |] eqn:E; try discriminate.
      unfold ret in Hrun. injection Hrun as <-.
      destruct (xxmalloc_lists _ _ _ _ _ Hwf Hos E) as (Hext & Hoth & _ & Hsmall).
      assert (forall x, r <= x < r + len -> mem st1 x = mem st x) as Hsame.
      { intros x Hx. apply Hext. apply Hmap. exact Hx. }
      split; [|exact Hsame].
      split; [exact Hwf'|]. split.
      { intros x Hx. unfold mapped. rewrite Hsame by exact Hx. apply Hmap. exact Hx. }
      intros s l b Hc Hl Hin.
      destruct (wf_list_of st s Hwf Hc) as (l0 & Hl0 & _ & _).
      destruct (Z_lt_dec 2048 n) as [Hbig | Hle].
      { pose proof (Hoth s l0 Hc (or_introl Hbig) Hl0) as Hl0'.
        rewrite (chain_functional _ _ _ Hl _ Hl0') in Hin.
        apply (Hout s l0 b Hc Hl0 Hin). }
      destruct (Z.eq_dec s (roundPowers n)) as [-> | Hd].
      * destruct (Hsmall ltac:(lia)) as (_ & l' & Hl' & Hcase).
        rewrite (chain_functional _ _ _ Hl _ Hl') in Hin.
        destruct Hcase as [(Hold & _) | (_ & _ & Hpb & Hfresh)].
        -- apply (Hout _ _ b Hc Hold). right. exact Hin.
        -- destruct (Z_lt_dec b r) as [|H1]; [left; assumption|].
           destruct (Z_le_dec (r + len) b) as [|H2]; [right; assumption|].
           exfalso.
           apply (page_blocks_fresh (mem st) (mmap_ret os) (roundPowers n) b Hc Hfresh).
           ++ rewrite <- Hpb. right. exact Hin.
           ++ apply Hmap. lia.
      * pose proof (Hoth s l0 Hc (or_intror Hd) Hl0) as Hl0'.
        rewrite (chain_functional _ _ _ Hl _ Hl0') in Hin.
        apply (Hout s l0 b Hc Hl0 Hin).
    + unfold run_op in Hrun.
      destruct Hval as [-> | (t & Ht & Hblk & Hfree)].
      { unfold xxfree in Hrun. rewrite Z.eqb_refl in Hrun.
        unfold ret in Hrun. injection Hrun as <-.
        split; [exact Hk|reflexivity]. }
      destruct (wf_list_of st t Hwf Ht) as (lq & Hlq & _ & _).
      destruct (xxfree_lists st t q lq Hwf Ht Hblk Hlq (Hfree lq Hlq))
        as (st1 & Hrun1 & _ & Hpush & _ & Hframe & _ & Hoth).
      rewrite Hrun1 in Hrun. injection Hrun as <-.
      pose proof (Hnot q eq_refl) as Hq.
      pose proof (block_page_outside _ _ _ _ _ Ht Hblk Hal Hlen Hq) as Hpg.
      destruct (block_in_page _ _ _ Ht Hblk) as (Hlo & Hhi & _).
      destruct (class_facts t Ht) as (Ht16 & _).
      assert (forall x, r <= x < r + len -> mem st1 x = mem st x) as Hsame.
      { intros x Hx. apply Hframe. unfold PAGE_SIZE in *. lia. }
      split; [|exact Hsame].
      split; [exact Hwf'|]. split.
      { intros x Hx. unfold mapped. rewrite Hsame by exact Hx. apply Hmap. exact Hx. }
      intros s l b Hc Hl Hin.
      destruct (Z.eq_dec s t) as [-> | Hd].
      * rewrite (chain_functional _ _ _ Hl _ Hpush) in Hin.
        destruct Hin as [<- | Hin]; [exact Hq|].
        apply (Hout t lq b Hc Hlq Hin).
      * destruct (wf_list_of st s Hwf Hc) as (l0 & Hl0 & _ & _).
        pose proof (Hoth s l0 Hc Hd Hl0) as Hl0'.
        rewrite (chain_functional _ _ _ Hl _ Hl0') in Hin.
        apply (Hout s l0 b Hc Hl0 Hin).
    + unfold run_op, bind in Hrun.
      destruct (xxmalloc_usable_size q st) as [v st1| | |] eqn:E; try discriminate.
      apply usable_size_state in E. subst st1.
      unfold ret in Hrun. injection Hrun as <-.
      split; [exact Hk|reflexivity].
  - destruct (range_mapped (mem st) a (List.length bs)) eqn:Erm; [|discriminate].
    injection Hrun as <-. cbn [mem].
    assert (forall i, 0 <= i < Z.of_nat (List.length bs) -> mapped (mem st) (a + i)) as Hm.
    { apply range_mapped_true. exact Erm. }
    assert (clear_of_free_lists a (Z.of_nat (List.length bs)) st) as Hclear.
    { destruct Huse as [[H1 H2] | [(s & p & Hc & Hlive & H1 & H2) | H]]; [| |exact H].
      - exact (region_store_clear r len st a _ Hal Hlen Hk H1 H2).
      - exact (live_store_clear st s p a _ Hwf Hc Hlive H1 H2). }
    destruct (store_keeps_lists st a bs Hwf Hm Hclear) as [Hwf' Hlists].
    split; [|reflexivity].
    split; [exact Hwf'|]. split.
    { intros x Hx. cbn [mem]. apply write_bytes_mapped; [exact Hm|].
      apply Hmap. exact Hx. }
    intros s l b Hc Hl Hin.
    destruct (wf_list_of st s Hwf Hc) as (l0 & Hl0 & _ & _).
    rewrite (chain_functional _ _ _ Hl _ (Hlists s l0 Hc Hl0)) in Hin.
    apply (Hout s l0 b Hc Hl0 Hin).
Qed.

Lemma region_use_run r len st acts st' :
  r mod PAGE_SIZE = 0 -> len mod PAGE_SIZE = 0 ->
  run (region_use r len) st acts st' ->
  region_kept r len st ->
  region_kept r len st' /\
  forall x, r <= x < r + len -> mem st' x = program_stores acts (mem st) x.
Proof.
  intros Hal Hlen H.
  induction H as [st | st act st1 acts st2 HP Hrun Hrest IH]; intros Hk.
  - split; [exact Hk|reflexivity].
  - destruct (region_use_step r len act st st1 Hal Hlen Hk HP Hrun) as [Hk1 Hb1].
    destruct (IH Hk1) as [Hk2 Hb2].
    split; [exact Hk2|].
    intros x Hx. rewrite Hb2 by exact Hx.
    destruct act as [o | a bs]; cbn [program_stores] in *.
    + apply program_stores_local. apply Hb1. exact Hx.
    + apply program_stores_local. apply Hb1. exact Hx.
Qed.

(** The state that an oversized allocation leaves. *)
Lemma region_kept_fresh st n os r st' :
  wf st -> os_ok (OpMalloc n os) st -> 2048 < n ->
  xxmalloc n os st = Ret r st' ->
  0 < extent n /\ r mod PAGE_SIZE = 0 /\ extent n mod PAGE_SIZE = 0 /\
  region_kept r (extent n) st' /\
  forall x, r <= x < r + extent n -> mem st' x = Some Byte.x00.
Proof.
  intros Hwf Hos Hn Hrun. pose proof Hos as [Hn0 Hok].
  destruct (xxmalloc_lists _ _ _ _ _ Hwf Hos Hrun) as (_ & Hoth & Hbig & _).
  destruct (Hbig Hn) as (Ef & -> & Hm1).
  pose proof (wf_xxmalloc _ _ _ _ _ Hwf Hos Hrun) as Hwf'.
  unfold extent in *. destruct (Z.gtb_spec n 2048); [|lia].
  destruct (mmap_ok_fresh _ _ _ Hok Ef) as (Hlen & Hr & Hal & Hhi & Hfresh).
  pose proof (ROUND_UP_multiple n ltac:(lia)) as Hmul.
  assert (forall x, mmap_ret os <= x < mmap_ret os + ROUND_UP n PAGE_SIZE ->
                    mem st' x = Some Byte.x00) as Hzero.
  { intros x Hx. rewrite Hm1. apply map_zero_inside. exact Hx. }
  repeat (split; [assumption|]). split; [|exact Hzero].
  split; [exact Hwf'|]. split.
  - intros x Hx. unfold mapped. rewrite Hzero by exact Hx. discriminate.
  - intros s l b Hc Hl Hin.
    destruct (wf_list_of st s Hwf Hc) as (l0 & Hl0 & _ & Hf).
    pose proof (Hoth s l0 Hc (or_introl Hn) Hl0) as Hl0'.
    rewrite (chain_functional _ _ _ Hl _ Hl0') in Hin.
    rewrite Forall_forall in Hf. specialize (Hf b Hin).
    destruct (Z_lt_dec b (mmap_ret os)) as [|H1]; [left; assumption|].
    destruct (Z_le_dec (mmap_ret os + ROUND_UP n PAGE_SIZE) b) as [|H2];
      [right; assumption|].
    exfalso.
    destruct (class_facts s Hc) as (Hs & _).
    pose proof (is_block_readable _ _ _ Hc Hf 0 ltac:(lia)) as Hmp.
    apply Hmp. rewrite Z.add_0_r. apply Hfresh. lia.
Qed.

(** What [xxmalloc] returns lies outside a region that is kept. *)
Lemma xxmalloc_outside_region r len st n os q st' :
  0 < len -> r mod PAGE_SIZE = 0 -> len mod PAGE_SIZE = 0 ->
  region_kept r len st ->
  os_ok (OpMalloc n os) st ->
  xxmalloc n os st = Ret q st' ->
  q + extent n <= r \/ r + len <= q.
Proof.
  intros Hpos Hal Hlen (Hwf & Hmap & Hout) Hos Hrun. pose proof Hos as [Hn Hok].
  destruct (xxmalloc_lists _ _ _ _ _ Hwf Hos Hrun) as (_ & _ & Hbig & Hsmall).
  unfold extent. destruct (Z.gtb_spec n 2048) as [Hgt | Hle].
  - destruct (Hbig Hgt) as (Ef & -> & _).
    destruct (mmap_ok_fresh _ _ _ Hok Ef) as (Hlen' & _ & _ & _ & Hfresh).
    destruct (Z_le_dec (mmap_ret os + ROUND_UP n PAGE_SIZE) r) as [|H1];
      [left; assumption|].
    destruct (Z_le_dec (r + len) (mmap_ret os)) as [|H2]; [right; assumption|].
    exfalso.
    apply (Hmap (Z.max r (mmap_ret os))); [lia|]. apply Hfresh. lia.
  - pose proof (roundPowers_class n Hle) as Hc.
    destruct (Hsmall Hle) as (Hblk & l' & _ & Hcase).
    assert (q < r \/ r + len <= q) as Hq.
    { destruct Hcase as [(Hold & _) | (_ & _ & Hpb & Hfresh)].
      - apply (Hout _ _ q Hc Hold). left. reflexivity.
      - destruct (Z_lt_dec q r) as [|H1]; [left; assumption|].
        destruct (Z_le_dec (r + len) q) as [|H2]; [right; assumption|].
        exfalso.
        apply (page_blocks_fresh (mem st) (mmap_ret os) (roundPowers n) q Hc Hfresh).
        + rewrite <- Hpb. left. reflexivity.
        + apply Hmap. lia. }
    pose proof (block_page_outside _ _ _ _ _ Hc Hblk Hal Hlen Hq) as Hpg.
    destruct (block_in_page _ _ _ Hc Hblk) as (Hlo & Hhi & _).
    destruct (class_facts _ Hc) as (Hs & _).
    unfold PAGE_SIZE in *. lia.
Qed.

(** The tag of the page of a pointer into a mapped, page-aligned region
    can be read. *)
Lemma region_tag_readable m r len q :
  0 < r -> r mod PAGE_SIZE = 0 -> len mod PAGE_SIZE = 0 -> r + len <= 2 ^ 63 ->
  (forall x, r <= x < r + len -> mapped m x) ->
  r <= q < r + len ->
  q <> NULL /\ page_start q = page_of q /\ exists tag, load 4 m (page_of q) = Some tag.
Proof.
  intros Hr Hal Hlen Hhi Hmap Hq.
  split; [unfold NULL; lia|]. split; [apply page_start_low; lia|].
  apply load_succeeds. intros i Hi. simpl in Hi. apply Hmap.
  unfold page_of, PAGE_SIZE in *. Z.div_mod_to_equations. lia.
Qed.

(** ** The defined behaviour of [xxfree] *)

(** What [xxfree] does in each of the cases in which its behaviour is
    defined. *)
Lemma xxfree_defined_returns ptr st :
  xxfree_defined ptr st ->
  exists st', xxfree ptr st = Ret tt st'.
Proof.
  intros [-> | [(Hp & tag & Ht & Hcase) | (i & Hp & tag & size & Ht & Hm & Hs & Hne & Hi & Hb & Hl)]].
  - eexists. unfold xxfree. rewrite Z.eqb_refl. reflexivity.
  - destruct (Z.eq_dec (to_int tag) MAGIC_NUMBER) as [Em | Em].
    + destruct Hcase as [Hne | Hs]; [contradiction|].
      eexists. unfold xxfree.
      pose proof Hp as Hp'. apply Z.eqb_neq in Hp'. rewrite Hp'.
      erewrite bind_Ret by (eapply usable_size_match; eassumption).
      rewrite Z.eqb_refl. reflexivity.
    + eexists. apply (xxfree_mismatch st ptr tag Hp Ht Em).
  - rewrite (xxfree_header_size st ptr tag size Hp Ht Hm Hs Hne).
    pose proof (store_succeeds 8 (mem st) ptr (nth (Z.to_nat i) (freelists st) NULL) Hl)
      as Hst.
    eexists. unfold roundPowersList_st, fl_get, addFirst, store_st, ret, fl_set.
    unfold bind. rewrite Hi. rewrite Hb. rewrite Hst.
    cbn [freelists mem trace]. reflexivity.
Qed.

(** What a returning [xxfree] leaves as it was. *)
Lemma xxfree_frame st ptr st' :
  xxfree ptr st = Ret tt st' ->
  (forall x, x < ptr \/ ptr + 8 <= x -> mem st' x = mem st x) /\
  (forall x, mapped (mem st') x <-> mapped (mem st) x) /\
  List.length (freelists st') = List.length (freelists st) /\
  (exists i, forall j, j <> i ->
                       nth j (freelists st') NULL = nth j (freelists st) NULL) /\
  (trace st' = trace st \/
   (trace st' = (trace st ++ [EvPerror "pointer not allocated using custom malloc"])%list /\
    freelists st' = freelists st /\ mem st' = mem st)).
Proof.
  intros Hrun. apply xxfree_inv in Hrun.
  destruct Hrun as [[-> _] | [(-> & _) | (i & m' & _ & _ & Hst & ->)]];
    cbn [freelists mem trace].
  - split; [reflexivity|]. split; [reflexivity|]. split; [reflexivity|].
    split; [exists 0%nat; reflexivity|]. left. reflexivity.
  - split; [reflexivity|]. split; [reflexivity|]. split; [reflexivity|].
    split; [exists 0%nat; reflexivity|]. right. repeat split.
  - split; [intros x Hx; eapply store_outside; [exact Hst|simpl; lia]|].
    split; [intros x; apply (store_mapped _ _ _ _ _ x Hst)|].
    split; [apply list_set_length|].
    split; [|left; reflexivity].
    exists (Z.to_nat i). intros j Hj. apply nth_list_set_other. congruence.
Qed.

(** ** Further concrete runs *)

(** The block of the state [one_page] is in use. *)
Lemma one_page_live : wf one_page /\ live one_page 2048 (page_A + 2048).
Proof.
  apply (xxmalloc_live (init_state empty_memory) 2048 (reply page_A)).
  - apply wf_init.
  - split; [lia|]. vm_compute. reflexivity.
  - lia.
  - exact one_page_run.
Qed.

Lemma one_page_valid_free : valid_op (OpFree (page_A + 2048)) one_page.
Proof.
  destruct one_page_live as [_ [Hblk Hfree]].
  split; [exact I|]. right. exists 2048.
  split; [vm_compute; tauto|]. split; [exact Hblk|exact Hfree].
Qed.

Lemma wf_after_xxmalloc st n os p :
  wf st -> os_ok (OpMalloc n os) st ->
  returned (xxmalloc n os st) = Some p ->
  wf (after (xxmalloc n os st)).
Proof.
  intros Hwf Hos Hret. eapply wf_xxmalloc; [exact Hwf|exact Hos|].
  apply Ret_after. exact Hret.
Qed.

Lemma three_blocks_wf : wf three_blocks.
Proof.
  assert (wf (after (xxmalloc 1024 (reply page_A) (init_state empty_memory)))) as H1.
  { apply (wf_after_xxmalloc _ _ _ (page_A + 1024)); [apply wf_init| |].
    - split; [lia|]. vm_compute. reflexivity.
    - vm_compute. reflexivity. }
  assert (wf (after (xxmalloc 1024 (reply page_B)
                 (after (xxmalloc 1024 (reply page_A) (init_state empty_memory)))))) as H2.
  { apply (wf_after_xxmalloc _ _ _ (page_A + 2048)); [exact H1| |].
    - split; [lia|]. vm_compute. reflexivity.
    - vm_compute. reflexivity. }
  assert (wf (after (xxmalloc 1024 (reply page_B)
                 (after (xxmalloc 1024 (reply page_B)
                    (after (xxmalloc 1024 (reply page_A) (init_state empty_memory)))))))) as H3.
  { apply (wf_after_xxmalloc _ _ _ (page_A + 3072)); [exact H2| |].
    - split; [lia|]. vm_compute. reflexivity.
    - vm_compute. reflexivity. }
  destruct H3 as [Hlen Hall]. split.
  - vm_compute. reflexivity.
  - intros s Hs. specialize (Hall s Hs). exact Hall.
Qed.

(** * Part III: the claims *)

(** ** C1 *)

(** C1 (amended). For 1 <= n <= 2048, in every state in which the head of
    the list of n's class is null, or a pointer whose link can be read and
    whose page carries the sentinel and that class, [xxmalloc n] returns a
    pointer on which [xxmalloc_usable_size] answers the smallest class that
    is at least [n] - unless the list is empty and the page mapping fails,
    in which case the process exits. *)
Theorem usable_size_of_allocated (st : state) (n : Z) (os : os_reply) :
  1 <= n <= 2048 ->
  head_sound st (roundPowers n) ->
  mmap_ok (mem st) PAGE_SIZE (mmap_ret os) = true ->
  smallest_class_ge n (roundPowers n) /\
  ((head_of st (roundPowers n) = NULL /\ mmap_ret os = MAP_FAILED /\
    exists st', xxmalloc n os st = Exit EXIT_FAILURE st') \/
   (exists p st', xxmalloc n os st = Ret p st' /\
                  xxmalloc_usable_size p st' = Ret (roundPowers n) st')).
Proof.
  intros Hn Hhead Hok. split; [apply roundPowers_smallest; lia|].
  destruct (xxmalloc_returns_in_page n os st ltac:(lia) Hhead Hok)
    as [Hexit | (p & st' & Hrun & Hin & _)]; [left; exact Hexit|].
  right. exists p, st'. split; [exact Hrun|].
  apply usable_size_in_page. exact Hin.
Qed.

Lemma usable_size_of_allocated_witness :
  smallest_class_ge 100 (roundPowers 100) /\
  ((head_of (init_state empty_memory) (roundPowers 100) = NULL /\
    mmap_ret (reply page_A) = MAP_FAILED /\
    exists st', xxmalloc 100 (reply page_A) (init_state empty_memory)
                = Exit EXIT_FAILURE st') \/
   (exists p st', xxmalloc 100 (reply page_A) (init_state empty_memory) = Ret p st' /\
                  xxmalloc_usable_size p st' = Ret (roundPowers 100) st')).
Proof.
  apply (usable_size_of_allocated (init_state empty_memory) 100 (reply page_A)).
  - lia.
  - apply wf_head_sound; [apply wf_init|]. vm_compute. tauto.
  - vm_compute. reflexivity.
Defined.

(** C1 as stated fails.  First: [xxfree] accepts a pointer into the header
    of a carved page (the tag matches), stores the link over the tag and
    makes that pointer the head of the list; the next [xxmalloc 2048]
    returns it, and [xxmalloc_usable_size] answers [(size_t) -1] on it, not
    2048.  Second, with pointers inside allocated objects only: the block at
    [page_A + 2048] is freed, then [xxfree] is given the last byte of the
    block at [page_B + 3072] and writes its link across the page boundary
    over the tag of the page at [page_A]; the next [xxmalloc 2048] returns
    [page_A + 2048], on which [xxmalloc_usable_size] answers [(size_t) -1]. *)
Lemma usable_size_of_allocated_counterexample :
  (returned (xxmalloc 2048 (reply page_A) (init_state empty_memory))
   = Some (page_A + 2048) /\
   returned (xxfree (page_A + 1) one_page) = Some tt /\
   mmap_ok (mem tag_overwritten) PAGE_SIZE (mmap_ret (reply MAP_FAILED)) = true /\
   returned (xxmalloc 2048 (reply MAP_FAILED) tag_overwritten) = Some (page_A + 1) /\
   returned (xxmalloc_usable_size
               (page_A + 1) (after (xxmalloc 2048 (reply MAP_FAILED) tag_overwritten)))
   = Some (wrap64 (-1))) /\
  (returned two_pages_run
   = Some [page_A + 2048; page_B + 1024; page_B + 2048; page_B + 3072] /\
   returned (xxfree (page_A + 2048) two_pages) = Some tt /\
   returned (xxfree interior_pointer (after (xxfree (page_A + 2048) two_pages)))
   = Some tt /\
   returned (xxmalloc 2048 (reply MAP_FAILED) neighbour_overwritten_after_free)
   = Some (page_A + 2048) /\
   returned (xxmalloc_usable_size
               (page_A + 2048)
               (after (xxmalloc 2048 (reply MAP_FAILED) neighbour_overwritten_after_free)))
   = Some (wrap64 (-1))) /\
  roundPowers 2048 = 2048 /\
  wrap64 (-1) <> 2048.
Proof. vm_compute. repeat split; try reflexivity; discriminate. Qed.

(** ** C2 *)

(** C2. [allocate_blocks], given a class [s] and a fresh page at [r],
    writes the header (sentinel, [s]) at offset 0 of the page, links the
    block at each offset to the block [s] bytes further, ends the last
    block's link with null and returns [r + s]; the chain from [r + s] is
    exactly the blocks at offsets s, 2s, ..., PAGE_SIZE - s, in this order. *)
Theorem allocate_blocks_carves_page (s : Z) (os : os_reply) (st : state) :
  is_class s ->
  mmap_ok (mem st) PAGE_SIZE (mmap_ret os) = true ->
  mmap_ret os <> MAP_FAILED ->
  exists st',
    allocate_blocks s os st = Ret (mmap_ret os + s) st' /\
    freelists st' = freelists st /\
    trace st' = (trace st ++ [EvMmap PAGE_SIZE MAP_ANONYMOUS_SHARED (mmap_ret os)])%list /\
    load 4 (mem st') (mmap_ret os) = Some MAGIC_NUMBER /\
    load 8 (mem st') (mmap_ret os + 8) = Some s /\
    (forall j, 1 <= j -> (j + 1) * s < PAGE_SIZE ->
               load 8 (mem st') (mmap_ret os + j * s)
               = Some (mmap_ret os + (j + 1) * s)) /\
    load 8 (mem st') (mmap_ret os + PAGE_SIZE - s) = Some NULL /\
    chain (mem st') (mmap_ret os + s) (page_blocks (mmap_ret os) s) /\
    List.length (page_blocks (mmap_ret os) s) = Z.to_nat (PAGE_SIZE / s - 1) /\
    (forall k, (k < Z.to_nat (PAGE_SIZE / s - 1))%nat ->
               nth k (page_blocks (mmap_ret os) s) NULL
               = mmap_ret os + (Z.of_nat k + 1) * s).
Proof.
  intros Hc Hok Hne.
  destruct (allocate_blocks_spec s os st Hc Hok Hne) as (m' & Hrun & Hcarved).
  destruct (mmap_ok_fresh _ _ _ Hok Hne) as (_ & Hr & _ & _ & _).
  pose proof (carved_chain _ _ _ _ Hc Hr Hcarved) as Hch.
  destruct Hcarved as (_ & _ & Hmg & Hsz & Hlinks & Hlast).
  eexists. split; [exact Hrun|]. cbn [freelists mem trace].
  repeat (split; [assumption || reflexivity|]).
  split.
  - unfold page_blocks. apply blocks_from_length.
  - intros k Hk. unfold page_blocks.
    rewrite blocks_from_nth by exact Hk. lia.
Qed.

Lemma allocate_blocks_carves_page_witness :
  exists st',
    allocate_blocks 1024 (reply page_A) (init_state empty_memory)
    = Ret (page_A + 1024) st' /\
    chain (mem st') (page_A + 1024)
          [page_A + 1024; page_A + 2048; page_A + 3072].
Proof.
  destruct (allocate_blocks_carves_page 1024 (reply page_A) (init_state empty_memory))
    as (st' & Hrun & _ & _ & _ & _ & _ & _ & Hch & _).
  - unfold is_class, size_classes. simpl. tauto.
  - vm_compute. reflexivity.
  - vm_compute. discriminate.
  - exists st'. split; [exact Hrun|exact Hch].
Defined.

(** ** C3 *)

(** C3. Starting with the list of a class empty (as it is in a fresh
    process), [k] consecutive allocations of that class, each served by the
    operating system, trigger exactly ceil(k / blocksPerPage) page-carve
    events, and no two of the [k] blocks returned overlap. *)
Theorem consecutive_allocations (n : Z) (oss : list os_reply) (st : state) :
  0 <= n <= 2048 ->
  List.length (freelists st) = 8%nat ->
  head_of st (roundPowers n) = NULL ->
  os_serves n oss st ->
  exists ps st',
    xxmalloc_many n oss st = Ret ps st' /\
    List.length ps = List.length oss /\
    carve_events (trace st') - carve_events (trace st)
    = ceil_div (Z.of_nat (List.length oss)) (blocksPerPage (roundPowers n)) /\
    pairwise_disjoint (roundPowers n) ps.
Proof.
  intros Hn Hlen Hh Hos.
  destruct (xxmalloc_many_spec n Hn oss st [] Hlen) as
      (ps & st' & Hrun & Hl & Hcount & Hnd & Hf & _); try assumption.
  - rewrite Hh. constructor.
  - constructor.
  - constructor.
  - exists ps, st'. split; [exact Hrun|]. split; [exact Hl|]. split.
    + rewrite Hcount. simpl List.length. change (Z.of_nat 0) with 0.
      rewrite Z.sub_0_r. rewrite Z.max_l by lia. lia.
    + eapply blocks_pairwise_disjoint; [|exact Hnd|exact Hf].
      apply roundPowers_class. lia.
Qed.

Lemma consecutive_allocations_witness :
  exists ps st',
    xxmalloc_many 1000 [reply page_A; reply page_B; reply page_B; reply page_B]
                  (init_state empty_memory) = Ret ps st' /\
    List.length ps = 4%nat /\
    carve_events (trace st') - carve_events (trace (init_state empty_memory))
    = ceil_div 4 (blocksPerPage (roundPowers 1000)) /\
    pairwise_disjoint (roundPowers 1000) ps.
Proof.
  apply (consecutive_allocations 1000
           [reply page_A; reply page_B; reply page_B; reply page_B]
           (init_state empty_memory)).
  - lia.
  - reflexivity.
  - reflexivity.
  - vm_compute. repeat split; try reflexivity; discriminate.
Defined.

Example four_allocations_of_class_1024 :
  let run := xxmalloc_many 1000 [reply page_A; reply page_B; reply page_B; reply page_B]
                           (init_state empty_memory) in
  returned run = Some [page_A + 1024; page_A + 2048; page_A + 3072; page_B + 1024] /\
  carve_events (trace (after run)) = 2 /\
  ceil_div 4 (blocksPerPage 1024) = 2.
Proof. vm_compute. repeat split; reflexivity. Qed.

(** ** C4 *)




(** ** C5 *)

(** C5 (amended). [roundPowers] rounds a request up to the smallest class
    that is at least the request, answers -1 (oversized) exactly when the
    request exceeds 2048, and maps 0 and every negative [int] to the
    smallest class, 16.  [xxmalloc] compares its [size_t] argument with 2048
    before it calls [roundPowers]: a request of at most 2048 bytes reaches
    [roundPowers] unchanged and is served like a request for its class, 0
    like 16; a size that wrapped around below zero is a [size_t] above 2048,
    and every request above 2048 takes the oversized path, which maps a
    region or ends the process with code 2, and leaves the free lists as
    they are. *)
Theorem roundPowers_classifies (size : Z) :
  (size <= 2048 -> smallest_class_ge size (roundPowers size)) /\
  (roundPowers size = -1 <-> 2048 < size) /\
  (size <= 0 -> roundPowers size = MIN_MALLOC_SIZE) /\
  (0 <= size <= 2048 ->
   to_int size = size /\
   forall os st, xxmalloc size os st = xxmalloc (roundPowers size) os st) /\
  (- (2 ^ 64 - 2049) <= size < 0 -> 2048 < wrap64 size < 2 ^ 64) /\
  (2048 < size < 2 ^ 64 ->
   forall os st,
     (mmap_ret os <> MAP_FAILED ->
      xxmalloc size os st
      = Ret (mmap_ret os)
            (mkState (freelists st)
                     (map_zero (mem st) (mmap_ret os) (ROUND_UP size PAGE_SIZE))
                     (trace st ++ [EvMmap (ROUND_UP size PAGE_SIZE)
                                          MAP_ANONYMOUS_PRIVATE (mmap_ret os)]))) /\
     (mmap_ret os = MAP_FAILED ->
      xxmalloc size os st
      = Exit 2 (mkState (freelists st) (mem st)
                        (trace st ++ oversized_failure_events (ROUND_UP size PAGE_SIZE)
                                                              (write_ret os))))).
Proof.
  split; [apply roundPowers_smallest|]. split; [|split; [|split; [|split]]].
  - unfold roundPowers.
    repeat match goal with
           | |- context [?a <=? ?b] => destruct (Z.leb_spec a b)
           end; split; intros; try lia; discriminate.
  - intros H. unfold roundPowers, MIN_MALLOC_SIZE.
    destruct (Z.leb_spec size 16); [reflexivity|lia].
  - intros H. split; [apply to_int_small; lia|]. intros os st.
    pose proof (roundPowers_class size ltac:(lia)) as Hc.
    destruct (class_facts _ Hc) as (Hs & _).
    rewrite (xxmalloc_small size) by exact H.
    rewrite (xxmalloc_small (roundPowers size)) by lia.
    rewrite roundPowers_idempotent by lia. reflexivity.
  - intros H. unfold wrap64. change (2 ^ 64) with 18446744073709551616 in *.
    Z.div_mod_to_equations. lia.
  - intros H os st. split; intros Hos.
    + apply xxmalloc_oversized; [lia|exact Hos].
    + apply xxmalloc_oversized_failure; [lia|exact Hos].
Qed.

Lemma roundPowers_classifies_witness :
  smallest_class_ge 100 (roundPowers 100) /\
  (roundPowers 5000 = -1) /\
  roundPowers (-7) = MIN_MALLOC_SIZE /\
  (to_int 0 = 0 /\
   forall os st, xxmalloc 0 os st = xxmalloc (roundPowers 0) os st) /\
  2048 < wrap64 (-7) < 2 ^ 64 /\
  (forall os st,
     (mmap_ret os <> MAP_FAILED ->
      xxmalloc (wrap64 (-7)) os st
      = Ret (mmap_ret os)
            (mkState (freelists st)
                     (map_zero (mem st) (mmap_ret os) (ROUND_UP (wrap64 (-7)) PAGE_SIZE))
                     (trace st ++ [EvMmap (ROUND_UP (wrap64 (-7)) PAGE_SIZE)
                                          MAP_ANONYMOUS_PRIVATE (mmap_ret os)]))) /\
     (mmap_ret os = MAP_FAILED ->
      xxmalloc (wrap64 (-7)) os st
      = Exit 2 (mkState (freelists st) (mem st)
                        (trace st ++ oversized_failure_events
                                       (ROUND_UP (wrap64 (-7)) PAGE_SIZE)
                                       (write_ret os))))).
Proof.
  split; [|split; [|split; [|split; [|split]]]].
  - apply (proj1 (roundPowers_classifies 100)). lia.
  - apply (proj1 (proj2 (roundPowers_classifies 5000))). lia.
  - apply (proj1 (proj2 (proj2 (roundPowers_classifies (-7))))). lia.
  - apply (proj1 (proj2 (proj2 (proj2 (roundPowers_classifies 0))))). lia.
  - apply (proj1 (proj2 (proj2 (proj2 (proj2 (roundPowers_classifies (-7))))))).
    vm_compute. split; [discriminate|reflexivity].
  - apply (proj2 (proj2 (proj2 (proj2 (proj2 (roundPowers_classifies (wrap64 (-7)))))))).
    vm_compute. split; reflexivity.
Defined.

(** C5 as stated fails: an underflowed size is not mapped to class 16.
    The value of [(size_t) 0 - 1] is 2^64 - 1; [xxmalloc] takes the
    oversized path for it, [ROUND_UP] wraps to 0, the operating system
    refuses a mapping of zero bytes, and the process exits with code 2,
    whereas [xxmalloc 16] returns a block.  For [(size_t) 0 - 5000] the
    rounded length is 2^64 - 4096, which cannot be mapped either.  At
    [roundPowers] itself, the underflowed value -2^31 - 1 converts to the
    [int] 2^31 - 1, and the answer is -1, not 16. *)
Lemma roundPowers_classifies_counterexample :
  wrap64 (0 - 1) = 2 ^ 64 - 1 /\
  ROUND_UP (wrap64 (0 - 1)) PAGE_SIZE = 0 /\
  mmap_ok empty_memory 0 page_A = false /\
  mmap_ok empty_memory 0 MAP_FAILED = true /\
  xxmalloc (wrap64 (0 - 1)) (mkReply MAP_FAILED 24) (init_state empty_memory)
  = Exit 2 (mkState (freelists (init_state empty_memory)) empty_memory
                    [EvMmap 0 MAP_ANONYMOUS_PRIVATE MAP_FAILED;
                     EvWrite STDERR_FILENO ("mmap failed! Giving up." ++ newline) 24]) /\
  returned (xxmalloc 16 (reply page_A) (init_state empty_memory)) = Some (page_A + 16) /\
  wrap64 (0 - 5000) = 2 ^ 64 - 5000 /\
  ROUND_UP (wrap64 (0 - 5000)) PAGE_SIZE = 2 ^ 64 - 4096 /\
  mmap_ok empty_memory (2 ^ 64 - 4096) page_A = false /\
  xxmalloc (wrap64 (0 - 5000)) (mkReply MAP_FAILED 24) (init_state empty_memory)
  = Exit 2 (mkState (freelists (init_state empty_memory)) empty_memory
                    [EvMmap (2 ^ 64 - 4096) MAP_ANONYMOUS_PRIVATE MAP_FAILED;
                     EvWrite STDERR_FILENO ("mmap failed! Giving up." ++ newline) 24]) /\
  to_int (wrap64 (- 2 ^ 31 - 1)) = 2 ^ 31 - 1 /\
  roundPowers (to_int (wrap64 (- 2 ^ 31 - 1))) = -1 /\
  MIN_MALLOC_SIZE = 16.
Proof.
  split; [reflexivity|]. split; [reflexivity|].
  split; [reflexivity|]. split; [reflexivity|].
  split; [reflexivity|]. split; [vm_compute; reflexivity|].
  split; [reflexivity|]. split; [reflexivity|].
  split.
  { unfold mmap_ok. apply orb_false_intro; [reflexivity|].
    apply andb_false_intro1. reflexivity. }
  split; [reflexivity|].
  repeat split; reflexivity.
Qed.

(** ** C6 *)

(** C6. [xxmalloc_usable_size] answers 0 for the null pointer; for a
    non-null pointer whose page header does not carry the sentinel it
    answers the one value [(size_t) -1], which is neither 0 nor the width of
    a class; and for a non-null pointer whose page header carries the
    sentinel it answers the block size recorded in the header, unchanged.
    The state is left as it was in all three cases.  The page header is
    read at [page_start ptr], the base of the enclosing page for every
    address below 2^63. *)
Theorem usable_size_cases (st : state) (ptr : Z) :
  xxmalloc_usable_size NULL st = Ret 0 st /\
  (forall tag,
      ptr <> NULL ->
      load 4 (mem st) (page_start ptr) = Some tag ->
      to_int tag <> MAGIC_NUMBER ->
      xxmalloc_usable_size ptr st = Ret (wrap64 (-1)) st) /\
  (wrap64 (-1) <> 0 /\ forall s, is_class s -> wrap64 (-1) <> s) /\
  (forall tag block_size,
      ptr <> NULL ->
      load 4 (mem st) (page_start ptr) = Some tag ->
      to_int tag = MAGIC_NUMBER ->
      load 8 (mem st) (ptr_add (page_start ptr) 8) = Some block_size ->
      xxmalloc_usable_size ptr st = Ret block_size st) /\
  (0 <= ptr < 2 ^ 63 -> page_start ptr = page_of ptr).
Proof.
  split; [reflexivity|]. split; [|split; [split|split]].
  - intros tag. apply usable_size_mismatch.
  - discriminate.
  - intros s Hs E. apply class_not_sentinel in Hs. rewrite <- E in Hs.
    rewrite Z.eqb_refl in Hs. discriminate.
  - intros tag bs. apply usable_size_match.
  - apply page_start_low.
Qed.

Lemma usable_size_cases_witness :
  xxmalloc_usable_size (page_A + 2048) tag_overwritten
  = Ret (wrap64 (-1)) tag_overwritten /\
  xxmalloc_usable_size (page_A + 2048) one_page = Ret 2048 one_page.
Proof.
  split.
  - apply (proj1 (proj2 (usable_size_cases tag_overwritten (page_A + 2048))) 30).
    + vm_compute. discriminate.
    + vm_compute. reflexivity.
    + vm_compute. discriminate.
  - apply (proj1 (proj2 (proj2 (proj2 (usable_size_cases one_page (page_A + 2048)))))
             MAGIC_NUMBER 2048).
    + vm_compute. discriminate.
    + vm_compute. reflexivity.
    + reflexivity.
    + vm_compute. reflexivity.
Defined.

(** ** C7 *)

(** C7 (amended). [xxfree] on a non-null pointer whose page header can be
    read and does not carry the sentinel reports the condition with [perror]
    and returns; the free lists and the memory (hence every page header) are
    as before.  Every pointer into a region that [xxmalloc] has just mapped
    for an oversized request is such a pointer.  Later, whatever the program
    has stored in the region, the tag of the page of a pointer into it can
    be read, and the pointer is rejected in the same way whenever that tag
    is not the sentinel.  The page header is read at [page_start ptr], the
    base of the enclosing page for every address below 2^63. *)
Theorem xxfree_rejects_unknown_pointer :
  (forall st ptr tag,
      ptr <> NULL ->
      load 4 (mem st) (page_start ptr) = Some tag ->
      to_int tag <> MAGIC_NUMBER ->
      xxfree ptr st =
      Ret tt (mkState (freelists st) (mem st)
                      (trace st ++ [EvPerror "pointer not allocated using custom malloc"]))) /\
  (forall st n os p st' q,
      2048 < n < 2 ^ 64 ->
      mmap_ok (mem st) (ROUND_UP n PAGE_SIZE) (mmap_ret os) = true ->
      xxmalloc n os st = Ret p st' ->
      p <= q < p + ROUND_UP n PAGE_SIZE ->
      xxfree q st' =
      Ret tt (mkState (freelists st') (mem st')
                      (trace st' ++ [EvPerror "pointer not allocated using custom malloc"]))) /\
  (forall st n os p st' st2 q,
      2048 < n < 2 ^ 64 ->
      mmap_ok (mem st) (ROUND_UP n PAGE_SIZE) (mmap_ret os) = true ->
      xxmalloc n os st = Ret p st' ->
      (forall x, p <= x < p + ROUND_UP n PAGE_SIZE -> mapped (mem st2) x) ->
      p <= q < p + ROUND_UP n PAGE_SIZE ->
      exists tag,
        load 4 (mem st2) (page_start q) = Some tag /\
        (to_int tag <> MAGIC_NUMBER ->
         xxfree q st2 =
         Ret tt (mkState (freelists st2) (mem st2)
                         (trace st2 ++ [EvPerror "pointer not allocated using custom malloc"])))) /\
  (forall ptr, 0 <= ptr < 2 ^ 63 -> page_start ptr = page_of ptr).
Proof.
  split; [exact xxfree_mismatch|]. split; [|split; [|exact page_start_low]].
  - intros st n os p st' q Hn Hok Hrun Hq.
    destruct (Z.eq_dec (mmap_ret os) MAP_FAILED) as [Ef | Ef].
    { exfalso. eapply xxmalloc_oversized_fails; [| exact Ef | exact Hrun]. lia. }
    rewrite xxmalloc_oversized in Hrun by (lia || exact Ef).
    injection Hrun as <- <-.
    destruct (mmap_ok_fresh _ _ _ Hok Ef) as (_ & Hr & Hal & Hhi & _).
    destruct (oversized_region_tag (mem st) (mmap_ret os) (ROUND_UP n PAGE_SIZE) q)
      as [Hq0 Htag]; try assumption.
    { apply ROUND_UP_multiple. lia. }
    eapply xxfree_mismatch; [exact Hq0 | cbn [mem]; exact Htag | discriminate].
  - intros st n os p st' st2 q Hn Hok Hrun Hmap Hq.
    destruct (Z.eq_dec (mmap_ret os) MAP_FAILED) as [Ef | Ef].
    { exfalso. eapply xxmalloc_oversized_fails; [| exact Ef | exact Hrun]. lia. }
    rewrite xxmalloc_oversized in Hrun by (lia || exact Ef).
    injection Hrun as <- <-.
    destruct (mmap_ok_fresh _ _ _ Hok Ef) as (_ & Hr & Hal & Hhi & _).
    destruct (region_tag_readable (mem st2) (mmap_ret os) (ROUND_UP n PAGE_SIZE) q)
      as (Hq0 & Hps & tag & Htag); try assumption.
    { apply ROUND_UP_multiple. lia. }
    exists tag. rewrite Hps. split; [exact Htag|].
    intros Hne. apply (xxfree_mismatch st2 q tag Hq0); [|exact Hne].
    rewrite Hps. exact Htag.
Qed.

Lemma xxfree_rejects_unknown_pointer_witness :
  xxfree (page_A + 2048) tag_overwritten
  = Ret tt (mkState (freelists tag_overwritten) (mem tag_overwritten)
                    (trace tag_overwritten
                       ++ [EvPerror "pointer not allocated using custom malloc"])) /\
  (let st' := after (xxmalloc 5000 (reply page_A) (init_state empty_memory)) in
   xxfree (page_A + 5000) st'
   = Ret tt (mkState (freelists st') (mem st')
                     (trace st' ++ [EvPerror "pointer not allocated using custom malloc"]))) /\
  (exists tag,
      load 4 (mem region_with_sentinel) (page_start (page_B + 5000)) = Some tag /\
      (to_int tag <> MAGIC_NUMBER ->
       xxfree (page_B + 5000) region_with_sentinel
       = Ret tt (mkState (freelists region_with_sentinel) (mem region_with_sentinel)
                         (trace region_with_sentinel
                            ++ [EvPerror "pointer not allocated using custom malloc"])))).
Proof.
  split; [|split].
  - apply (proj1 xxfree_rejects_unknown_pointer tag_overwritten (page_A + 2048) 30).
    + vm_compute. discriminate.
    + vm_compute. reflexivity.
    + vm_compute. discriminate.
  - apply (proj1 (proj2 xxfree_rejects_unknown_pointer)
                 (init_state empty_memory) 5000 (reply page_A) page_A).
    + lia.
    + vm_compute. reflexivity.
    + apply Ret_after. vm_compute. reflexivity.
    + vm_compute. split; [discriminate|reflexivity].
  - apply (proj1 (proj2 (proj2 xxfree_rejects_unknown_pointer))
                 (init_state empty_memory) 5000 (reply page_B) page_B region_mapped).
    + lia.
    + vm_compute. reflexivity.
    + apply Ret_after. vm_compute. reflexivity.
    + intros x Hx.
      assert (range_mapped (mem region_with_sentinel) page_B (Z.to_nat 8192) = true) as H
          by (vm_compute; reflexivity).
      change (ROUND_UP 5000 PAGE_SIZE) with 8192 in Hx.
      replace x with (page_B + (x - page_B)) by lia.
      apply (proj1 (range_mapped_true _ _ _) H). lia.
    + vm_compute. split; [discriminate|reflexivity].
Defined.

(** C7 as stated fails for pointers into an oversized region: the region
    has no header of its own, and [xxfree] takes the first bytes of the
    page, which hold the program's data, for one.  [xxmalloc 5000] maps two
    pages at [page_B]; the program stores a word with the value of the
    sentinel at the start of the region and 64 eight bytes further;
    [xxfree (page_B + 64)] then finds the sentinel, reports nothing, and
    makes [page_B + 64] the head of the list of class 64; the next
    [xxmalloc 64] returns this pointer into the region. *)
Lemma xxfree_rejects_unknown_pointer_counterexample :
  returned (xxmalloc 5000 (reply page_B) (init_state empty_memory)) = Some page_B /\
  ROUND_UP 5000 PAGE_SIZE = 8192 /\
  returned ((run_action (Store page_B (le_split 4 MAGIC_NUMBER)) ;;;
             run_action (Store (page_B + 8) (le_split 8 64))) region_mapped)
  = Some tt /\
  load 4 (mem region_with_sentinel) (page_start (page_B + 64)) = Some MAGIC_NUMBER /\
  returned (xxfree (page_B + 64) region_with_sentinel) = Some tt /\
  trace (after (xxfree (page_B + 64) region_with_sentinel))
  = trace region_with_sentinel /\
  nth 2 (freelists region_with_sentinel) NULL = NULL /\
  nth 2 (freelists (after (xxfree (page_B + 64) region_with_sentinel))) NULL
  = page_B + 64 /\
  returned (xxmalloc 64 (reply MAP_FAILED)
                     (after (xxfree (page_B + 64) region_with_sentinel)))
  = Some (page_B + 64).
Proof. vm_compute. repeat split; reflexivity. Qed.

(** ** C8 *)




(** ** C9 *)

(** C9. A failed mapping for a page carve is reported with [perror], not
    through [log_message], before the process exits with [EXIT_FAILURE];
    only the failed mapping of an oversized region goes through
    [log_message] (a [write] to standard error), before exit code 2. *)
Theorem carve_failure_is_reported_by_perror :
  xxmalloc 16 (reply MAP_FAILED) (init_state empty_memory)
  = Exit EXIT_FAILURE
         (mkState (freelists (init_state empty_memory)) empty_memory
                  [EvMmap PAGE_SIZE MAP_ANONYMOUS_SHARED MAP_FAILED;
                   EvPerror "failed to allocate space"]) /\
  xxmalloc 4097 (mkReply MAP_FAILED 24) (init_state empty_memory)
  = Exit 2
         (mkState (freelists (init_state empty_memory)) empty_memory
                  [EvMmap 8192 MAP_ANONYMOUS_PRIVATE MAP_FAILED;
                   EvWrite STDERR_FILENO ("mmap failed! Giving up." ++ newline) 24]).
Proof. split; reflexivity. Qed.

(** ** C10 *)

(** C10 (amended). For a non-null pointer [p] in a page whose header
    carries the sentinel and a class [s], provided the eight bytes at [p]
    are mapped, [xxfree p] stores the old head of the list of [s] at [p]
    itself - no rounding down to a block start - and makes [p] the head;
    the next [xxmalloc] of that class returns exactly [p]. *)
Theorem xxfree_threads_exact_pointer (st : state) (p s : Z) :
  is_class s ->
  List.length (freelists st) = 8%nat ->
  in_page_of_class (mem st) s p ->
  link_mapped (mem st) p ->
  exists st',
    xxfree p st = Ret tt st' /\
    head_of st' s = p /\
    load 8 (mem st') p = Some (wrap64 (head_of st s)) /\
    forall n os, 0 <= n <= 2048 -> roundPowers n = s ->
                 exists st'', xxmalloc n os st' = Ret p st''.
Proof.
  intros Hc Hlen Hin Hm.
  destruct (xxfree_pushes st s p Hc Hlen Hin Hm)
    as (st' & Hrun & Hh & _ & Hmono & Hl).
  exists st'. split; [exact Hrun|]. split; [exact Hh|]. split; [exact Hl|].
  apply (head_is_reused st' s p Hh).
  - destruct Hin as [? _]. unfold NULL. lia.
  - intros i Hi. apply Hmono. apply Hm. exact Hi.
Qed.

Lemma xxfree_threads_exact_pointer_witness :
  exists st',
    xxfree (page_A + 2052) one_page = Ret tt st' /\
    head_of st' 2048 = page_A + 2052 /\
    load 8 (mem st') (page_A + 2052) = Some (wrap64 (head_of one_page 2048)) /\
    forall n os, 0 <= n <= 2048 -> roundPowers n = 2048 ->
                 exists st'', xxmalloc n os st' = Ret (page_A + 2052) st''.
Proof.
  apply (xxfree_threads_exact_pointer one_page (page_A + 2052) 2048).
  - vm_compute. tauto.
  - vm_compute. reflexivity.
  - split; [vm_compute; split; reflexivity|].
    split; vm_compute; reflexivity.
  - unfold link_mapped. apply (mapped_by_computation _ _ 8).
    vm_compute. reflexivity.
Defined.

(** C10 as stated fails: for a pointer in the last seven bytes of a carved
    page whose successor is not mapped, the store of the link is an access
    outside mapped memory. *)
Lemma xxfree_threads_exact_pointer_counterexample :
  in_page_of_class (mem one_page) 2048 (page_A + 4095) /\
  page_A < page_A + 4095 < page_A + PAGE_SIZE /\
  xxfree (page_A + 4095) one_page = Crash.
Proof.
  split; [|split].
  - split; [vm_compute; split; reflexivity|]. split; vm_compute; reflexivity.
  - vm_compute. split; reflexivity.
  - vm_compute. reflexivity.
Qed.

(** * Part IV: further properties *)

(** ** Arithmetic of sizes and addresses *)

(** X1. [ROUND_UP] to pages, on [size_t] values: for [x] up to
    2^64 - PAGE_SIZE the result is the least multiple of PAGE_SIZE that is
    at least [x], and less than a page above [x]; for a larger [x] the sum
    wraps around and the result is 0. *)
Theorem ROUND_UP_rounds_or_wraps (x : Z) :
  0 <= x < 2 ^ 64 ->
  (x <= 2 ^ 64 - PAGE_SIZE ->
   ROUND_UP x PAGE_SIZE mod PAGE_SIZE = 0 /\
   x <= ROUND_UP x PAGE_SIZE < x + PAGE_SIZE /\
   forall m, m mod PAGE_SIZE = 0 -> x <= m -> ROUND_UP x PAGE_SIZE <= m) /\
  (2 ^ 64 - PAGE_SIZE < x -> ROUND_UP x PAGE_SIZE = 0).
Proof.
  intros Hx. split.
  - intros Hle. apply ROUND_UP_bounds; unfold PAGE_SIZE in *; lia.
  - intros Hgt. apply ROUND_UP_wraps. lia.
Qed.

Lemma ROUND_UP_rounds_or_wraps_witness :
  (ROUND_UP 5000 PAGE_SIZE mod PAGE_SIZE = 0 /\
   5000 <= ROUND_UP 5000 PAGE_SIZE < 5000 + PAGE_SIZE /\
   forall m, m mod PAGE_SIZE = 0 -> 5000 <= m -> ROUND_UP 5000 PAGE_SIZE <= m) /\
  ROUND_UP (2 ^ 64 - 1) PAGE_SIZE = 0.
Proof.
  split.
  - apply (proj1 (ROUND_UP_rounds_or_wraps 5000 ltac:(lia))). vm_compute. discriminate.
  - apply (proj2 (ROUND_UP_rounds_or_wraps (2 ^ 64 - 1) ltac:(lia))). reflexivity.
Defined.

(** X2. For a request of at most 2048 bytes, [roundPowersList] maps the
    class that [roundPowers] chooses to the slot [i] of [freelists], with
    0 <= i < 8, that belongs to the class 16 * 2^i: slot 0 is for 16, slot 1
    for 32, ..., slot 7 for 2048. *)
Theorem freelist_slot_of_request (n : Z) :
  n <= 2048 ->
  exists i, roundPowersList (roundPowers n) = Some i /\
            0 <= i < 8 /\
            nth (Z.to_nat i) size_classes 0 = roundPowers n /\
            roundPowers n = 16 * 2 ^ i.
Proof.
  intros Hn. unfold roundPowers.
  repeat match goal with
         | |- context [?a <=? ?b] => destruct (Z.leb_spec a b)
         end; try lia;
    eexists; (split; [reflexivity|]); vm_compute; intuition congruence.
Qed.

Lemma freelist_slot_of_request_witness :
  exists i, roundPowersList (roundPowers 100) = Some i /\
            0 <= i < 8 /\
            nth (Z.to_nat i) size_classes 0 = roundPowers 100 /\
            roundPowers 100 = 16 * 2 ^ i.
Proof. apply (freelist_slot_of_request 100). lia. Defined.

(** X3. [roundPowersList] is undefined at 0; at a non-zero [int] it
    answers [i] where [i + 4] is the number of trailing zero bits of the
    argument, and [i] is an index inside [freelists] exactly when the
    argument is a multiple of 16 and not a multiple of 4096. *)
Theorem roundPowersList_counts_trailing_zeros (size : Z) :
  - 2 ^ 31 <= size < 2 ^ 31 ->
  (size = 0 -> roundPowersList size = None) /\
  (size <> 0 ->
   exists i, roundPowersList size = Some i /\
             size mod 2 ^ (i + 4) = 0 /\ size mod 2 ^ (i + 5) <> 0 /\
             (in_bounds i = true <-> size mod 16 = 0 /\ size mod PAGE_SIZE <> 0)).
Proof.
  intros Hs. split.
  - intros ->. reflexivity.
  - intros Hne.
    destruct (roundPowersList_spec size Hs Hne) as (i & E & _ & H1 & H2 & H3).
    exists i. split; [exact E|]. split; [exact H1|]. split; [exact H2|exact H3].
Qed.

Lemma roundPowersList_counts_trailing_zeros_witness :
  (exists i, roundPowersList 48 = Some i /\
             48 mod 2 ^ (i + 4) = 0 /\ 48 mod 2 ^ (i + 5) <> 0 /\
             (in_bounds i = true <-> 48 mod 16 = 0 /\ 48 mod PAGE_SIZE <> 0)) /\
  roundPowersList 0 = None.
Proof.
  split.
  - apply (proj2 (roundPowersList_counts_trailing_zeros 48 ltac:(lia))). lia.
  - apply (proj1 (roundPowersList_counts_trailing_zeros 0 ltac:(lia))). reflexivity.
Defined.

(** X4. For an address in the upper half of the address space the
    [intptr_t] is negative and [%] truncates toward zero: [page_start] of a
    page-aligned address is the address itself, and of any other address it
    is the base of the next page above (0 from the topmost page), not of the
    enclosing one. *)
Theorem page_start_rounds_toward_zero (ptr : Z) :
  2 ^ 63 <= ptr < 2 ^ 64 ->
  (ptr mod PAGE_SIZE = 0 -> page_start ptr = ptr) /\
  (ptr mod PAGE_SIZE <> 0 -> page_start ptr = wrap64 (page_of ptr + PAGE_SIZE)).
Proof.
  intros Hp. unfold page_start, page_of, to_intptr, signed, wrap64, PAGE_SIZE.
  change (2 ^ (64 - 1)) with 9223372036854775808.
  change (2 ^ 64) with 18446744073709551616 in *.
  change (2 ^ 63) with 9223372036854775808 in *.
  rewrite (Z.mod_small ptr 18446744073709551616) by lia.
  destruct (Z.ltb_spec ptr 9223372036854775808); [lia|].
  split; intros Hm.
  - Z.to_euclidean_division_equations. lia.
  - Z.to_euclidean_division_equations. lia.
Qed.

Lemma page_start_rounds_toward_zero_witness :
  page_start (2 ^ 64 - 4096) = 2 ^ 64 - 4096 /\
  page_start (2 ^ 64 - 1) = wrap64 (page_of (2 ^ 64 - 1) + PAGE_SIZE).
Proof.
  split.
  - apply (proj1 (page_start_rounds_toward_zero (2 ^ 64 - 4096) ltac:(lia))). reflexivity.
  - apply (proj2 (page_start_rounds_toward_zero (2 ^ 64 - 1) ltac:(lia))).
    vm_compute. discriminate.
Defined.

(** ** Links *)

(** X5. [addFirst lst freeNode] stores [lst] in the eight bytes at
    [freeNode] and returns [freeNode]; [removeFirst] on it then reads [lst]
    back.  Only those eight bytes change.  When one of the eight bytes is not
    mapped - at the null pointer, say - both accesses fault. *)
Theorem addFirst_then_removeFirst (st : state) (lst freeNode : Z) :
  (link_mapped (mem st) freeNode -> 0 <= lst < 2 ^ 64 ->
   exists st',
     addFirst lst freeNode st = Ret freeNode st' /\
     removeFirst freeNode st' = Ret lst st' /\
     freelists st' = freelists st /\ trace st' = trace st /\
     forall x, x < freeNode \/ freeNode + 8 <= x -> mem st' x = mem st x) /\
  ((exists i, 0 <= i < 8 /\ mem st (freeNode + i) = None) ->
   addFirst lst freeNode st = Crash /\ removeFirst freeNode st = Crash).
Proof.
  split.
  - intros Hlink Hlst.
    pose proof (store_succeeds 8 (mem st) freeNode lst Hlink) as Hst.
    exists (mkState (freelists st) (write_bytes (mem st) freeNode (le_split 8 lst))
                    (trace st)).
    split; [|split; [|split; [reflexivity|split; [reflexivity|]]]].
    + unfold addFirst. erewrite bind_Ret by (apply store_st_Ret; exact Hst).
      reflexivity.
    + unfold removeFirst. apply load_st_Ret. cbn [mem].
      rewrite (store_load_same _ _ _ _ _ Hst). f_equal.
      apply Z.mod_small. exact Hlst.
    + intros x Hx. cbn [mem]. eapply store_outside; [exact Hst|]. simpl. lia.
  - intros (i & Hi & Hm). split.
    + unfold addFirst, bind, store_st.
      rewrite (store_unmapped 8 _ _ _ i) by assumption. reflexivity.
    + unfold removeFirst, load_st.
      rewrite (load_unmapped 8 _ _ i) by assumption. reflexivity.
Qed.

Lemma addFirst_then_removeFirst_witness :
  (exists st',
     addFirst (page_A + 1024) (page_A + 2048) one_page = Ret (page_A + 2048) st' /\
     removeFirst (page_A + 2048) st' = Ret (page_A + 1024) st' /\
     freelists st' = freelists one_page /\ trace st' = trace one_page /\
     forall x, x < page_A + 2048 \/ page_A + 2048 + 8 <= x -> mem st' x = mem one_page x) /\
  (addFirst (page_A + 2048) NULL one_page = Crash /\ removeFirst NULL one_page = Crash).
Proof.
  split.
  - apply (proj1 (addFirst_then_removeFirst one_page (page_A + 1024) (page_A + 2048))).
    + unfold link_mapped. apply (mapped_by_computation _ _ 8). vm_compute. reflexivity.
    + vm_compute. split; [discriminate|reflexivity].
  - apply (proj2 (addFirst_then_removeFirst one_page (page_A + 2048) NULL)).
    exists 0. split; [lia|]. vm_compute. reflexivity.
Defined.

(** ** Allocation *)

(** X6. Of a request of at most 2048 bytes [xxmalloc] sees only the
    class: two requests of the same class have the same outcome, in every
    state and for every answer of the operating system - the outcome of a
    request for the class size itself.  A request for 0 bytes is served like
    one for 16. *)
Theorem xxmalloc_serves_the_class (n n' : Z) (os : os_reply) (st : state) :
  0 <= n <= 2048 -> 0 <= n' <= 2048 -> roundPowers n = roundPowers n' ->
  xxmalloc n os st = xxmalloc n' os st /\
  xxmalloc n os st = xxmalloc (roundPowers n) os st.
Proof.
  intros Hn Hn' E.
  pose proof (roundPowers_class n ltac:(lia)) as Hc.
  destruct (class_facts _ Hc) as (Hs & _).
  rewrite (xxmalloc_small n) by exact Hn.
  rewrite (xxmalloc_small n') by exact Hn'.
  rewrite (xxmalloc_small (roundPowers n)) by lia.
  rewrite roundPowers_idempotent by lia. rewrite E. split; reflexivity.
Qed.

Lemma xxmalloc_serves_the_class_witness :
  xxmalloc 0 (reply page_A) (init_state empty_memory)
  = xxmalloc 16 (reply page_A) (init_state empty_memory) /\
  xxmalloc 0 (reply page_A) (init_state empty_memory)
  = xxmalloc (roundPowers 0) (reply page_A) (init_state empty_memory).
Proof.
  apply (xxmalloc_serves_the_class 0 16 (reply page_A) (init_state empty_memory));
    [lia | lia | reflexivity].
Defined.

(** X7. When the free list of the request's class is not empty,
    [xxmalloc] returns its first block and leaves the rest as the list; it
    calls nothing outside (the trace is unchanged, whatever [mmap] would
    have answered), writes nothing to memory, and leaves the heads of the
    other classes as they are. *)
Theorem xxmalloc_pops_the_list
        (st : state) (n : Z) (os : os_reply) (b : Z) (l : list Z) :
  0 <= n <= 2048 ->
  List.length (freelists st) = 8%nat ->
  list_of st (roundPowers n) (b :: l) ->
  exists st',
    xxmalloc n os st = Ret b st' /\
    list_of st' (roundPowers n) l /\
    mem st' = mem st /\ trace st' = trace st /\
    forall t, is_class t -> t <> roundPowers n -> head_of st' t = head_of st t.
Proof.
  intros Hn Hlen Hch.
  pose proof (roundPowers_class n ltac:(lia)) as Hc.
  destruct (list_of_cons_inv _ _ _ _ Hch) as (Hh & Hb & nxt & Hl & Hrest).
  subst b. unfold list_of.
  eexists. split; [apply (xxmalloc_pop n os st nxt Hn Hb Hl)|].
  cbn [mem trace]. split; [|split; [reflexivity|split; [reflexivity|]]].
  - rewrite head_of_set_same by assumption. exact Hrest.
  - intros t Ht Hne. apply head_of_set_other; try assumption. congruence.
Qed.

Lemma xxmalloc_pops_the_list_witness :
  exists st',
    xxmalloc 1000 (reply page_B) (after (xxmalloc 1024 (reply page_A) (init_state empty_memory)))
    = Ret (page_A + 2048) st' /\
    list_of st' (roundPowers 1000) [page_A + 3072].
Proof.
  destruct (xxmalloc_pops_the_list
              (after (xxmalloc 1024 (reply page_A) (init_state empty_memory)))
              1000 (reply page_B) (page_A + 2048) [page_A + 3072])
    as (st' & Hrun & Hl & _).
  - lia.
  - vm_compute. reflexivity.
  - apply chain_b_true. vm_compute. reflexivity.
  - exists st'. split; [exact Hrun|exact Hl].
Defined.

(** X8. Starting with the list of a class empty, the first allocation
    carves one page, and that page serves up to blocksPerPage consecutive
    allocations of the class in the order of the addresses: the j-th pointer,
    from 0, is the page base plus (j + 1) times the class size.  The blocks
    of the page not yet handed out remain as the list, and there is exactly
    one page-carve event. *)
Theorem fresh_page_is_served_in_address_order
        (n : Z) (os : os_reply) (oss : list os_reply) (st : state) :
  0 <= n <= 2048 ->
  List.length (freelists st) = 8%nat ->
  head_of st (roundPowers n) = NULL ->
  mmap_ok (mem st) PAGE_SIZE (mmap_ret os) = true ->
  mmap_ret os <> MAP_FAILED ->
  Z.of_nat (List.length oss) < blocksPerPage (roundPowers n) ->
  exists ps st',
    xxmalloc_many n (os :: oss) st = Ret ps st' /\
    List.length ps = S (List.length oss) /\
    (forall j, (j < S (List.length oss))%nat ->
               nth j ps NULL = mmap_ret os + (Z.of_nat j + 1) * roundPowers n) /\
    list_of st' (roundPowers n)
            (skipn (S (List.length oss)) (page_blocks (mmap_ret os) (roundPowers n))) /\
    carve_events (trace st') = carve_events (trace st) + 1.
Proof.
  intros Hn Hlen Hh Hok Hne Hk.
  destruct (fresh_page_order n os oss st Hn Hlen Hh Hok Hne Hk)
    as (st' & Hrun & Hl & Htr).
  pose proof (roundPowers_class n ltac:(lia)) as Hc.
  destruct (class_facts _ Hc) as (_ & Hb & _).
  pose proof (blocks_from_length (mmap_ret os + roundPowers n) (roundPowers n)
                (Z.to_nat (blocksPerPage (roundPowers n)))) as Hblen.
  fold (page_blocks (mmap_ret os) (roundPowers n)) in Hblen.
  do 2 eexists. split; [exact Hrun|]. split; [|split; [|split; [exact Hl|]]].
  - rewrite firstn_length_le by lia. reflexivity.
  - intros j Hj. rewrite nth_firstn.
    destruct (Nat.ltb_spec j (S (List.length oss))); [|lia].
    unfold page_blocks. rewrite blocks_from_nth by lia. lia.
  - rewrite Htr. rewrite carve_events_app. reflexivity.
Qed.

Lemma fresh_page_is_served_in_address_order_witness :
  exists ps st',
    xxmalloc_many 1024 [reply page_A; reply page_B; reply page_B] (init_state empty_memory)
    = Ret ps st' /\
    List.length ps = 3%nat /\
    (forall j, (j < 3)%nat ->
               nth j ps NULL = page_A + (Z.of_nat j + 1) * roundPowers 1024) /\
    list_of st' (roundPowers 1024) [] /\
    carve_events (trace st') = carve_events (trace (init_state empty_memory)) + 1.
Proof.
  apply (fresh_page_is_served_in_address_order 1024 (reply page_A)
           [reply page_B; reply page_B] (init_state empty_memory)).
  - lia.
  - reflexivity.
  - reflexivity.
  - vm_compute. reflexivity.
  - vm_compute. discriminate.
  - vm_compute. reflexivity.
Defined.

(** X9. In a state that satisfies the invariant, the operating system
    keeping its contract, a pointer returned by [xxmalloc n] is not null and
    is 16-byte aligned, and [extent n] bytes from it - at least [n]: the
    class size, or the request rounded up to pages - are mapped, below
    2^63. *)
Theorem xxmalloc_returns_usable_memory
        (st : state) (n : Z) (os : os_reply) (p : Z) (st' : state) :
  wf st -> os_ok (OpMalloc n os) st ->
  xxmalloc n os st = Ret p st' ->
  p <> NULL /\ p mod MIN_MALLOC_SIZE = 0 /\
  n <= extent n /\ p + extent n <= 2 ^ 63 /\
  forall i, 0 <= i < extent n -> mapped (mem st') (p + i).
Proof.
  intros Hwf Hos Hrun. pose proof Hos as [Hn Hok].
  destruct (xxmalloc_lists _ _ _ _ _ Hwf Hos Hrun) as (_ & _ & Hbig & Hsmall).
  unfold extent, MIN_MALLOC_SIZE.
  destruct (Z.gtb_spec n 2048) as [Hgt | Hle].
  - destruct (Hbig Hgt) as (Ef & -> & Hm).
    destruct (mmap_ok_fresh _ _ _ Hok Ef) as (Hlen & Hr & Hal & Hhi & _).
    assert (n <= 2 ^ 64 - PAGE_SIZE) as Hfit.
    { destruct (Z_le_dec n (2 ^ 64 - PAGE_SIZE)) as [|Hwrap]; [assumption|].
      rewrite ROUND_UP_wraps in Hlen by lia. lia. }
    destruct (ROUND_UP_bounds n PAGE_SIZE) as (_ & Hb & _);
      try (unfold PAGE_SIZE in *; lia).
    split; [unfold NULL; lia|]. split.
    { unfold PAGE_SIZE in Hal. Z.div_mod_to_equations. lia. }
    split; [lia|]. split; [exact Hhi|].
    intros i Hi. rewrite Hm. unfold mapped.
    rewrite map_zero_inside by lia. discriminate.
  - pose proof (roundPowers_class n Hle) as Hc.
    destruct (Hsmall Hle) as (Hblk & _).
    destruct (block_in_page _ _ _ Hc Hblk) as (_ & _ & Hhi).
    destruct (roundPowers_smallest n Hle) as (_ & Hge & _).
    split; [destruct Hblk as [? _]; unfold NULL; lia|]. split.
    { apply (class_multiple_of_16 _ _ Hc). eapply is_block_aligned; eassumption. }
    split; [exact Hge|]. split; [exact Hhi|].
    apply (is_block_readable _ _ _ Hc Hblk).
Qed.

Lemma xxmalloc_returns_usable_memory_witness :
  page_A + 1024 <> NULL /\ (page_A + 1024) mod MIN_MALLOC_SIZE = 0 /\
  1000 <= extent 1000 /\ page_A + 1024 + extent 1000 <= 2 ^ 63 /\
  forall i, 0 <= i < extent 1000 ->
            mapped (mem (after (xxmalloc 1000 (reply page_A) (init_state empty_memory))))
                   (page_A + 1024 + i).
Proof.
  apply (xxmalloc_returns_usable_memory (init_state empty_memory) 1000 (reply page_A)).
  - apply wf_init.
  - split; [lia|]. vm_compute. reflexivity.
  - apply Ret_after. vm_compute. reflexivity.
Defined.

(** X10. [xxmalloc_usable_size] answers the class size not only for the
    pointer that [xxmalloc] returned but for every pointer inside the
    block. *)
Theorem usable_size_of_interior_pointer
        (st : state) (n : Z) (os : os_reply) (p : Z) (st' : state) (k : Z) :
  wf st -> os_ok (OpMalloc n os) st -> n <= 2048 ->
  xxmalloc n os st = Ret p st' ->
  0 <= k < roundPowers n ->
  xxmalloc_usable_size (p + k) st' = Ret (roundPowers n) st'.
Proof.
  intros Hwf Hos Hn Hrun Hk.
  pose proof (roundPowers_class n Hn) as Hc.
  destruct (xxmalloc_lists _ _ _ _ _ Hwf Hos Hrun) as (_ & _ & _ & Hsmall).
  destruct (Hsmall Hn) as (Hblk & _).
  destruct (block_in_page _ _ _ Hc Hblk) as (Hlo & Hin & Hhi).
  destruct (class_facts _ Hc) as (Hs & _).
  pose proof Hblk as (Hb & _ & Hh & _).
  destruct (page_of_low p ltac:(lia)) as [Hpg _].
  apply usable_size_in_page. split; [lia|].
  rewrite (page_of_within (page_of p)); [exact Hh|apply page_of_aligned|lia].
Qed.

Lemma usable_size_of_interior_pointer_witness :
  xxmalloc_usable_size (page_A + 2048 + 2047) one_page = Ret (roundPowers 2048) one_page.
Proof.
  apply (usable_size_of_interior_pointer
           (init_state empty_memory) 2048 (reply page_A) (page_A + 2048) one_page 2047).
  - apply wf_init.
  - split; [lia|]. vm_compute. reflexivity.
  - lia.
  - exact one_page_run.
  - vm_compute. split; [discriminate|reflexivity].
Defined.

(** ** Oversized requests *)

(** X11. A request of more than 2048 bytes (small enough for the
    rounding not to wrap) whose mapping succeeds returns the start of the
    mapped region: page aligned, not null, as long as the request rounded up
    to a multiple of the page size, and zero filled.  [freelists] and the
    memory mapped before are untouched and the trace gains the one private
    [mmap] call.  No header is written: for every pointer into the region
    [xxmalloc_usable_size] answers [(size_t) -1], not a size. *)
Theorem oversized_request_maps_a_region (st : state) (n : Z) (os : os_reply) :
  2048 < n <= 2 ^ 64 - PAGE_SIZE ->
  mmap_ok (mem st) (ROUND_UP n PAGE_SIZE) (mmap_ret os) = true ->
  mmap_ret os <> MAP_FAILED ->
  exists st',
    xxmalloc n os st = Ret (mmap_ret os) st' /\
    freelists st' = freelists st /\
    trace st'
    = (trace st ++ [EvMmap (ROUND_UP n PAGE_SIZE) MAP_ANONYMOUS_PRIVATE (mmap_ret os)])%list /\
    mmap_ret os <> NULL /\ mmap_ret os mod PAGE_SIZE = 0 /\
    n <= ROUND_UP n PAGE_SIZE < n + PAGE_SIZE /\
    ROUND_UP n PAGE_SIZE mod PAGE_SIZE = 0 /\
    (forall x, mapped (mem st) x -> mem st' x = mem st x) /\
    (forall q, mmap_ret os <= q < mmap_ret os + ROUND_UP n PAGE_SIZE ->
               mem st' q = Some Byte.x00 /\
               xxmalloc_usable_size q st' = Ret (wrap64 (-1)) st').
Proof.
  intros Hn Hok Hne.
  destruct (mmap_ok_fresh _ _ _ Hok Hne) as (Hlen & Hr & Hal & Hhi & Hfree).
  destruct (ROUND_UP_bounds n PAGE_SIZE) as (Hmul & Hb & _);
    try (unfold PAGE_SIZE in *; lia).
  eexists. split; [apply xxmalloc_oversized; [lia|exact Hne]|].
  cbn [freelists mem trace].
  split; [reflexivity|]. split; [reflexivity|].
  split; [unfold NULL; lia|]. split; [exact Hal|]. split; [exact Hb|].
  split; [exact Hmul|]. split.
  - apply map_zero_extends. exact Hfree.
  - intros q Hq. split; [apply map_zero_inside; exact Hq|].
    destruct (oversized_region_tag (mem st) (mmap_ret os) (ROUND_UP n PAGE_SIZE) q)
      as [Hq0 Htag]; try assumption.
    eapply usable_size_mismatch; [exact Hq0 | cbn [mem]; exact Htag | discriminate].
Qed.

Lemma oversized_request_maps_a_region_witness :
  exists st',
    xxmalloc 5000 (reply page_A) (init_state empty_memory) = Ret page_A st' /\
    freelists st' = freelists (init_state empty_memory) /\
    ROUND_UP 5000 PAGE_SIZE = 8192 /\
    xxmalloc_usable_size (page_A + 4096) st' = Ret (wrap64 (-1)) st'.
Proof.
  destruct (oversized_request_maps_a_region (init_state empty_memory) 5000 (reply page_A))
    as (st' & Hrun & Hfl & _ & _ & _ & _ & _ & _ & Hq).
  - vm_compute. split; [reflexivity|discriminate].
  - vm_compute. reflexivity.
  - vm_compute. discriminate.
  - exists st'. split; [exact Hrun|]. split; [exact Hfl|]. split; [reflexivity|].
    apply Hq. vm_compute. split; [discriminate|reflexivity].
Defined.

(** X12. When the mapping for a request of more than 2048 bytes fails,
    [xxmalloc] writes its 24-byte diagnostic to standard error through
    [log_message]; if [write] reports anything but 24, [log_message] writes a
    second, 16-byte message (its terminating zero byte included).  Either
    way the process exits with code 2, free lists and memory untouched. *)
Theorem oversized_failure_ends_the_process (n : Z) (os : os_reply) (st : state) :
  2048 < n -> mmap_ret os = MAP_FAILED ->
  xxmalloc n os st
  = Exit 2 (mkState (freelists st) (mem st)
                    (trace st ++ oversized_failure_events (ROUND_UP n PAGE_SIZE)
                                                          (write_ret os))).
Proof. apply xxmalloc_oversized_failure. Qed.

Lemma oversized_failure_ends_the_process_witness :
  xxmalloc 5000 (mkReply MAP_FAILED 3) (init_state empty_memory)
  = Exit 2 (mkState (freelists (init_state empty_memory)) empty_memory
                    [EvMmap 8192 MAP_ANONYMOUS_PRIVATE MAP_FAILED;
                     EvWrite STDERR_FILENO ("mmap failed! Giving up." ++ newline) 24;
                     EvWrite STDERR_FILENO ("logging failed" ++ newline) 16]).
Proof.
  apply (oversized_failure_ends_the_process 5000 (mkReply MAP_FAILED 3)
           (init_state empty_memory)).
  - lia.
  - reflexivity.
Defined.

(** X13. For a request within PAGE_SIZE - 1 of the largest [size_t],
    rounding up to pages wraps to 0: [xxmalloc] asks [mmap] for zero bytes,
    which the operating system refuses, and the process exits with code 2. *)
Theorem request_near_the_top_of_size_t (n : Z) (os : os_reply) (st : state) :
  2 ^ 64 - PAGE_SIZE < n < 2 ^ 64 ->
  mmap_ok (mem st) (ROUND_UP n PAGE_SIZE) (mmap_ret os) = true ->
  ROUND_UP n PAGE_SIZE = 0 /\
  xxmalloc n os st
  = Exit 2 (mkState (freelists st) (mem st)
                    (trace st ++ oversized_failure_events 0 (write_ret os))).
Proof.
  intros Hn Hok.
  pose proof (ROUND_UP_wraps n Hn) as E. split; [exact E|].
  rewrite <- E. apply xxmalloc_oversized_failure.
  - unfold PAGE_SIZE in Hn. change (2 ^ 64) with 18446744073709551616 in Hn. lia.
  - rewrite E in Hok. unfold mmap_ok in Hok.
    change (0 <? 0) with false in Hok. cbn [andb] in Hok.
    rewrite orb_false_r in Hok. apply Z.eqb_eq. exact Hok.
Qed.

Lemma request_near_the_top_of_size_t_witness :
  ROUND_UP (2 ^ 64 - 1) PAGE_SIZE = 0 /\
  xxmalloc (2 ^ 64 - 1) (mkReply MAP_FAILED 24) (init_state empty_memory)
  = Exit 2 (mkState (freelists (init_state empty_memory)) empty_memory
                    [EvMmap 0 MAP_ANONYMOUS_PRIVATE MAP_FAILED;
                     EvWrite STDERR_FILENO ("mmap failed! Giving up." ++ newline) 24]).
Proof.
  apply (request_near_the_top_of_size_t (2 ^ 64 - 1) (mkReply MAP_FAILED 24)
           (init_state empty_memory)).
  - vm_compute. split; reflexivity.
  - vm_compute. reflexivity.
Defined.

(** X14. The allocator leaves the region of an oversized allocation to
    the program.  Over any run of later valid operations, none of them the
    free of a pointer into the region, and of stores of the program - into
    the region, into a block in use, or elsewhere clear of the free lists -
    the invariant holds, every byte of the region holds what the program's
    stores put there, zero where it stored nothing, and the memory that any
    later [xxmalloc] returns does not overlap the region. *)
Theorem oversized_region_is_left_alone
        (st0 : state) (n : Z) (os : os_reply) (r : Z) (st1 : state)
        (acts : list action) (st2 : state) :
  wf st0 -> os_ok (OpMalloc n os) st0 -> 2048 < n ->
  xxmalloc n os st0 = Ret r st1 ->
  run (region_use r (extent n)) st1 acts st2 ->
  wf st2 /\
  (forall x, r <= x < r + extent n ->
             mem st2 x = program_stores acts (fun _ => Some Byte.x00) x) /\
  (forall n' os' q st3,
      os_ok (OpMalloc n' os') st2 ->
      xxmalloc n' os' st2 = Ret q st3 ->
      q + extent n' <= r \/ r + extent n <= q).
Proof.
  intros Hwf0 Hos Hn Hrun Hacts.
  destruct (region_kept_fresh _ _ _ _ _ Hwf0 Hos Hn Hrun)
    as (Hpos & Hal & Hmul & Hk1 & Hzero).
  destruct (region_use_run _ _ _ _ _ Hal Hmul Hacts Hk1) as [Hk2 Hbytes].
  split; [exact (proj1 Hk2)|]. split.
  - intros x Hx. rewrite Hbytes by exact Hx.
    apply program_stores_local. apply Hzero. exact Hx.
  - intros n' os' q st3 Hos' Hrun'.
    eapply xxmalloc_outside_region; eassumption.
Qed.

Lemma oversized_region_is_left_alone_witness :
  let st2 := after (run_op (OpMalloc 64 (reply page_C)) region_with_sentinel) in
  wf st2 /\
  (forall x, page_B <= x < page_B + extent 5000 ->
             mem st2 x
             = program_stores (sentinel_stores ++ [Call (OpMalloc 64 (reply page_C))])
                              (fun _ => Some Byte.x00) x) /\
  (forall n' os' q st3,
      os_ok (OpMalloc n' os') st2 ->
      xxmalloc n' os' st2 = Ret q st3 ->
      q + extent n' <= page_B \/ page_B + extent 5000 <= q).
Proof.
  apply (oversized_region_is_left_alone
           (init_state empty_memory) 5000 (reply page_B) page_B region_mapped).
  - apply wf_init.
  - split; [lia|]. vm_compute. reflexivity.
  - lia.
  - apply Ret_after. vm_compute. reflexivity.
  - apply run_cons
      with (st1 := after (run_action (Store page_B (le_split 4 MAGIC_NUMBER))
                                     region_mapped)).
    { left. vm_compute. split; discriminate. }
    { apply Ret_after. vm_compute. reflexivity. }
    apply run_cons with (st1 := region_with_sentinel).
    { left. vm_compute. split; discriminate. }
    { apply Ret_after. vm_compute. reflexivity. }
    eapply run_cons; [| |apply run_nil].
    + split; [|discriminate]. split; [|exact I].
      split; [lia|]. vm_compute. reflexivity.
    + unfold run_action. apply Ret_after. vm_compute. reflexivity.
Defined.

(** ** Frees *)

(** X15. In a state that satisfies the invariant, [xxfree] of a block of
    class [s] that is not on its list pushes the block: the list of [s]
    becomes the block followed by the old list, the lists of the other
    classes are as before, only the eight bytes at the start of the block
    are written, nothing is called outside, and the invariant holds again. *)
Theorem xxfree_pushes_the_block (st : state) (s p : Z) (l : list Z) :
  wf st -> is_class s -> is_block (mem st) s p ->
  list_of st s l -> ~ In p l ->
  exists st',
    xxfree p st = Ret tt st' /\ wf st' /\
    list_of st' s (p :: l) /\
    trace st' = trace st /\
    (forall x, x < p \/ p + 8 <= x -> mem st' x = mem st x) /\
    (forall t lt, is_class t -> t <> s -> list_of st t lt -> list_of st' t lt).
Proof.
  intros Hwf Hc Hp Hl Hnin.
  destruct (xxfree_lists st s p l Hwf Hc Hp Hl Hnin)
    as (st' & Hrun & Hwf' & Hpush & Htr & Hout & _ & Hoth).
  exists st'. repeat (split; [assumption|]). exact Hoth.
Qed.

Lemma xxfree_pushes_the_block_witness :
  exists st',
    xxfree (page_A + 2048) one_page = Ret tt st' /\ wf st' /\
    list_of st' 2048 [page_A + 2048] /\
    trace st' = trace one_page /\
    (forall x, x < page_A + 2048 \/ page_A + 2048 + 8 <= x -> mem st' x = mem one_page x) /\
    (forall t lt, is_class t -> t <> 2048 -> list_of one_page t lt -> list_of st' t lt).
Proof.
  destruct one_page_live as [Hwf [Hblk _]].
  apply (xxfree_pushes_the_block one_page 2048 (page_A + 2048) [] Hwf).
  - vm_compute. tauto.
  - exact Hblk.
  - constructor.
  - intros [].
Defined.

(** X16. [xxfree] of a pointer whose page carries the sentinel trusts the
    size recorded in the header.  When the recorded size, converted to
    [int], is not a multiple of 16 or is a multiple of 4096 (0 included),
    the index computed from it is undefined or lies outside [freelists]: the
    behaviour is undefined.  Otherwise the pointer is pushed on the slot
    given by the trailing zero bits of the recorded size, whether that size
    is a class or not. *)
Theorem xxfree_trusts_the_recorded_size
        (st : state) (ptr tag block_size : Z) :
  ptr <> NULL ->
  load 4 (mem st) (page_start ptr) = Some tag ->
  to_int tag = MAGIC_NUMBER ->
  load 8 (mem st) (ptr_add (page_start ptr) 8) = Some block_size ->
  block_size <> wrap64 (-1) ->
  (to_int block_size mod 16 <> 0 \/ to_int block_size mod PAGE_SIZE = 0 ->
   xxfree ptr st = Crash) /\
  (to_int block_size mod 16 = 0 -> to_int block_size mod PAGE_SIZE <> 0 ->
   link_mapped (mem st) ptr ->
   exists i m',
     roundPowersList (to_int block_size) = Some i /\ in_bounds i = true /\
     store 8 (mem st) ptr (nth (Z.to_nat i) (freelists st) NULL) = Some m' /\
     xxfree ptr st
     = Ret tt (mkState (list_set (freelists st) (Z.to_nat i) ptr) m' (trace st))).
Proof.
  intros Hp Ht Hm Hb Hne.
  rewrite (xxfree_header_size st ptr tag block_size Hp Ht Hm Hb Hne).
  pose proof (to_int_range block_size) as Hr.
  unfold bind at 1 3. unfold roundPowersList_st.
  destruct (Z.eq_dec (to_int block_size) 0) as [E0 | E0].
  { rewrite E0. split; [reflexivity|]. intros _ H. exfalso. apply H. reflexivity. }
  destruct (roundPowersList_spec _ Hr E0) as (i & Ei & _ & _ & _ & Hin).
  rewrite Ei. split.
  - intros Hbad. unfold bind, fl_get.
    destruct (in_bounds i); [|reflexivity].
    exfalso. destruct (proj1 Hin eq_refl) as [H16 H4096]. tauto.
  - intros H16 H4096 Hlink.
    assert (in_bounds i = true) as Hi by (apply Hin; tauto).
    pose proof (store_succeeds 8 (mem st) ptr (nth (Z.to_nat i) (freelists st) NULL) Hlink)
      as Hst.
    do 2 eexists. split; [reflexivity|]. split; [exact Hi|]. split; [exact Hst|].
    unfold fl_get, addFirst, store_st, ret, fl_set. unfold bind.
    rewrite Hi. rewrite Hst. cbn [freelists mem trace]. reflexivity.
Qed.

Lemma xxfree_trusts_the_recorded_size_witness :
  xxfree (page_A + 100) (init_state foreign_memory) = Crash.
Proof.
  apply (proj1 (xxfree_trusts_the_recorded_size
                  (init_state foreign_memory) (page_A + 100) MAGIC_NUMBER 0
                  ltac:(vm_compute; discriminate)
                  ltac:(vm_compute; reflexivity)
                  ltac:(reflexivity)
                  ltac:(vm_compute; reflexivity)
                  ltac:(vm_compute; discriminate))).
  right. reflexivity.
Defined.

(** X17. An allocation served from a non-empty list, followed by the free
    of the pointer it returned, restores the state exactly: [freelists], the
    trace and every byte of memory are as before the allocation. *)
Theorem malloc_then_free_restores_the_state
        (st : state) (n : Z) (os : os_reply) (b : Z) (l : list Z) :
  0 <= n <= 2048 ->
  List.length (freelists st) = 8%nat ->
  list_of st (roundPowers n) (b :: l) ->
  in_page_of_class (mem st) (roundPowers n) b ->
  exists st1 st2,
    xxmalloc n os st = Ret b st1 /\
    xxfree b st1 = Ret tt st2 /\
    freelists st2 = freelists st /\
    trace st2 = trace st /\
    forall x, mem st2 x = mem st x.
Proof.
  intros Hn Hlen Hch Hin.
  pose proof (roundPowers_class n ltac:(lia)) as Hc.
  destruct (list_of_cons_inv _ _ _ _ Hch) as (Hh & Hb & nxt & Hl & Hrest).
  subst b.
  destruct (store_back 8 (mem st) _ nxt Hl) as (m' & Hst & Hsame).
  do 2 eexists. split; [apply (xxmalloc_pop n os st nxt Hn Hb Hl)|].
  split.
  { apply (xxfree_push _ _ (roundPowers n) m' Hc).
    - exact Hin.
    - cbn [mem]. rewrite head_of_set_same by assumption. exact Hst. }
  cbn [freelists mem trace]. split; [|split; [reflexivity|exact Hsame]].
  rewrite list_set_twice. unfold head_of. apply list_set_same.
Qed.

Lemma malloc_then_free_restores_the_state_witness :
  let st := after (xxmalloc 1024 (reply page_A) (init_state empty_memory)) in
  exists st1 st2,
    xxmalloc 1000 (reply page_B) st = Ret (page_A + 2048) st1 /\
    xxfree (page_A + 2048) st1 = Ret tt st2 /\
    freelists st2 = freelists st /\
    trace st2 = trace st /\
    forall x, mem st2 x = mem st x.
Proof.
  apply (malloc_then_free_restores_the_state
           (after (xxmalloc 1024 (reply page_A) (init_state empty_memory)))
           1000 (reply page_B) (page_A + 2048) [page_A + 3072]).
  - lia.
  - vm_compute. reflexivity.
  - apply chain_b_true. vm_compute. reflexivity.
  - split; [vm_compute; split; reflexivity|].
    split; vm_compute; reflexivity.
Defined.

(** X18. A free list is a stack.  After the frees of pairwise distinct
    blocks in use p1, ..., pk of one class, in this order, the list of the
    class is pk, ..., p1 followed by the old list, and the next k
    allocations of the class return pk, ..., p1 and leave the old list. *)
Theorem frees_then_allocations_are_lifo (s : Z) (ps : list Z) :
  is_class s ->
  forall (st : state) (l : list Z),
    wf st -> list_of st s l ->
    NoDup ps -> Forall (is_block (mem st) s) ps ->
    (forall p, In p ps -> ~ In p l) ->
    exists st1,
      xxfree_many ps st = Ret tt st1 /\ wf st1 /\
      list_of st1 s (rev ps ++ l) /\
      forall n oss,
        0 <= n <= 2048 -> roundPowers n = s ->
        List.length oss = List.length ps ->
        exists st2, xxmalloc_many n oss st1 = Ret (rev ps) st2 /\
                    list_of st2 s l.
Proof.
  intros Hc.
  assert (forall ps (st : state) (l : list Z),
             wf st -> list_of st s l ->
             NoDup ps -> Forall (is_block (mem st) s) ps ->
             (forall p, In p ps -> ~ In p l) ->
             exists st1,
               xxfree_many ps st = Ret tt st1 /\ wf st1 /\
               list_of st1 s (rev ps ++ l)) as Hfrees.
  { clear ps. induction ps as [|p ps IH]; intros st l Hwf Hl Hnd Hf Hnin.
    - exists st. split; [reflexivity|]. split; [exact Hwf|exact Hl].
    - inversion Hnd as [|? ? Hp Hnd']; subst.
      inversion Hf as [|? ? Hblk Hf']; subst.
      destruct (xxfree_lists st s p l Hwf Hc Hblk Hl (Hnin p (or_introl eq_refl)))
        as (st' & Hrun & Hwf' & Hpush & _ & _ & Hkeep & _).
      destruct (IH st' (p :: l) Hwf' Hpush Hnd') as (st1 & Hrun1 & Hwf1 & Hl1).
      + eapply Forall_impl; [|exact Hf']. intros b. apply Hkeep. exact Hc.
      + intros q Hq [<- | Hin]; [contradiction|].
        apply (Hnin q); [right; exact Hq|exact Hin].
      + exists st1. split.
        { cbn [xxfree_many]. unfold bind. rewrite Hrun. exact Hrun1. }
        split; [exact Hwf1|].
        cbn [rev]. rewrite <- app_assoc. exact Hl1. }
  intros st l Hwf Hl Hnd Hf Hnin.
  destruct (Hfrees ps st l Hwf Hl Hnd Hf Hnin) as (st1 & Hrun1 & Hwf1 & Hl1).
  exists st1. split; [exact Hrun1|]. split; [exact Hwf1|]. split; [exact Hl1|].
  intros n oss Hn Hs Hk. subst s.
  destruct (xxmalloc_many_pops n Hn (rev ps) oss st1 l) as (st2 & Hrun2 & Hl2 & _).
  - destruct Hwf1; assumption.
  - exact Hl1.
  - rewrite length_rev. exact Hk.
  - exists st2. split; assumption.
Qed.

Lemma frees_then_allocations_are_lifo_witness :
  exists st1,
    xxfree_many [page_A + 1024; page_A + 2048] three_blocks = Ret tt st1 /\ wf st1 /\
    list_of st1 1024 [page_A + 2048; page_A + 1024] /\
    forall n oss,
      0 <= n <= 2048 -> roundPowers n = 1024 ->
      List.length oss = 2%nat ->
      exists st2, xxmalloc_many n oss st1 = Ret [page_A + 2048; page_A + 1024] st2 /\
                  list_of st2 1024 [].
Proof.
  apply (frees_then_allocations_are_lifo 1024 [page_A + 1024; page_A + 2048]
           ltac:(vm_compute; tauto) three_blocks [] three_blocks_wf).
  - apply chain_b_true. vm_compute. reflexivity.
  - constructor; [|constructor; [intros []|constructor]].
    intros [H | []]. vm_compute in H. discriminate.
  - constructor; [|constructor; [|constructor]];
      apply is_block_b_true; vm_compute; reflexivity.
  - intros p _ [].
Defined.

(** X19. [xxfree] does not detect a double free.  Freeing a pointer twice
    in a row makes the pointer its own successor on the list of its class;
    from then on every allocation of that class returns this same pointer
    and leaves the state as it is. *)
Theorem double_free_hands_out_the_block_forever (st : state) (s p : Z) :
  is_class s ->
  List.length (freelists st) = 8%nat ->
  in_page_of_class (mem st) s p ->
  link_mapped (mem st) p ->
  link_clear_of_headers p ->
  exists st1 st2,
    xxfree p st = Ret tt st1 /\
    xxfree p st1 = Ret tt st2 /\
    head_of st2 s = p /\
    load 8 (mem st2) p = Some p /\
    forall n oss, 0 <= n <= 2048 -> roundPowers n = s ->
                  xxmalloc_many n oss st2 = Ret (repeat p (List.length oss)) st2.
Proof.
  intros Hc Hlen Hin Hlink Hclear.
  pose proof (store_succeeds 8 (mem st) p (head_of st s) Hlink) as Hst1.
  set (m1 := write_bytes (mem st) p (le_split 8 (head_of st s))) in *.
  set (i := Z.to_nat (class_index s)).
  set (st1 := mkState (list_set (freelists st) i p) m1 (trace st)).
  assert (xxfree p st = Ret tt st1) as Hrun1 by (apply (xxfree_push st p s m1 Hc Hin Hst1)).
  assert (in_page_of_class (mem st1) s p) as Hin1.
  { destruct Hin as [Hp Hh]. split; [exact Hp|]. cbn [st1 mem].
    eapply header_ok_store; [exact Hst1|exact Hclear|apply page_of_aligned|exact Hh]. }
  assert (head_of st1 s = p) as Hh1.
  { unfold st1. apply head_of_set_same; assumption. }
  assert (link_mapped (mem st1) p) as Hlink1.
  { intros k Hk. cbn [st1 mem]. apply (store_mapped _ _ _ _ _ _ Hst1). apply Hlink. exact Hk. }
  pose proof (store_succeeds 8 (mem st1) p (head_of st1 s) Hlink1) as Hst2.
  set (m2 := write_bytes (mem st1) p (le_split 8 (head_of st1 s))) in *.
  set (st2 := mkState (list_set (freelists st1) i p) m2 (trace st1)).
  assert (xxfree p st1 = Ret tt st2) as Hrun2 by (apply (xxfree_push st1 p s m2 Hc Hin1 Hst2)).
  assert (List.length (freelists st1) = 8%nat) as Hlen1.
  { cbn [st1 freelists]. rewrite list_set_length. exact Hlen. }
  assert (head_of st2 s = p) as Hh2.
  { unfold st2. apply head_of_set_same; assumption. }
  assert (load 8 (mem st2) p = Some p) as Hl2.
  { cbn [st2 mem]. rewrite (store_load_same _ _ _ _ _ Hst2). rewrite Hh1. f_equal.
    apply Z.mod_small. destruct Hin as [Hp _].
    change (2 ^ (Z.of_nat 8 * 8)) with (2 ^ 64).
    assert (2 ^ 63 < 2 ^ 64) by reflexivity. lia. }
  exists st1, st2. split; [exact Hrun1|]. split; [exact Hrun2|].
  split; [exact Hh2|]. split; [exact Hl2|].
  intros n oss Hn Hs.
  assert (forall os, xxmalloc n os st2 = Ret p st2) as Hpop.
  { intros os. subst s.
    rewrite (xxmalloc_pop n os st2 p Hn).
    - rewrite Hh2. f_equal. unfold st2 at 1 4. cbn [freelists mem trace].
      fold i. rewrite list_set_twice. reflexivity.
    - rewrite Hh2. destruct Hin as [Hp _]. unfold NULL. lia.
    - rewrite Hh2. exact Hl2. }
  induction oss as [|os oss IH]; [reflexivity|].
  cbn [xxmalloc_many List.length repeat]. unfold bind at 1. rewrite Hpop.
  unfold bind. rewrite IH. reflexivity.
Qed.

Lemma double_free_hands_out_the_block_forever_witness :
  exists st1 st2,
    xxfree (page_A + 2048) one_page = Ret tt st1 /\
    xxfree (page_A + 2048) st1 = Ret tt st2 /\
    head_of st2 2048 = page_A + 2048 /\
    load 8 (mem st2) (page_A + 2048) = Some (page_A + 2048) /\
    forall n oss, 0 <= n <= 2048 -> roundPowers n = 2048 ->
                  xxmalloc_many n oss st2
                  = Ret (repeat (page_A + 2048) (List.length oss)) st2.
Proof.
  apply (double_free_hands_out_the_block_forever one_page 2048 (page_A + 2048)).
  - vm_compute. tauto.
  - vm_compute. reflexivity.
  - split; [vm_compute; split; reflexivity|].
    split; vm_compute; reflexivity.
  - unfold link_mapped. apply (mapped_by_computation _ _ 8).
    vm_compute. reflexivity.
  - vm_compute. split; discriminate.
Defined.

(** ** The invariant and what it gives *)

(** X20. In every state reached from the start of the process by
    allocations, calls of [xxmalloc_usable_size], and frees of null or of
    blocks that are not on their list (the operating system keeping its
    contract), [freelists] has its eight slots and the list of every class
    is a null-terminated chain of pairwise distinct, non-overlapping blocks
    of that class. *)
Theorem free_lists_stay_well_formed (m0 : memory) (ops : list op) (st : state) :
  steps valid_op (init_state m0) ops st ->
  List.length (freelists st) = 8%nat /\
  forall s, is_class s ->
            exists l, list_of st s l /\ NoDup l /\
                      Forall (is_block (mem st) s) l /\ pairwise_disjoint s l.
Proof.
  intros Hsteps. pose proof (wf_steps _ _ _ Hsteps) as Hwf.
  split; [destruct Hwf; assumption|].
  intros s Hc. destruct (wf_list_of st s Hwf Hc) as (l & Hl & Hnd & Hf).
  exists l. split; [exact Hl|]. split; [exact Hnd|]. split; [exact Hf|].
  eapply blocks_pairwise_disjoint; eassumption.
Qed.

Lemma free_lists_stay_well_formed_witness :
  let st := after (xxfree (page_A + 2048) one_page) in
  List.length (freelists st) = 8%nat /\
  forall s, is_class s ->
            exists l, list_of st s l /\ NoDup l /\
                      Forall (is_block (mem st) s) l /\ pairwise_disjoint s l.
Proof.
  apply (free_lists_stay_well_formed empty_memory
           [OpMalloc 2048 (reply page_A); OpFree (page_A + 2048)]).
  eapply steps_cons; [| |eapply steps_cons; [| |apply steps_nil]].
  - split; [|exact I]. split; [lia|]. vm_compute. reflexivity.
  - unfold run_op, bind. rewrite one_page_run. reflexivity.
  - exact one_page_valid_free.
  - unfold run_op. apply Ret_after. vm_compute. reflexivity.
Defined.

(** X21. In a state that satisfies the invariant the behaviour of
    [xxmalloc] and of [xxfree] is defined.  An allocation returns and keeps
    the invariant (the carve loop ends, every access is to mapped memory,
    every index is inside [freelists]), unless [mmap] failed when it was
    needed - for an oversized request, or for an empty list - in which case
    the process exits.  The free of null, or of a block that is not on its
    list, returns and keeps the invariant. *)
Theorem valid_use_has_defined_behaviour (st : state) :
  wf st ->
  (forall n os,
      os_ok (OpMalloc n os) st ->
      (exists p st', xxmalloc n os st = Ret p st' /\ wf st') \/
      (mmap_ret os = MAP_FAILED /\
       (2048 < n \/ head_of st (roundPowers n) = NULL) /\
       exists code st', xxmalloc n os st = Exit code st')) /\
  (forall p, valid_op (OpFree p) st ->
             exists st', xxfree p st = Ret tt st' /\ wf st').
Proof.
  intros Hwf. split.
  - intros n os Hos. pose proof Hos as [Hn Hok].
    destruct (Z.gtb_spec n 2048) as [Hgt | Hle].
    + destruct (Z.eq_dec (mmap_ret os) MAP_FAILED) as [Ef | Ef].
      * right. split; [exact Ef|]. split; [left; exact Hgt|].
        apply mapping_failure_exits; [lia|exact Ef|left; exact Hgt].
      * left. do 2 eexists. split; [apply xxmalloc_oversized; assumption|].
        eapply wf_xxmalloc; [exact Hwf|exact Hos|].
        apply xxmalloc_oversized; assumption.
    + pose proof (roundPowers_class n Hle) as Hc.
      destruct (xxmalloc_returns_in_page n os st ltac:(lia)
                  (wf_head_sound st _ Hwf Hc) Hok)
        as [(Hh & Ef & st' & Hexit) | (p & st' & Hrun & _)].
      * right. split; [exact Ef|]. split; [right; exact Hh|].
        do 2 eexists. exact Hexit.
      * left. exists p, st'. split; [exact Hrun|].
        eapply wf_xxmalloc; eassumption.
  - intros p [_ [-> | (s & Hc & Hblk & Hfree)]].
    + exists st. split; [reflexivity|exact Hwf].
    + apply (wf_xxfree st s p Hwf Hc Hblk Hfree).
Qed.

Lemma valid_use_has_defined_behaviour_witness :
  ((exists p st', xxmalloc 100 (reply page_A) (init_state empty_memory) = Ret p st' /\ wf st') \/
   (mmap_ret (reply page_A) = MAP_FAILED /\
    (2048 < 100 \/ head_of (init_state empty_memory) (roundPowers 100) = NULL) /\
    exists code st', xxmalloc 100 (reply page_A) (init_state empty_memory) = Exit code st')) /\
  (exists st', xxfree NULL (init_state empty_memory) = Ret tt st' /\ wf st').
Proof.
  split.
  - apply (proj1 (valid_use_has_defined_behaviour (init_state empty_memory)
                    (wf_init empty_memory)) 100 (reply page_A)).
    split; [lia|]. vm_compute. reflexivity.
  - apply (proj2 (valid_use_has_defined_behaviour (init_state empty_memory)
                    (wf_init empty_memory)) NULL).
    split; [exact I|]. left. reflexivity.
Defined.

(** X22. A block in use is not handed out again.  After [xxmalloc] has
    returned [p], and after any run of valid operations that does not free
    [p], the memory that a further allocation returns does not overlap the
    block at [p]. *)
Theorem live_block_is_not_handed_out_again
        (st0 : state) (n : Z) (os : os_reply) (p : Z) (st1 : state)
        (ops : list op) (st2 : state)
        (n' : Z) (os' : os_reply) (q : Z) (st3 : state) :
  wf st0 -> os_ok (OpMalloc n os) st0 -> n <= 2048 ->
  xxmalloc n os st0 = Ret p st1 ->
  steps (keeps_live p) st1 ops st2 ->
  os_ok (OpMalloc n' os') st2 ->
  xxmalloc n' os' st2 = Ret q st3 ->
  p + extent n <= q \/ q + extent n' <= p.
Proof.
  intros Hwf0 Hos Hn Hrun Hsteps Hos' Hrun'.
  pose proof (roundPowers_class n Hn) as Hc.
  destruct (class_facts _ Hc) as (Hs & _).
  destruct (xxmalloc_live _ _ _ _ _ Hwf0 Hos Hn Hrun) as [Hwf1 Hlive1].
  destruct (live_steps _ _ _ _ _ Hc Hsteps Hwf1 Hlive1) as (Hwf2 & [Hblk Hfree] & _).
  pose proof Hos' as [Hn' Hok'].
  destruct (xxmalloc_lists _ _ _ _ _ Hwf2 Hos' Hrun') as (Hext & _ & Hbig & Hsmall).
  unfold extent. destruct (Z.gtb_spec n 2048); [lia|].
  destruct (Z.gtb_spec n' 2048) as [Hgt | Hle].
  - destruct (Hbig Hgt) as (Ef & -> & _).
    destruct (mmap_ok_fresh _ _ _ Hok' Ef) as (Hlen & _ & _ & _ & Hfresh).
    destruct (Z_le_dec (p + roundPowers n) (mmap_ret os')) as [|H1]; [left; assumption|].
    destruct (Z_le_dec (mmap_ret os' + ROUND_UP n' PAGE_SIZE) p) as [|H2];
      [right; assumption|].
    exfalso.
    assert (mapped (mem st2) (Z.max p (mmap_ret os'))) as Hm.
    { replace (Z.max p (mmap_ret os')) with (p + (Z.max p (mmap_ret os') - p)) by lia.
      apply (is_block_readable _ _ _ Hc Hblk). lia. }
    apply Hm. apply Hfresh. lia.
  - pose proof (roundPowers_class n' Hle) as Hc'.
    destruct (Hsmall Hle) as (Hblk' & l' & Hl' & Hcase).
    apply (blocks_disjoint (mem st3) _ _ _ _ Hc Hc').
    + eapply is_block_extends; eassumption.
    + exact Hblk'.
    + intros <-.
      destruct Hcase as [(Hold & _) | (_ & _ & Hpb & Hfresh)].
      * assert (roundPowers n' = roundPowers n).
        { destruct (wf_list_blocks st2 _ _ Hwf2 Hc' Hold) as [_ Hf].
          inversion Hf as [|? ? Hb _]; subst.
          eapply is_block_class_unique; eassumption. }
        apply (Hfree (p :: l')); [congruence|left; reflexivity].
      * apply (page_blocks_fresh (mem st2) (mmap_ret os') (roundPowers n') p Hc' Hfresh).
        -- rewrite <- Hpb. left. reflexivity.
        -- replace p with (p + 0) by lia.
           apply (is_block_readable _ _ _ Hc Hblk). lia.
Qed.

Lemma live_block_is_not_handed_out_again_witness :
  page_A + 2048 + extent 2048 <= page_B + 2048 \/
  page_B + 2048 + extent 1024 <= page_A + 2048.
Proof.
  apply (live_block_is_not_handed_out_again
           (init_state empty_memory) 2048 (reply page_A) (page_A + 2048) one_page
           [OpMalloc 1024 (reply page_B)]
           (after (xxmalloc 1024 (reply page_B) one_page))
           1024 (reply page_C) (page_B + 2048)
           (after (xxmalloc 1024 (reply page_C)
                            (after (xxmalloc 1024 (reply page_B) one_page))))).
  - apply wf_init.
  - split; [lia|]. vm_compute. reflexivity.
  - lia.
  - exact one_page_run.
  - eapply steps_cons; [| |apply steps_nil].
    + split; [|discriminate]. split; [|exact I].
      split; [lia|]. vm_compute. reflexivity.
    + unfold run_op, bind.
      rewrite (Ret_after (xxmalloc 1024 (reply page_B) one_page) (page_B + 1024))
        by (vm_compute; reflexivity).
      reflexivity.
  - split; [lia|]. vm_compute. reflexivity.
  - apply Ret_after. vm_compute. reflexivity.
Defined.

(** X23. The allocator does not write into a block in use.  Over any run
    of valid operations that does not free [p], every byte of the block at
    [p] stays as it was; [xxmalloc_usable_size p] still answers the class
    size, and [xxfree p] is accepted and keeps the invariant. *)
Theorem live_block_keeps_its_bytes
        (st0 : state) (n : Z) (os : os_reply) (p : Z) (st1 : state)
        (ops : list op) (st2 : state) :
  wf st0 -> os_ok (OpMalloc n os) st0 -> n <= 2048 ->
  xxmalloc n os st0 = Ret p st1 ->
  steps (keeps_live p) st1 ops st2 ->
  (forall x, p <= x < p + roundPowers n -> mem st2 x = mem st1 x) /\
  xxmalloc_usable_size p st2 = Ret (roundPowers n) st2 /\
  exists st3, xxfree p st2 = Ret tt st3 /\ wf st3.
Proof.
  intros Hwf0 Hos Hn Hrun Hsteps.
  pose proof (roundPowers_class n Hn) as Hc.
  destruct (xxmalloc_live _ _ _ _ _ Hwf0 Hos Hn Hrun) as [Hwf1 Hlive1].
  destruct (live_steps _ _ _ _ _ Hc Hsteps Hwf1 Hlive1) as (Hwf2 & [Hblk Hfree] & Hbytes).
  split; [exact Hbytes|]. split.
  - apply usable_size_in_page. apply is_block_in_page. exact Hblk.
  - apply (wf_xxfree st2 _ p Hwf2 Hc Hblk Hfree).
Qed.

Lemma live_block_keeps_its_bytes_witness :
  let st2 := after (xxfree (page_B + 1024)
                           (after (xxmalloc 1024 (reply page_B) one_page))) in
  (forall x, page_A + 2048 <= x < page_A + 2048 + roundPowers 2048 ->
             mem st2 x = mem one_page x) /\
  xxmalloc_usable_size (page_A + 2048) st2 = Ret (roundPowers 2048) st2 /\
  exists st3, xxfree (page_A + 2048) st2 = Ret tt st3 /\ wf st3.
Proof.
  apply (live_block_keeps_its_bytes
           (init_state empty_memory) 2048 (reply page_A) (page_A + 2048) one_page
           [OpMalloc 1024 (reply page_B); OpFree (page_B + 1024)]).
  - apply wf_init.
  - split; [lia|]. vm_compute. reflexivity.
  - lia.
  - exact one_page_run.
  - eapply steps_cons; [| |eapply steps_cons; [| |apply steps_nil]].
    + split; [|discriminate]. split; [|exact I].
      split; [lia|]. vm_compute. reflexivity.
    + unfold run_op, bind.
      rewrite (Ret_after (xxmalloc 1024 (reply page_B) one_page) (page_B + 1024))
        by (vm_compute; reflexivity).
      reflexivity.
    + split; [|intros H; vm_compute in H; discriminate].
      split; [exact I|]. right. exists 1024.
      split; [vm_compute; tauto|].
      split; [apply is_block_b_true; vm_compute; reflexivity|].
      intros l Hl.
      rewrite (chain_functional _ _ _ Hl [page_B + 2048; page_B + 3072])
        by (apply chain_b_true; vm_compute; reflexivity).
      intros [H | [H | []]]; vm_compute in H; discriminate.
    + unfold run_op. apply Ret_after. vm_compute. reflexivity.
Defined.

(** ** What the operations leave alone *)

(** X24. A non-null pointer whose page header cannot be read - one of
    the four bytes of the tag at [page_start ptr] is not mapped - is not
    rejected: [xxmalloc_usable_size] and [xxfree] fault on it. *)
Theorem unreadable_header_faults (st : state) (ptr i : Z) :
  ptr <> NULL -> 0 <= i < 4 -> mem st (page_start ptr + i) = None ->
  xxmalloc_usable_size ptr st = Crash /\ xxfree ptr st = Crash.
Proof.
  intros Hp Hi Hm.
  assert (xxmalloc_usable_size ptr st = Crash) as Hu.
  { unfold xxmalloc_usable_size. apply Z.eqb_neq in Hp. rewrite Hp.
    unfold bind, load_st. rewrite (load_unmapped 4 _ _ i) by assumption.
    reflexivity. }
  split; [exact Hu|].
  unfold xxfree. apply Z.eqb_neq in Hp. rewrite Hp.
  unfold bind. rewrite Hu. reflexivity.
Qed.

Lemma unreadable_header_faults_witness :
  xxmalloc_usable_size (page_B + 100) one_page = Crash /\
  xxfree (page_B + 100) one_page = Crash.
Proof.
  apply (unreadable_header_faults one_page (page_B + 100) 0).
  - vm_compute. discriminate.
  - lia.
  - vm_compute. reflexivity.
Defined.

(** X25. Whenever the behaviour of [xxfree ptr] is defined - [ptr] is
    null; or the tag of its page can be read and is not the sentinel, or is
    the sentinel with a recorded size of [(size_t) -1]; or the tag is the
    sentinel, the recorded size selects a slot of [freelists] and the eight
    bytes at [ptr] are mapped - [xxfree] returns, writes at most the eight
    bytes at [ptr], maps and unmaps nothing, changes at most one slot of
    [freelists], and calls nothing outside but [perror]; when it calls
    [perror], free lists and memory are as before. *)
Theorem xxfree_writes_only_the_link (st : state) (ptr : Z) :
  xxfree_defined ptr st ->
  exists st',
    xxfree ptr st = Ret tt st' /\
    (forall x, x < ptr \/ ptr + 8 <= x -> mem st' x = mem st x) /\
    (forall x, mapped (mem st') x <-> mapped (mem st) x) /\
    List.length (freelists st') = List.length (freelists st) /\
    (exists i, forall j, j <> i ->
                         nth j (freelists st') NULL = nth j (freelists st) NULL) /\
    (trace st' = trace st \/
     (trace st' = (trace st ++ [EvPerror "pointer not allocated using custom malloc"])%list /\
      freelists st' = freelists st /\ mem st' = mem st)).
Proof.
  intros Hdef. destruct (xxfree_defined_returns ptr st Hdef) as [st' Hrun].
  exists st'. split; [exact Hrun|]. apply xxfree_frame. exact Hrun.
Qed.

Lemma xxfree_writes_only_the_link_witness :
  exists st',
    xxfree (page_A + 1) one_page = Ret tt st' /\
    (forall x, x < page_A + 1 \/ page_A + 1 + 8 <= x -> mem st' x = mem one_page x) /\
    (forall x, mapped (mem st') x <-> mapped (mem one_page) x) /\
    List.length (freelists st') = List.length (freelists one_page) /\
    (exists i, forall j, j <> i ->
                         nth j (freelists st') NULL = nth j (freelists one_page) NULL) /\
    (trace st' = trace one_page \/
     (trace st' = (trace one_page ++ [EvPerror "pointer not allocated using custom malloc"])%list /\
      freelists st' = freelists one_page /\ mem st' = mem one_page)).
Proof.
  apply (xxfree_writes_only_the_link one_page (page_A + 1)).
  right. right. exists 7. split; [vm_compute; discriminate|].
  exists MAGIC_NUMBER, 2048.
  split; [vm_compute; reflexivity|]. split; [reflexivity|].
  split; [vm_compute; reflexivity|]. split; [vm_compute; discriminate|].
  split; [reflexivity|]. split; [reflexivity|].
  intros i Hi.
  assert (range_mapped (mem one_page) (page_A + 1) 8 = true) as H
      by (vm_compute; reflexivity).
  apply (proj1 (range_mapped_true _ _ _) H). simpl. lia.
Defined.

(** X26. A returning [xxmalloc], the operating system keeping its
    contract, changes no byte that was mapped before the call, changes at
    most one slot of [freelists], and makes at most one [mmap] call, which
    answered memory that was not mapped. *)
Theorem xxmalloc_writes_only_fresh_memory
        (st : state) (n : Z) (os : os_reply) (p : Z) (st' : state) :
  os_ok (OpMalloc n os) st ->
  List.length (freelists st) = 8%nat ->
  xxmalloc n os st = Ret p st' ->
  (forall x, mapped (mem st) x -> mem st' x = mem st x) /\
  List.length (freelists st') = 8%nat /\
  (exists i, forall j, j <> i ->
                       nth j (freelists st') NULL = nth j (freelists st) NULL) /\
  (trace st' = trace st \/
   exists len flags,
     trace st' = (trace st ++ [EvMmap len flags (mmap_ret os)])%list /\
     mmap_ret os <> MAP_FAILED /\
     forall x, mmap_ret os <= x < mmap_ret os + len -> mem st x = None).
Proof.
  intros Hos Hlen Hrun. pose proof Hos as [Hn Hok].
  destruct (xxmalloc_inv _ _ _ _ _ Hos Hlen Hrun) as (Hext & Hlen' & Hbig & Hsmall).
  split; [exact Hext|]. split; [exact Hlen'|]. split.
  - destruct (Z_lt_dec 2048 n) as [H | H].
    + exists 0%nat. intros j _. rewrite Hbig by exact H. reflexivity.
    + exists (Z.to_nat (class_index (roundPowers n))). intros j Hj.
      apply Hsmall; [lia|exact Hj].
  - destruct (xxmalloc_cases _ _ _ _ _ Hos Hlen Hrun)
      as [(Hgt & Ef & _ & ->)
         | [(Hle & _ & _ & nxt & _ & ->)
           | (Hle & _ & Ef & _ & m' & nxt & _ & _ & ->)]];
      cbn [freelists mem trace].
    + right. do 2 eexists. split; [reflexivity|]. split; [exact Ef|].
      destruct (Z.gtb_spec n 2048); [|lia].
      destruct (mmap_ok_fresh _ _ _ Hok Ef) as (_ & _ & _ & _ & Hfree). exact Hfree.
    + left. reflexivity.
    + right. do 2 eexists. split; [reflexivity|]. split; [exact Ef|].
      destruct (Z.gtb_spec n 2048); [lia|].
      destruct (mmap_ok_fresh _ _ _ Hok Ef) as (_ & _ & _ & _ & Hfree). exact Hfree.
Qed.

Lemma xxmalloc_writes_only_fresh_memory_witness :
  let st' := after (xxmalloc 1024 (reply page_B) one_page) in
  (forall x, mapped (mem one_page) x -> mem st' x = mem one_page x) /\
  List.length (freelists st') = 8%nat /\
  (exists i, forall j, j <> i ->
                       nth j (freelists st') NULL = nth j (freelists one_page) NULL) /\
  (trace st' = trace one_page \/
   exists len flags,
     trace st' = (trace one_page ++ [EvMmap len flags (mmap_ret (reply page_B))])%list /\
     mmap_ret (reply page_B) <> MAP_FAILED /\
     forall x, mmap_ret (reply page_B) <= x < mmap_ret (reply page_B) + len ->
               mem one_page x = None).
Proof.
  apply (xxmalloc_writes_only_fresh_memory one_page 1024 (reply page_B) (page_B + 1024)).
  - split; [lia|]. vm_compute. reflexivity.
  - vm_compute. reflexivity.
  - apply Ret_after. vm_compute. reflexivity.
Defined.
